(** * fortress: the Fortran line parser of [CodeFile.py]

    A shallow embedding of the classes [CodeLine] and [CodeFile] and the
    properties of their decomposition, continuation, indentation, conversion
    and comment-block passes.

    Conventions of the embedding
    - a Python [str] is a [list ascii]: a text of characters with code
      points below 256, the character classes being those of Python 3 on
      such characters;
    - a Python [int] is a [Z], a length is a [nat];
    - an object is a record, a method that mutates [self] returns the new
      record; a loop over [self.codeLines] is a fold over a [list CodeLine]
      that threads the loop's local state;
    - subscripting [s[i]] is partial ([IndexError]) and returns an [option];
      slicing and repetition are total, as in Python;
    - [re.match] is a backtracking matcher over the regular expressions the
      file uses, each transcribed as a term of [regex].

    The file has three parts: the embedding, the vocabulary of the
    properties, and the properties with their proofs. *)

From Stdlib Require Import List Ascii String ZArith Lia Bool Arith.
Import ListNotations.

Set Implicit Arguments.

Local Open Scope list_scope.

(** ** Strings *)

Abbreviation str := (list ascii).

(** A string literal of the source. *)
Definition lit (x : string) : str := list_ascii_of_string x.

Definition len (x : str) : nat := List.length x.

(** [s[i]], which raises [IndexError] (here [None]) out of range. *)
Definition index (x : str) (i : nat) : option ascii := nth_error x i.

(** [s[i:]] and [s[:i]]: slices never raise. *)
Definition slice_from (i : nat) (x : str) : str := skipn i x.
Definition slice_to (i : nat) (x : str) : str := firstn i x.

(** [c in [c1, c2, ...]] *)
Definition char_in (c : ascii) (l : list ascii) : bool :=
  existsb (Ascii.eqb c) l.

(** [s * n] for an [int] n: the empty string when [n <= 0]. *)
Definition str_mul (x : str) (n : Z) : str :=
  List.concat (repeat x (Z.to_nat n)).

(** [s.count(c)] for a one-character needle. *)
Definition count_char (c : ascii) (x : str) : nat :=
  List.length (filter (Ascii.eqb c) x).

(** ** Character classes of the [re] module on a [str] (code points
    below 256) *)

Definition nl : ascii := "010"%char.
Definition tab : ascii := "009"%char.

(** [\s] is the class of the characters for which [str.isspace()] holds:
    [[ \t\n\r\f\v]], the separators [\x1c] to [\x1f], [\x85] and [\xa0];
    [str.lstrip()] strips the same characters. *)
Definition is_space (c : ascii) : bool :=
  char_in c
    [" "%char; "009"%char; "010"%char; "013"%char; "012"%char; "011"%char;
     "028"%char; "029"%char; "030"%char; "031"%char; "133"%char; "160"%char].

(** [\S] *)
Definition is_nonspace (c : ascii) : bool := negb (is_space c).

(** [\d] is [[0-9]]. *)
Definition is_digit (c : ascii) : bool :=
  let n := nat_of_ascii c in (48 <=? n) && (n <=? 57).

(** The characters above [\x7f] for which [str.isalnum()] holds: the
    letters [\xaa], [\xb5], [\xba], [\xc0] to [\xd6], [\xd8] to [\xf6] and
    [\xf8] to [\xff], and the numbers [\xb2], [\xb3], [\xb9] and [\xbc] to
    [\xbe]. *)
Definition is_alnum_above (c : ascii) : bool :=
  let n := nat_of_ascii c in
  (n =? 170) || (n =? 181) || (n =? 186)
  || ((192 <=? n) && (n <=? 214)) || ((216 <=? n) && (n <=? 246))
  || ((248 <=? n) && (n <=? 255))
  || (n =? 178) || (n =? 179) || (n =? 185)
  || ((188 <=? n) && (n <=? 190)).

(** [\w] is [[a-zA-Z0-9_]] and the characters above [\x7f] for which
    [str.isalnum()] holds. *)
Definition is_word (c : ascii) : bool :=
  let n := nat_of_ascii c in
  ((97 <=? n) && (n <=? 122)) || ((65 <=? n) && (n <=? 90))
  || is_digit c || Ascii.eqb c "_"%char || is_alnum_above c.

(** [.] matches everything but a newline (no DOTALL flag is used). *)
Definition is_dot (c : ascii) : bool := negb (Ascii.eqb c nl).

(** A literal character. *)
Definition is_chr (a : ascii) (c : ascii) : bool := Ascii.eqb c a.

(** Lower case of the letters [A] to [Z], for the [(?i)] flag: every
    pattern of the file spells its letters in ASCII, and no character above
    [\x7f] and below [\u0100] matches one of them under the flag. *)
Definition lower (c : ascii) : ascii :=
  let n := nat_of_ascii c in
  if (65 <=? n) && (n <=? 90) then ascii_of_nat (n + 32) else c.

(** A literal character under [(?i)]. *)
Definition is_chr_i (a : ascii) (c : ascii) : bool :=
  Ascii.eqb (lower c) (lower a).

(** [str.lstrip()] *)
Fixpoint lstrip (x : str) : str :=
  match x with
  | c :: x' => if is_space c then lstrip x' else x
  | [] => []
  end.

(** ** Regular expressions

    The fragment of Python's [re] syntax that [CodeFile.py] uses.  Every
    repetition in the file is over a single character class, so [Rep] takes
    the class, its bounds and its greediness; [Opt] is the greedy [?] over an
    arbitrary sub-expression. *)

Inductive regex : Type :=
| Eps : regex
| Chr : (ascii -> bool) -> regex
| Rep : (ascii -> bool) -> nat -> option nat -> bool -> regex
| Cat : regex -> regex -> regex
| Alt : regex -> regex -> regex
| Opt : regex -> regex
| Grp : nat -> regex -> regex
| Eol : regex
| Wb : regex.

(** The groups that have matched so far, latest first. *)
Definition captures := list (nat * str).

(** A continuation receives the character before the position, the text
    that remains and the groups. *)
Definition kont := option ascii -> str -> captures -> option captures.

(** Is the bound of a repetition exhausted? *)
Definition can_more (hi : option nat) : bool :=
  match hi with
  | Some O => false
  | _ => true
  end.

Definition dec_hi (hi : option nat) : option nat := option_map pred hi.

(** Greedy repetition: as many characters as possible first, then fewer. *)
Fixpoint rep_greedy (p : ascii -> bool) (lo : nat) (hi : option nat)
    (pv : option ascii) (s : str) (cs : captures) (k : kont) {struct s}
    : option captures :=
  let stop := match lo with O => k pv s cs | S _ => None end in
  match s with
  | c :: s' =>
      if p c && can_more hi then
        match rep_greedy p (pred lo) (dec_hi hi) (Some c) s' cs k with
        | Some r => Some r
        | None => stop
        end
      else stop
  | [] => stop
  end.

(** Lazy repetition: as few characters as possible first, then more. *)
Fixpoint rep_lazy (p : ascii -> bool) (lo : nat) (hi : option nat)
    (pv : option ascii) (s : str) (cs : captures) (k : kont) {struct s}
    : option captures :=
  let more :=
    match s with
    | c :: s' =>
        if p c && can_more hi
        then rep_lazy p (pred lo) (dec_hi hi) (Some c) s' cs k
        else None
    | [] => None
    end in
  match lo with
  | O => match k pv s cs with
         | Some r => Some r
         | None => more
         end
  | S _ => more
  end.

(** [$] matches at the end of the string and just before a newline that is
    the last character of the string (no MULTILINE flag is used). *)
Definition at_eol (s : str) : bool :=
  match s with
  | [] => true
  | [c] => Ascii.eqb c nl
  | _ => false
  end.

(** [\b]: exactly one side of the position is a word character. *)
Definition word_before (pv : option ascii) : bool :=
  match pv with Some c => is_word c | None => false end.

Definition word_after (s : str) : bool :=
  match s with c :: _ => is_word c | [] => false end.

Definition at_wb (pv : option ascii) (s : str) : bool :=
  xorb (word_before pv) (word_after s).

(** The backtracking matcher, in continuation-passing style: alternatives
    are tried in the order of the [re] module and the first that lets the
    rest of the pattern succeed wins. *)
Fixpoint rmatch (r : regex) (pv : option ascii) (s : str) (cs : captures)
    (k : kont) {struct r} : option captures :=
  match r with
  | Eps => k pv s cs
  | Chr p =>
      match s with
      | c :: s' => if p c then k (Some c) s' cs else None
      | [] => None
      end
  | Rep p lo hi true => rep_greedy p lo hi pv s cs k
  | Rep p lo hi false => rep_lazy p lo hi pv s cs k
  | Cat r1 r2 =>
      rmatch r1 pv s cs (fun pv' s' cs' => rmatch r2 pv' s' cs' k)
  | Alt r1 r2 =>
      match rmatch r1 pv s cs k with
      | Some m => Some m
      | None => rmatch r2 pv s cs k
      end
  | Opt r1 =>
      match rmatch r1 pv s cs k with
      | Some m => Some m
      | None => k pv s cs
      end
  | Grp n r1 =>
      rmatch r1 pv s cs
        (fun pv' s' cs' => k pv' s' ((n, firstn (len s - len s') s) :: cs'))
  | Eol => if at_eol s then k pv s cs else None
  | Wb => if at_wb pv s then k pv s cs else None
  end.

(** [re.match(r, s)]: anchored at the start, not at the end. *)
Definition re_match (r : regex) (s : str) : option captures :=
  rmatch r None s [] (fun _ _ cs => Some cs).

(** [match.group(n)] *)
Fixpoint group (m : captures) (n : nat) : str :=
  match m with
  | (i, x) :: m' => if Nat.eqb i n then x else group m' n
  | [] => []
  end.

(** Pattern syntax. *)
Declare Scope re_scope.
Delimit Scope re_scope with re.
Bind Scope re_scope with regex.
Infix "++" := Cat (right associativity, at level 60) : re_scope.

Definition star (p : ascii -> bool) : regex := Rep p 0 None true.
Definition plus (p : ascii -> bool) : regex := Rep p 1 None true.
Definition lazy_star (p : ascii -> bool) : regex := Rep p 0 None false.
Definition times (p : ascii -> bool) (n : nat) : regex := Rep p n (Some n) true.

(** A literal word, case-sensitive or under [(?i)]. *)
Fixpoint word (x : str) : regex :=
  match x with
  | [] => Eps
  | c :: x' => Cat (Chr (is_chr c)) (word x')
  end.

Fixpoint word_i (x : str) : regex :=
  match x with
  | [] => Eps
  | c :: x' => Cat (Chr (is_chr_i c)) (word_i x')
  end.

(** ** The error monad of the embedding

    [None] is a raised exception; the only operation of the modelled code
    that can raise is subscripting. *)

Definition bind {A B : Type} (x : option A) (f : A -> option B) : option B :=
  match x with
  | Some a => f a
  | None => None
  end.

Notation "x <- e ;; k" := (bind e (fun x => k))
  (at level 61, e at next level, right associativity).

(** ** class CodeLine *)

Record CodeLine : Type := mkCodeLine {
  isFreeForm : bool;
  remarks : list str;
  line : str;
  origCodeLength : Z;
  (* line parts *)
  preProc : str;
  leftSpace : str;
  code : str;
  midSpace : str;
  comment : str;
  rightSpace : str;
  (* line parts in fixed-form *)
  fixedComment : str;
  fixedLabel : str;
  fixedCont : str;
  (* line parts in free-form *)
  freeLabel : str;
  freeContBeg : str;
  freeContEnd : str;
  (* line properties *)
  isContinued : bool;
  isContinuation : bool
}.

(** [CodeLine.__init__(line, isFreeForm)] *)
Definition CodeLine_init (l : str) (free : bool) : CodeLine :=
  {| isFreeForm := free; remarks := []; line := l; origCodeLength := 0%Z;
     preProc := []; leftSpace := []; code := []; midSpace := [];
     comment := []; rightSpace := [];
     fixedComment := []; fixedLabel := []; fixedCont := [];
     freeLabel := []; freeContBeg := []; freeContEnd := [];
     isContinued := false; isContinuation := false |}.

(** Attribute assignments [self.f = v]. *)
Definition set_isFreeForm (v : bool) (o : CodeLine) : CodeLine :=
  mkCodeLine v (remarks o) (line o) (origCodeLength o) (preProc o)
    (leftSpace o) (code o) (midSpace o) (comment o) (rightSpace o)
    (fixedComment o) (fixedLabel o) (fixedCont o) (freeLabel o)
    (freeContBeg o) (freeContEnd o) (isContinued o) (isContinuation o).

Definition set_remarks (v : list str) (o : CodeLine) : CodeLine :=
  mkCodeLine (isFreeForm o) v (line o) (origCodeLength o) (preProc o)
    (leftSpace o) (code o) (midSpace o) (comment o) (rightSpace o)
    (fixedComment o) (fixedLabel o) (fixedCont o) (freeLabel o)
    (freeContBeg o) (freeContEnd o) (isContinued o) (isContinuation o).

Definition set_line (v : str) (o : CodeLine) : CodeLine :=
  mkCodeLine (isFreeForm o) (remarks o) v (origCodeLength o) (preProc o)
    (leftSpace o) (code o) (midSpace o) (comment o) (rightSpace o)
    (fixedComment o) (fixedLabel o) (fixedCont o) (freeLabel o)
    (freeContBeg o) (freeContEnd o) (isContinued o) (isContinuation o).

Definition set_origCodeLength (v : Z) (o : CodeLine) : CodeLine :=
  mkCodeLine (isFreeForm o) (remarks o) (line o) v (preProc o)
    (leftSpace o) (code o) (midSpace o) (comment o) (rightSpace o)
    (fixedComment o) (fixedLabel o) (fixedCont o) (freeLabel o)
    (freeContBeg o) (freeContEnd o) (isContinued o) (isContinuation o).

Definition set_preProc (v : str) (o : CodeLine) : CodeLine :=
  mkCodeLine (isFreeForm o) (remarks o) (line o) (origCodeLength o) v
    (leftSpace o) (code o) (midSpace o) (comment o) (rightSpace o)
    (fixedComment o) (fixedLabel o) (fixedCont o) (freeLabel o)
    (freeContBeg o) (freeContEnd o) (isContinued o) (isContinuation o).

Definition set_leftSpace (v : str) (o : CodeLine) : CodeLine :=
  mkCodeLine (isFreeForm o) (remarks o) (line o) (origCodeLength o) (preProc o)
    v (code o) (midSpace o) (comment o) (rightSpace o)
    (fixedComment o) (fixedLabel o) (fixedCont o) (freeLabel o)
    (freeContBeg o) (freeContEnd o) (isContinued o) (isContinuation o).

Definition set_code (v : str) (o : CodeLine) : CodeLine :=
  mkCodeLine (isFreeForm o) (remarks o) (line o) (origCodeLength o) (preProc o)
    (leftSpace o) v (midSpace o) (comment o) (rightSpace o)
    (fixedComment o) (fixedLabel o) (fixedCont o) (freeLabel o)
    (freeContBeg o) (freeContEnd o) (isContinued o) (isContinuation o).

Definition set_midSpace (v : str) (o : CodeLine) : CodeLine :=
  mkCodeLine (isFreeForm o) (remarks o) (line o) (origCodeLength o) (preProc o)
    (leftSpace o) (code o) v (comment o) (rightSpace o)
    (fixedComment o) (fixedLabel o) (fixedCont o) (freeLabel o)
    (freeContBeg o) (freeContEnd o) (isContinued o) (isContinuation o).

Definition set_comment (v : str) (o : CodeLine) : CodeLine :=
  mkCodeLine (isFreeForm o) (remarks o) (line o) (origCodeLength o) (preProc o)
    (leftSpace o) (code o) (midSpace o) v (rightSpace o)
    (fixedComment o) (fixedLabel o) (fixedCont o) (freeLabel o)
    (freeContBeg o) (freeContEnd o) (isContinued o) (isContinuation o).

Definition set_rightSpace (v : str) (o : CodeLine) : CodeLine :=
  mkCodeLine (isFreeForm o) (remarks o) (line o) (origCodeLength o) (preProc o)
    (leftSpace o) (code o) (midSpace o) (comment o) v
    (fixedComment o) (fixedLabel o) (fixedCont o) (freeLabel o)
    (freeContBeg o) (freeContEnd o) (isContinued o) (isContinuation o).

Definition set_fixedComment (v : str) (o : CodeLine) : CodeLine :=
  mkCodeLine (isFreeForm o) (remarks o) (line o) (origCodeLength o) (preProc o)
    (leftSpace o) (code o) (midSpace o) (comment o) (rightSpace o)
    v (fixedLabel o) (fixedCont o) (freeLabel o)
    (freeContBeg o) (freeContEnd o) (isContinued o) (isContinuation o).

Definition set_fixedLabel (v : str) (o : CodeLine) : CodeLine :=
  mkCodeLine (isFreeForm o) (remarks o) (line o) (origCodeLength o) (preProc o)
    (leftSpace o) (code o) (midSpace o) (comment o) (rightSpace o)
    (fixedComment o) v (fixedCont o) (freeLabel o)
    (freeContBeg o) (freeContEnd o) (isContinued o) (isContinuation o).

Definition set_fixedCont (v : str) (o : CodeLine) : CodeLine :=
  mkCodeLine (isFreeForm o) (remarks o) (line o) (origCodeLength o) (preProc o)
    (leftSpace o) (code o) (midSpace o) (comment o) (rightSpace o)
    (fixedComment o) (fixedLabel o) v (freeLabel o)
    (freeContBeg o) (freeContEnd o) (isContinued o) (isContinuation o).

Definition set_freeLabel (v : str) (o : CodeLine) : CodeLine :=
  mkCodeLine (isFreeForm o) (remarks o) (line o) (origCodeLength o) (preProc o)
    (leftSpace o) (code o) (midSpace o) (comment o) (rightSpace o)
    (fixedComment o) (fixedLabel o) (fixedCont o) v
    (freeContBeg o) (freeContEnd o) (isContinued o) (isContinuation o).

Definition set_freeContBeg (v : str) (o : CodeLine) : CodeLine :=
  mkCodeLine (isFreeForm o) (remarks o) (line o) (origCodeLength o) (preProc o)
    (leftSpace o) (code o) (midSpace o) (comment o) (rightSpace o)
    (fixedComment o) (fixedLabel o) (fixedCont o) (freeLabel o)
    v (freeContEnd o) (isContinued o) (isContinuation o).

Definition set_freeContEnd (v : str) (o : CodeLine) : CodeLine :=
  mkCodeLine (isFreeForm o) (remarks o) (line o) (origCodeLength o) (preProc o)
    (leftSpace o) (code o) (midSpace o) (comment o) (rightSpace o)
    (fixedComment o) (fixedLabel o) (fixedCont o) (freeLabel o)
    (freeContBeg o) v (isContinued o) (isContinuation o).

Definition set_isContinued (v : bool) (o : CodeLine) : CodeLine :=
  mkCodeLine (isFreeForm o) (remarks o) (line o) (origCodeLength o) (preProc o)
    (leftSpace o) (code o) (midSpace o) (comment o) (rightSpace o)
    (fixedComment o) (fixedLabel o) (fixedCont o) (freeLabel o)
    (freeContBeg o) (freeContEnd o) v (isContinuation o).

Definition set_isContinuation (v : bool) (o : CodeLine) : CodeLine :=
  mkCodeLine (isFreeForm o) (remarks o) (line o) (origCodeLength o) (preProc o)
    (leftSpace o) (code o) (midSpace o) (comment o) (rightSpace o)
    (fixedComment o) (fixedLabel o) (fixedCont o) (freeLabel o)
    (freeContBeg o) (freeContEnd o) (isContinued o) v.

(** Truth value of [len(x)]. *)
Definition nonempty (x : str) : bool := negb (len x =? 0).

(** *** The patterns of [parseLine]

    Each pattern is quoted above its transcription, groups set apart by
    blanks that are not part of the pattern. *)

Local Open Scope re_scope.

(** [ (.*?) (\s+) $ ] *)
Definition re_rightSpace : regex :=
  Grp 1 (lazy_star is_dot) ++ Grp 2 (plus is_space) ++ Eol.

(** [ \s{0,4} (\d+) (.*?) $ ] *)
Definition re_fixedLabel : regex :=
  Rep is_space 0 (Some 4) true ++ Grp 1 (plus is_digit)
  ++ Grp 2 (lazy_star is_dot) ++ Eol.

(** [ (\s+) (.*?) $ ] *)
Definition re_leftSpace : regex :=
  Grp 1 (plus is_space) ++ Grp 2 (lazy_star is_dot) ++ Eol.

(** [ (.*?) ( \s* ) (!.*?) $ ] *)
Definition re_comment : regex :=
  Grp 1 (lazy_star is_dot) ++ Grp 2 (star is_space)
  ++ Grp 3 (Chr (is_chr "!") ++ lazy_star is_dot) ++ Eol.

(** [ (\d+\s+) (.*?) $ ] *)
Definition re_freeLabel : regex :=
  Grp 1 (plus is_digit ++ plus is_space) ++ Grp 2 (lazy_star is_dot) ++ Eol.

(** [ ( &\s* ) (.*?) $ ] *)
Definition re_freeCont : regex :=
  Grp 1 (Chr (is_chr "&") ++ star is_space) ++ Grp 2 (lazy_star is_dot) ++ Eol.

Local Close Scope re_scope.

(** *** [CodeLine.parseLine]

    The second half of the method, from "strip away left whitespace" on; no
    statement of it can raise. *)
Definition parseLine_rest (self : CodeLine) : CodeLine :=
  (* strip away left whitespace *)
  let self :=
    match re_match re_leftSpace (line self) with
    | Some m => set_line (group m 2) (set_leftSpace (group m 1) self)
    | None => self
    end in
  (* check for free comments *)
  let self :=
    match re_match re_comment (line self) with
    | Some m =>
        set_line (group m 1)
          (set_comment (group m 3) (set_midSpace (group m 2) self))
    | None => self
    end in
  (* free-form checks *)
  let self :=
    if isFreeForm self then
      (* check for free label *)
      let self :=
        match re_match re_freeLabel (line self) with
        | Some m => set_line (group m 2) (set_freeLabel (group m 1) self)
        | None => self
        end in
      (* check for continuation *)
      match re_match re_freeCont (line self) with
      | Some m =>
          set_line (group m 2)
            (set_isContinuation true (set_freeContBeg (group m 1) self))
      | None => self
      end
    else self in
  (* finished *)
  let self := set_code (line self) self in
  let self := set_line [] self in
  (* record length of code in this line *)
  set_origCodeLength (Z.of_nat (len (code self))) self.

(** The whole method.  Each [return] of the source is a [Some] here. *)
Definition parseLine (self : CodeLine) : option CodeLine :=
  (* first strip away any trailing whitespace *)
  let self :=
    match re_match re_rightSpace (line self) with
    | Some m => set_line (group m 1) (set_rightSpace (group m 2) self)
    | None => self
    end in
  (* ignore empty lines *)
  if len (line self) =? 0 then Some self else
  (* check for preprocessor lines *)
  c0 <- index (line self) 0 ;;
  if Ascii.eqb c0 "#" then Some (set_preProc (line self) self) else
  (* some fixed-form checks *)
  if negb (isFreeForm self) then
    (* check for comment symbol in first column *)
    c0 <- index (line self) 0 ;;
    if char_in c0 ["c"; "C"; "*"; "!"]%char
    then Some (set_fixedComment (line self) self) else
    (* check for label *)
    match re_match re_fixedLabel (line self) with
    | Some m =>
        Some (parseLine_rest
                (set_line (group m 2) (set_fixedLabel (group m 1) self)))
    | None =>
        (* otherwise check for continuation *)
        isCont <-
          (if 5 <? len (line self) then
             c0 <- index (line self) 0 ;;
             if negb (Ascii.eqb c0 tab) then
               c5 <- index (line self) 5 ;;
               Some (negb (char_in c5 [" "; "0"]%char))
             else Some false
           else Some false) ;;
        if isCont : bool then
          Some (parseLine_rest
                  (set_line (slice_from 6 (line self))
                     (set_isContinuation true
                        (set_fixedCont (slice_to 6 (line self)) self))))
        else Some (parseLine_rest self)
    end
  else Some (parseLine_rest self).

(** [CodeLine.hasCode] *)
Definition hasCode (self : CodeLine) : bool :=
  if nonempty (code self) then true else false.

(** [CodeLine.stripTrailingWhitespace] *)
Definition stripTrailingWhitespace (self : CodeLine) : CodeLine :=
  set_rightSpace [nl] self.

(** [CodeLine.convertFixedToFree] *)
Definition convertFixedToFree (self : CodeLine) : CodeLine :=
  if isFreeForm self then self else
  let self := set_isFreeForm true self in
  (* convert comments *)
  if nonempty (fixedComment self) then
    let self :=
      if nonempty (lstrip (slice_from 1 (fixedComment self)))
      then set_comment (lit "! " ++ lstrip (slice_from 1 (fixedComment self)))
             self
      else self in
    set_fixedComment [] self
  else
  (* label *)
  let self :=
    if nonempty (fixedLabel self)
    then set_fixedLabel [] (set_freeLabel (fixedLabel self ++ lit " ") self)
    else self in
  (* continuation *)
  let self :=
    if nonempty (fixedCont self) then
      (* need double check in case there is no code *)
      let self :=
        if isContinuation self then set_freeContBeg (lit "&") self else self in
      set_fixedCont [] self
    else self in
  (* continued line? *)
  if isContinued self then set_freeContEnd (lit "&") self else self.

(** [CodeLine.setIndentation(level, indent)] *)
Definition setIndentation (level : Z) (indent : str) (self : CodeLine)
    : CodeLine :=
  if hasCode self || nonempty (comment self)
  then set_leftSpace (str_mul indent level) self
  else set_leftSpace [] self.

(** *** The keyword patterns of the indentation pass

    All are compiled with [(?i)] and applied with [re.match], that is at the
    start of the code region. *)

Local Open Scope re_scope.

(** [ (\w+:\s+)? do\b ] *)
Definition re_do : regex :=
  Opt (Grp 1 (plus is_word ++ Chr (is_chr_i ":") ++ plus is_space))
  ++ word_i (lit "do") ++ Wb.

(** [ if\b .*? \bthen\b ] *)
Definition re_ifThen : regex :=
  word_i (lit "if") ++ Wb ++ lazy_star is_dot ++ Wb ++ word_i (lit "then")
  ++ Wb.

(** [ subroutine\b ], [ module\b ], [ interface\b ], [ function\b ] *)
Definition re_keyword (kw : string) : regex := word_i (lit kw) ++ Wb.

(** [ type \s* [^\s\(] ] *)
Definition re_type : regex :=
  word_i (lit "type") ++ star is_space
  ++ Chr (fun c => negb (is_space c || Ascii.eqb c "(")).

(** [ block \s? data\b ] *)
Definition re_blockData : regex :=
  word_i (lit "block") ++ Opt (Chr is_space) ++ word_i (lit "data") ++ Wb.

(** [ where\b .*? \) $ ] *)
Definition re_where : regex :=
  word_i (lit "where") ++ Wb ++ lazy_star is_dot ++ Chr (is_chr_i ")") ++ Eol.

(** [ else (if)? \b ] *)
Definition re_else : regex :=
  word_i (lit "else") ++ Opt (Grp 1 (word_i (lit "if"))) ++ Wb.

(** [ ( end (if|do|where)? | else (if)? ) \b ] *)
Definition re_decrease : regex :=
  Grp 1 (Alt
           (word_i (lit "end")
            ++ Opt (Grp 2 (Alt (word_i (lit "if"))
                             (Alt (word_i (lit "do")) (word_i (lit "where"))))))
           (word_i (lit "else") ++ Opt (Grp 3 (word_i (lit "if")))))
  ++ Wb.

Local Close Scope re_scope.

(** Truth value of a match object. *)
Definition matches (r : regex) (s : str) : bool :=
  match re_match r s with Some _ => true | None => false end.

(** [CodeLine.increasesIndentAfter] *)
Definition increasesIndentAfter (self : CodeLine) : bool :=
  if matches re_do (code self)
     || matches re_ifThen (code self)
     || matches (re_keyword "subroutine") (code self)
     || matches (re_keyword "module") (code self)
     || matches re_type (code self)
     || matches (re_keyword "interface") (code self)
     || matches re_blockData (code self)
     || matches (re_keyword "function") (code self)
     || matches re_where (code self)
     || matches re_else (code self)
  then true else false.

(** [CodeLine.decreasesIndentBefore] *)
Definition decreasesIndentBefore (self : CodeLine) : bool :=
  if matches re_decrease (code self) then true else false.

(** [CodeLine.unindentPreProc] *)
Definition unindentPreProc (self : CodeLine) : CodeLine :=
  if nonempty (preProc self)
  then set_preProc (lit "#" ++ lstrip (slice_from 1 (preProc self))) self
  else self.

(** [CodeLine.verifyContinuation] *)
Definition verifyContinuation (self : CodeLine) : CodeLine :=
  if negb (hasCode self) then set_isContinuation false self else self.

(** [CodeLine.swallowLengthChange] *)
Definition swallowLengthChange (self : CodeLine) : CodeLine :=
  (* if there is no comment, just return because there is no space to
     change *)
  if negb (nonempty (comment self)) || negb (hasCode self) then self else
  let lengthChange :=
    (Z.of_nat (len (code self)) - origCodeLength self)%Z in
  (* no change for no length change *)
  if (lengthChange =? 0)%Z then self else
  (* at least one space must remain *)
  let numLeftSpaces :=
    Z.max 1 (Z.of_nat (len (midSpace self)) - lengthChange) in
  set_midSpace (str_mul (lit " ") numLeftSpaces) self.

(** [CodeLine.buildFullLine] *)
Definition buildFullLine (self : CodeLine) : str :=
  preProc self ++ fixedComment self ++ fixedLabel self ++ fixedCont self
  ++ leftSpace self ++ freeLabel self ++ freeContBeg self ++ code self
  ++ freeContEnd self ++ midSpace self ++ comment self
  ++ rightSpace self.

(** [CodeLine.getLength] *)
Definition getLength (self : CodeLine) : Z :=
  (Z.of_nat (len (buildFullLine self)) - 1)%Z.

(** [CodeLine.rebuild] *)
Definition rebuild (self : CodeLine) : str :=
  fold_left (fun output remark => output ++ lit "! TODO: " ++ remark ++ [nl])
    (remarks self) (buildFullLine self).

(** ** class CodeFile

    The object holds one attribute, [codeLines]; its methods are functions
    of that list. *)

Definition negativeIndentation : str :=
  lit "Negative indentation level reached.".

(** *** [CodeFile.fixIndentation]

    The statements of the loop body before [setIndentation] is called:
    the new value of [curIndent] and the line with its remark. *)
Definition fixIndentation_enter (curIndent : Z) (codeLine : CodeLine)
    : Z * CodeLine :=
  let curIndent :=
    if decreasesIndentBefore codeLine then (curIndent - 1)%Z else curIndent in
  if (curIndent <? 0)%Z
  then (0%Z, set_remarks (remarks codeLine ++ [negativeIndentation]) codeLine)
  else (curIndent, codeLine).

(** One iteration of the loop. *)
Definition fixIndentation_body (indent : str) (contiIndent : Z)
    (curIndent : Z) (codeLine : CodeLine) : Z * CodeLine :=
  let (curIndent, codeLine) := fixIndentation_enter curIndent codeLine in
  let codeLine :=
    setIndentation
      (curIndent + (if isContinuation codeLine then contiIndent else 0))%Z
      indent codeLine in
  let curIndent :=
    if increasesIndentAfter codeLine then (curIndent + 1)%Z else curIndent in
  (curIndent, codeLine).

(** The loop, from a given value of [curIndent]: the final value and the
    lines as the loop leaves them. *)
Fixpoint fixIndentation_loop (indent : str) (contiIndent : Z) (curIndent : Z)
    (codeLines : list CodeLine) : Z * list CodeLine :=
  match codeLines with
  | [] => (curIndent, [])
  | codeLine :: rest =>
      let (curIndent', codeLine') :=
        fixIndentation_body indent contiIndent curIndent codeLine in
      let (final, rest') :=
        fixIndentation_loop indent contiIndent curIndent' rest in
      (final, codeLine' :: rest')
  end.

Definition fixIndentation (indent : str) (contiIndent : Z)
    (codeLines : list CodeLine) : list CodeLine :=
  snd (fixIndentation_loop indent contiIndent 0%Z codeLines).

(** *** [CodeFile.transformDoxygenBlocks] *)

Local Open Scope re_scope.

(** [ !\s (\S+\.\S+) \s+c$ ] *)
Definition re_doxyFile : regex :=
  Chr (is_chr "!") ++ Chr is_space
  ++ Grp 1 (plus is_nonspace ++ Chr (is_chr ".") ++ plus is_nonspace)
  ++ plus is_space ++ Chr (is_chr "c") ++ Eol.

(** [ !\s>\s+\\ (param.*?) $ ] *)
Definition re_doxyParam : regex :=
  Chr (is_chr "!") ++ Chr is_space ++ Chr (is_chr ">") ++ plus is_space
  ++ Chr (is_chr "\") ++ Grp 1 (word (lit "param") ++ lazy_star is_dot)
  ++ Eol.

(** [ !\s (\d{4}\.\d{2}\.\d{2}) \s-\s (.*?) \s+c$ ] *)
Definition re_doxyDate : regex :=
  Chr (is_chr "!") ++ Chr is_space
  ++ Grp 1 (times is_digit 4 ++ Chr (is_chr ".") ++ times is_digit 2
            ++ Chr (is_chr ".") ++ times is_digit 2)
  ++ Chr is_space ++ Chr (is_chr "-") ++ Chr is_space
  ++ Grp 2 (lazy_star is_dot) ++ plus is_space ++ Chr (is_chr "c") ++ Eol.

(** [ !\s (.*?) \s\[ (.*?@.*?\..*?) \]\s+c$ ] *)
Definition re_doxyAuthor : regex :=
  Chr (is_chr "!") ++ Chr is_space ++ Grp 1 (lazy_star is_dot)
  ++ Chr is_space ++ Chr (is_chr "[")
  ++ Grp 2 (lazy_star is_dot ++ Chr (is_chr "@") ++ lazy_star is_dot
            ++ Chr (is_chr ".") ++ lazy_star is_dot)
  ++ Chr (is_chr "]") ++ plus is_space ++ Chr (is_chr "c") ++ Eol.

Local Close Scope re_scope.

(** The rewriting of a line inside a block (the statements under
    [if inBlock:]). *)
Definition transformDoxygen_inBlock (codeLine : CodeLine) : CodeLine :=
  (* is it many dashes? *)
  if count_char "-" (comment codeLine) =? 60
  then set_comment (lit "!>") codeLine else
  (* is it the filename? *)
  match re_match re_doxyFile (comment codeLine) with
  | Some m => set_comment (lit "!> @file " ++ group m 1) codeLine
  | None =>
  (* is it a param? *)
  match re_match re_doxyParam (comment codeLine) with
  | Some m => set_comment (lit "!> @" ++ group m 1) codeLine
  | None =>
  (* is it a date? *)
  match re_match re_doxyDate (comment codeLine) with
  | Some m =>
      set_comment (lit "!> @date " ++ group m 1 ++ lit " -- " ++ group m 2)
        codeLine
  | None =>
  (* is it a mail address? *)
  match re_match re_doxyAuthor (comment codeLine) with
  | Some m =>
      set_comment
        (lit "!> @authors " ++ group m 1 ++ lit " <" ++ group m 2 ++ lit ">")
        codeLine
  | None =>
  (* or is it the description? *)
  set_comment
    (lit "!> @brief " ++ lstrip (slice_from 3 (comment codeLine))) codeLine
  end end end end.

(** One iteration of the loop: the new value of [inBlock] and the line. *)
Definition transformDoxygenBlocks_body (length : Z) (inBlock : bool)
    (codeLine : CodeLine) : bool * CodeLine :=
  if count_char "c" (comment codeLine) =? 70 then
    (negb inBlock,
     set_comment (lit "!" ++ str_mul (lit "-") (length - 1)) codeLine)
  else if inBlock then (inBlock, transformDoxygen_inBlock codeLine)
  else (inBlock, codeLine).

Fixpoint transformDoxygenBlocks_loop (length : Z) (inBlock : bool)
    (codeLines : list CodeLine) : bool * list CodeLine :=
  match codeLines with
  | [] => (inBlock, [])
  | codeLine :: rest =>
      let (inBlock', codeLine') :=
        transformDoxygenBlocks_body length inBlock codeLine in
      let (final, rest') := transformDoxygenBlocks_loop length inBlock' rest in
      (final, codeLine' :: rest')
  end.

Definition transformDoxygenBlocks (length : Z) (codeLines : list CodeLine)
    : list CodeLine :=
  snd (transformDoxygenBlocks_loop length false codeLines).

(** *** [CodeFile.identifyContinuations]

    One iteration: the state is [inConti] and the lines already visited,
    which are the lines that follow [codeLine] in the file. *)
Definition identifyContinuations_body (st : bool * list CodeLine)
    (codeLine : CodeLine) : bool * list CodeLine :=
  let (inConti, visited) := st in
  (* is it a code line and is it followed by continuation? *)
  let (codeLine, inConti) :=
    if hasCode codeLine && inConti
    then (set_isContinued true codeLine, false)
    else (codeLine, inConti) in
  (* check if line is continuation *)
  let inConti := if isContinuation codeLine then true else inConti in
  (inConti, codeLine :: visited).

(** The loop goes through [reversed(self.codeLines)]. *)
Definition identifyContinuations (codeLines : list CodeLine)
    : list CodeLine :=
  snd (fold_left identifyContinuations_body (rev codeLines) (false, [])).

(** [CodeFile.rebuild] *)
Definition CodeFile_rebuild (codeLines : list CodeLine) : str :=
  fold_left (fun output codeLine => output ++ rebuild codeLine) codeLines [].


(** ** Further methods *)

From Stdlib Require DecimalString.

(** [CodeFile.__init__], from the list [content] that [readlines()]
    returned: one unparsed [CodeLine] for each line. *)
Definition CodeFile_init (content : list str) (isFreeForm : bool)
    : list CodeLine :=
  map (fun line => CodeLine_init line isFreeForm) content.

(** [s.find(c)] for a one-character needle: the index of the first
    occurrence, and [None] for the result [-1]. *)
Fixpoint find_char (c : ascii) (x : str) : option nat :=
  match x with
  | [] => None
  | d :: r => if Ascii.eqb d c then Some 0 else option_map S (find_char c r)
  end.

(** What a method with a [while] loop comes to: it returns, it raises
    [ZeroDivisionError], or the iterations allowed are used up. *)
Inductive outcome (A : Type) : Type :=
| Done (a : A)
| ZeroDivisionError
| OutOfFuel.

Arguments ZeroDivisionError {A}.
Arguments OutOfFuel {A}.

(** [CodeLine.replaceTabs]: the loop on [self.line], with one unit of fuel
    for each iteration.  [%] is Python's, with the sign of the divisor, as
    [Z.modulo]; it raises for a divisor [0]. *)
Fixpoint replaceTabs_loop (fuel : nat) (tabLength : Z) (line : str)
    : outcome str :=
  (* As long as the line contains tabs, find the first one ... *)
  match find_char tab line with
  | None => Done line
  | Some tabPos =>
      match fuel with
      | O => OutOfFuel
      | S fuel =>
          (* ... and replace it with spaces. *)
          if (tabLength =? 0)%Z then ZeroDivisionError else
          let spaces :=
            str_mul (lit " ")
              (tabLength - Z.of_nat tabPos mod tabLength)%Z in
          replaceTabs_loop fuel tabLength
            (slice_to tabPos line ++ spaces ++ slice_from (tabPos + 1) line)
      end
  end.

Definition replaceTabs (fuel : nat) (tabLength : Z) (self : CodeLine)
    : outcome CodeLine :=
  match replaceTabs_loop fuel tabLength (line self) with
  | Done line => Done (set_line line self)
  | ZeroDivisionError => ZeroDivisionError
  | OutOfFuel => OutOfFuel
  end.

(** [str(n)] for an [int]: the decimal numeral, with [-] before a negative
    one. *)
Definition str_of_int (n : Z) : str :=
  lit (DecimalString.NilEmpty.string_of_int (Z.to_int n)).

(** [CodeFile.markLongLines] *)
Definition markLongLines (allowedLength : Z) (codeLines : list CodeLine)
    : list CodeLine :=
  map (fun codeLine =>
         if (getLength codeLine >? allowedLength)%Z
         then set_remarks
                (remarks codeLine
                 ++ [lit "Line above is longer than "
                     ++ str_of_int allowedLength ++ lit " characters."])
                codeLine
         else codeLine)
    codeLines.

(** *** [CodeLine.fixDeclarationsInCode] *)

Local Open Scope re_scope.

(** [ ^\breal\b \s? \* \s? (\d+) \b ] with the flag [(?i)].  The anchor
    [^] is the start of the text, where the pattern is tried. *)
Definition re_realKind : regex :=
  Wb ++ word_i (lit "real") ++ Wb ++ Opt (Chr is_space)
  ++ Chr (is_chr_i "*") ++ Opt (Chr is_space)
  ++ Grp 1 (plus is_digit) ++ Wb.

Local Close Scope re_scope.

(** [re.match] with the text that matched as group 0. *)
Definition re_match0 (r : regex) (s : str) : option captures :=
  rmatch r None s []
    (fun _ s' cs => Some ((0, firstn (len s - len s') s) :: cs)).

(** [re.sub(r, repl, s)] for a pattern [r] that begins with [^] and takes
    one character at least: without the flag MULTILINE only a match at the
    start of the text is found, it is replaced by the expansion [repl] of
    the template, and what follows the match is kept. *)
Definition re_sub_start (r : regex) (repl : captures -> str) (s : str)
    : str :=
  match re_match0 r s with
  | Some m => repl m ++ slice_from (len (group m 0)) s
  | None => s
  end.

Definition fixDeclarationsInCode (self : CodeLine) : CodeLine :=
  (* 'real*8' to 'real(RK)' *)
  set_code
    (re_sub_start re_realKind
       (fun m => lit "real(" ++ group m 1 ++ lit ")") (code self))
    self.
(** * Vocabulary of the properties *)

(** ** Indentation *)

(** The value of [curIndent] when the loop reaches line [i]: the loop run
    over the lines before it. *)
Definition depthBefore (indent : str) (contiIndent : Z)
    (codeLines : list CodeLine) (i : nat) : Z :=
  fst (fixIndentation_loop indent contiIndent 0%Z (firstn i codeLines)).

(** The value of [curIndent] that is passed to [setIndentation] for a
    line. *)
Definition depthUsed (curIndent : Z) (codeLine : CodeLine) : Z :=
  fst (fixIndentation_enter curIndent codeLine).

(** ** Comment blocks *)

(** The test of the loop for a separator line. *)
Definition isSeparator (codeLine : CodeLine) : bool :=
  count_char "c" (comment codeLine) =? 70.

(** The claim as the specification words it: some marker character [m] and
    count [n] exist such that a line toggles the state exactly when its
    comment is [m] repeated [n] times. *)
Definition separator_is_a_run : Prop :=
  exists (m : ascii) (n : nat),
    forall (length : Z) (inBlock : bool) (codeLine : CodeLine),
      fst (transformDoxygenBlocks_body length inBlock codeLine) = negb inBlock
      <-> comment codeLine = repeat m n.

(** ** Continuations *)

(** The value of [inConti] when the loop has visited the lines [following]
    a line: some line among them is a continuation and no line before it
    has code. *)
Fixpoint pending (following : list CodeLine) : bool :=
  match following with
  | [] => false
  | x :: rest => isContinuation x || (negb (hasCode x) && pending rest)
  end.

(** The lines as the loop leaves them. *)
Fixpoint marked (codeLines : list CodeLine) : list CodeLine :=
  match codeLines with
  | [] => []
  | x :: rest =>
      (if hasCode x && pending rest then set_isContinued true x else x)
      :: marked rest
  end.

(** A line after line [i] is a continuation and no line strictly between
    the two has code. *)
Definition continuation_follows (lines : list CodeLine) (i : nat) : Prop :=
  exists j cj,
    i < j /\ nth_error lines j = Some cj /\ isContinuation cj = true
    /\ forall k ck, i < k < j -> nth_error lines k = Some ck ->
                    hasCode ck = false.

(** The nearest line with code after line [i] exists and is a
    continuation. *)
Definition next_code_is_continuation (lines : list CodeLine) (i : nat)
    : Prop :=
  exists j cj,
    i < j /\ nth_error lines j = Some cj
    /\ hasCode cj = true /\ isContinuation cj = true
    /\ forall k ck, i < k < j -> nth_error lines k = Some ck ->
                    hasCode ck = false.


(** The claim of the specification, read on the lines the pass returns:
    [isContinued] holds exactly when a continuation follows with no code
    between and the nearest following line with code is a continuation. *)
Definition continuation_symmetry (lines : list CodeLine) : Prop :=
  forall i ci,
    nth_error lines i = Some ci ->
    (isContinued ci = true <->
     continuation_follows lines i /\ next_code_is_continuation lines i).

(** ** Parsed lines *)

(** The record of a line of a file: [CodeLine(line, isFreeForm)] followed
    by [parseLine()]. *)
Definition parsed (l : string) (free : bool) : CodeLine :=
  match parseLine (CodeLine_init (lit l) free) with
  | Some self => self
  | None => CodeLine_init (lit l) free
  end.

(** Three lines in fixed layout: a statement, a comment line and the
    continuation of the statement. *)
Definition continued_statement : list CodeLine :=
  [parsed "      X = 1" false; parsed "C note" false;
   parsed "     &  + 2" false].

(** ** Lines of text *)

(** The text holds no newline. *)
Definition no_nl (x : str) : bool := forallb is_dot x.

(** A line as [readlines()] returns it: no newline but, possibly, its last
    character. *)
Definition single_line (l : str) : bool := no_nl (removelast l).

(** [str.rstrip()] *)
Definition rstrip (x : str) : str := rev (lstrip (rev x)).

(** The number of whitespace characters a text begins with. *)
Definition lead (x : str) : nat := len x - len (lstrip x).

Definition starts_with_digit (x : str) : bool :=
  match x with
  | c :: _ => is_digit c
  | [] => false
  end.

(** The text begins with at most four whitespace characters and a digit:
    a statement label in the label columns. *)
Definition label_at_start (x : str) : bool :=
  (lead x <=? 4) && starts_with_digit (lstrip x).

(** A statement label that does not stand in the first column. *)
Definition indented_label (x : str) : bool :=
  (1 <=? lead x) && label_at_start x.

(** [x[i] in cs], false when [x] is too short. *)
Definition char_at_in (x : str) (i : nat) (cs : list ascii) : bool :=
  match index x i with
  | Some c => char_in c cs
  | None => false
  end.

(** ** The repetition operators *)

(** The character before the position once the text [a] is consumed. *)
Definition lastc (pv : option ascii) (a : str) : option ascii :=
  fold_left (fun _ c => Some c) a pv.

(** The upper bound of a repetition. *)
Definition within (hi : option nat) (n : nat) : Prop :=
  match hi with
  | Some h => n <= h
  | None => True
  end.

(** The last character of the text, if any, is no whitespace. *)
Definition ends_nonspace (x : str) : Prop :=
  forall x0 c, x = x0 ++ [c] -> is_space c = false.

(** ** The claims of the specification on [parseLine], as they are worded *)

(** Decomposing any line in either layout and rebuilding it at once gives
    the line back. *)
Definition roundtrip_claim : Prop :=
  forall (l : str) (free : bool) (self : CodeLine),
    parseLine (CodeLine_init l free) = Some self ->
    buildFullLine self = l.

(** A line in fixed layout of six characters or more, the first no tab,
    the sixth neither blank nor [0], is a continuation line and its first
    six characters are the continuation marker. *)
Definition fixedCont_claim : Prop :=
  forall (l : str) (self : CodeLine),
    6 <= len l ->
    char_at_in l 0 [tab] = false ->
    char_at_in l 5 [" "%char; "0"%char] = false ->
    parseLine (CodeLine_init l false) = Some self ->
    isContinuation self = true /\ fixedCont self = slice_to 6 l.

(** ** Regions of a parsed line *)

(** The first character of the text, if any, is no whitespace. *)
Definition starts_nonspace (x : str) : Prop :=
  forall c r, x = c :: r -> is_space c = false.

(** The text holds no [!]. *)
Definition no_bang (x : str) : bool :=
  forallb (fun c => negb (Ascii.eqb c "!")) x.

(** The record that the second half of [parseLine] leaves, given the six
    regions it cuts the rest of the line into. *)
Definition rest_result (X : CodeLine) (ls fl fc cd ms cm : str) : CodeLine :=
  {| isFreeForm := isFreeForm X; remarks := remarks X; line := [];
     origCodeLength := Z.of_nat (len cd);
     preProc := preProc X; leftSpace := ls; code := cd; midSpace := ms;
     comment := cm; rightSpace := rightSpace X;
     fixedComment := fixedComment X; fixedLabel := fixedLabel X;
     fixedCont := fixedCont X;
     freeLabel := fl; freeContBeg := fc; freeContEnd := freeContEnd X;
     isContinued := isContinued X;
     isContinuation := isContinuation X || nonempty fc |}.

(** What [parseLine] guarantees of the six regions. *)
Definition regions_ok (free : bool) (ls fl fc cd ms cm : str) : Prop :=
  forallb is_space ls = true
  /\ forallb is_space ms = true
  /\ (cm = [] \/ exists c, cm = "!"%char :: c)
  /\ (cm = [] -> ms = [])
  /\ no_bang cd = true
  /\ starts_nonspace cd
  /\ (free = false -> fl = [] /\ fc = [])
  /\ (fl = [] \/ exists d w, fl = d ++ w /\ forallb is_digit d = true
                            /\ 1 <= len d /\ forallb is_space w = true
                            /\ 1 <= len w)
  /\ (fc = [] \/ exists w, fc = "&"%char :: w /\ forallb is_space w = true).

(** The text of the regions before the trailing whitespace. *)
Definition visible (self : CodeLine) : str :=
  preProc self ++ fixedComment self ++ fixedLabel self ++ fixedCont self
  ++ leftSpace self ++ freeLabel self ++ freeContBeg self ++ code self
  ++ freeContEnd self ++ midSpace self ++ comment self.

(** ** Tabs *)

(** The text [x], which starts in column [col], with every tab replaced in
    one pass from left to right. *)
Fixpoint expandTabs (tabLength : Z) (col : nat) (x : str) : str :=
  match x with
  | [] => []
  | c :: r =>
      if Ascii.eqb c tab then
        let spaces :=
          str_mul (lit " ") (tabLength - Z.of_nat col mod tabLength)%Z in
        spaces ++ expandTabs tabLength (col + len spaces) r
      else c :: expandTabs tabLength (S col) r
  end.

(** The text without its tabs. *)
Definition without_tabs (x : str) : str :=
  filter (fun c => negb (Ascii.eqb c tab)) x.

(** The text without its blanks and tabs. *)
Definition solid (x : str) : str :=
  filter (fun c => negb (Ascii.eqb c tab || Ascii.eqb c " ")) x.

(** ** Frames *)

(** A line but for its leading whitespace and its remarks. *)
Definition but_indent (x : CodeLine) : CodeLine :=
  set_leftSpace [] (set_remarks [] x).

(** The value of [inBlock] when the loop of [transformDoxygenBlocks]
    reaches line [i]. *)
Definition inBlockBefore (length : Z) (codeLines : list CodeLine) (i : nat)
    : bool :=
  fst (transformDoxygenBlocks_loop length false (firstn i codeLines)).

(** The line that [rebuild] writes under a line longer than
    [allowedLength]. *)
Definition longLineRemark (allowedLength : Z) : str :=
  lit "! TODO: Line above is longer than " ++ str_of_int allowedLength
  ++ lit " characters." ++ [nl].

(** ** Upper and lower case *)

(** Two texts that differ in the case of the letters [A] to [Z] only. *)
Definition same_text (x y : str) : Prop :=
  Forall2 (fun c d => lower c = lower d) x y.

(** The characters before two positions, likewise. *)
Definition same_before (pv pv' : option ascii) : Prop :=
  match pv, pv' with
  | Some c, Some d => lower c = lower d
  | None, None => True
  | _, _ => False
  end.

(** A character class that does not tell a letter from the same letter in
    the other case. *)
Definition caseless (p : ascii -> bool) : Prop :=
  forall c, p (lower c) = p c.

(** A pattern all of whose character classes are of that kind, as under
    the flag [(?i)]. *)
Fixpoint caseless_regex (r : regex) : Prop :=
  match r with
  | Chr p => caseless p
  | Rep p _ _ _ => caseless p
  | Cat r1 r2 => caseless_regex r1 /\ caseless_regex r2
  | Alt r1 r2 => caseless_regex r1 /\ caseless_regex r2
  | Opt r1 => caseless_regex r1
  | Grp _ r1 => caseless_regex r1
  | Eps => True
  | Eol => True
  | Wb => True
  end.

Definition is_some (A : Type) (x : option A) : bool :=
  match x with Some _ => true | None => false end.

(** Two continuations that succeed together on texts that differ in case
    only. *)
Definition same_kont (k k' : kont) : Prop :=
  forall pv pv' s s' cs cs',
    same_before pv pv' -> same_text s s' ->
    is_some (k pv s cs) = is_some (k' pv' s' cs').

(** ** Keywords *)

(** The text begins with the word [kw] in either case: what follows it. *)
Fixpoint begins_with_i (kw : str) (x : str) : option str :=
  match kw, x with
  | [], _ => Some x
  | a :: kw', c :: x' => if is_chr_i a c then begins_with_i kw' x' else None
  | _ :: _, [] => None
  end.

(** The text begins with the keyword [kw] in either case, and the keyword
    ends there: no word character, [\w], follows it. *)
Definition keyword_at_start (kw : string) (x : str) : bool :=
  match begins_with_i (lit kw) x with
  | Some rest => negb (word_after rest)
  | None => false
  end.

(** The keywords that close a block for [decreasesIndentBefore]. *)
Definition closing_keywords : list string :=
  ["endif"; "enddo"; "endwhere"; "end"; "elseif"; "else"]%string.

(** ** Declarations *)

(** The digits a text begins with, and what follows them. *)
Fixpoint span_digits (x : str) : str * str :=
  match x with
  | c :: r =>
      if is_digit c
      then let (d, rest) := span_digits r in (c :: d, rest)
      else ([], x)
  | [] => ([], [])
  end.

(** The text less one whitespace character at its start, if there is
    one. *)
Definition skip_space (x : str) : str :=
  match x with
  | c :: r => if is_space c then r else x
  | [] => []
  end.

(** The text begins with [real], in either case, one whitespace character
    at most, [*], one whitespace character at most, and a number that ends
    there: the number and what follows it. *)
Definition real_kind (x : str) : option (str * str) :=
  match begins_with_i (lit "real") x with
  | Some r1 =>
      match skip_space r1 with
      | c :: r3 =>
          if Ascii.eqb c "*" then
            let (d, rest) := span_digits (skip_space r3) in
            if nonempty d && negb (word_after rest)
            then Some (d, rest) else None
          else None
      | [] => None
      end
  | None => None
  end.

(** ** Ampersands of the free layout *)

(** The nearest line with code after line [i] exists and begins with the
    ampersand of a continuation. *)
Definition next_code_continues (lines : list CodeLine) (i : nat) : Prop :=
  exists j cj,
    i < j /\ nth_error lines j = Some cj
    /\ hasCode cj = true /\ freeContBeg cj = lit "&"
    /\ forall k ck, i < k < j -> nth_error lines k = Some ck ->
                    hasCode ck = false.

(** The passes from the fixed layout to the free one, on parsed lines. *)
Definition fixed_to_free (codeLines : list CodeLine) : list CodeLine :=
  map convertFixedToFree
    (identifyContinuations (map verifyContinuation codeLines)).

(** Keywords that open a block for [increasesIndentAfter] wherever they
    begin the code of a line. *)
Definition opening_keywords : list string :=
  ["subroutine"; "module"; "interface"; "function"]%string.

(** ** The steps of [parseLine]

    The statements of the method, one definition for each: a step whose
    pattern or test fails returns the record as it is. *)

(** Trailing whitespace. *)
Definition step_rightSpace (self : CodeLine) : CodeLine :=
  match re_match re_rightSpace (line self) with
  | Some m => set_line (group m 1) (set_rightSpace (group m 2) self)
  | None => self
  end.

(** The three [return] statements of the first half: an empty line, a
    preprocessor line and, in the fixed layout, a comment line. *)
Definition returns_early (self : CodeLine) : option CodeLine :=
  if len (line self) =? 0 then Some self
  else if char_at_in (line self) 0 ["#"%char]
  then Some (set_preProc (line self) self)
  else if negb (isFreeForm self)
          && char_at_in (line self) 0 ["c"; "C"; "*"; "!"]%char
  then Some (set_fixedComment (line self) self)
  else None.

(** The test of the [elif] for a continuation line of the fixed layout. *)
Definition fixedCont_test (x : str) : bool :=
  (5 <? len x) && negb (char_at_in x 0 [tab])
  && negb (char_at_in x 5 [" "; "0"]%char).

(** Label and continuation marker of the fixed layout: the marker is
    looked for only when there is no label. *)
Definition step_fixed (self : CodeLine) : CodeLine :=
  match re_match re_fixedLabel (line self) with
  | Some m => set_line (group m 2) (set_fixedLabel (group m 1) self)
  | None =>
      if fixedCont_test (line self)
      then set_line (slice_from 6 (line self))
             (set_isContinuation true
                (set_fixedCont (slice_to 6 (line self)) self))
      else self
  end.

(** Leading whitespace. *)
Definition step_leftSpace (self : CodeLine) : CodeLine :=
  match re_match re_leftSpace (line self) with
  | Some m => set_line (group m 2) (set_leftSpace (group m 1) self)
  | None => self
  end.

(** Comment and the whitespace before it. *)
Definition step_comment (self : CodeLine) : CodeLine :=
  match re_match re_comment (line self) with
  | Some m =>
      set_line (group m 1)
        (set_comment (group m 3) (set_midSpace (group m 2) self))
  | None => self
  end.

(** Label of the free layout. *)
Definition step_freeLabel (self : CodeLine) : CodeLine :=
  match re_match re_freeLabel (line self) with
  | Some m => set_line (group m 2) (set_freeLabel (group m 1) self)
  | None => self
  end.

(** Leading ampersand of the free layout. *)
Definition step_freeCont (self : CodeLine) : CodeLine :=
  match re_match re_freeCont (line self) with
  | Some m =>
      set_line (group m 2)
        (set_isContinuation true (set_freeContBeg (group m 1) self))
  | None => self
  end.

(** What is left is the code. *)
Definition step_finish (self : CodeLine) : CodeLine :=
  let self := set_code (line self) self in
  let self := set_line [] self in
  set_origCodeLength (Z.of_nat (len (code self))) self.

(** The method as the sequence of its steps. *)
Definition parseLine_steps (self : CodeLine) : CodeLine :=
  let r1 := step_rightSpace self in
  match returns_early r1 with
  | Some r => r
  | None =>
      let r2 := if isFreeForm r1 then r1 else step_fixed r1 in
      let r4 := step_comment (step_leftSpace r2) in
      let r6 :=
        if isFreeForm r4 then step_freeCont (step_freeLabel r4) else r4 in
      step_finish r6
  end.
(** * Properties *)

(** ** Strings and repetition *)

Lemma len_app (x y : str) : len (x ++ y) = len x + len y.
Proof. unfold len. apply length_app. Qed.

Lemma nonempty_true (x : str) : nonempty x = true <-> x <> [].
Proof.
  unfold nonempty, len. destruct x; simpl; split; intro H;
    try discriminate; try reflexivity; now try elim H.
Qed.

Lemma nonempty_false (x : str) : nonempty x = false <-> x = [].
Proof.
  unfold nonempty, len. destruct x; simpl; split; intro H;
    try discriminate; reflexivity.
Qed.

Lemma hasCode_true (self : CodeLine) : hasCode self = true <-> code self <> [].
Proof.
  unfold hasCode. rewrite <- nonempty_true.
  destruct (nonempty (code self)); tauto.
Qed.

Lemma hasCode_false (self : CodeLine) : hasCode self = false <-> code self = [].
Proof.
  unfold hasCode. rewrite <- nonempty_false.
  destruct (nonempty (code self)); tauto.
Qed.

(** A one-character string repeated [n] times has [n] characters, none
    when [n] is negative. *)
Lemma len_str_mul_char (c : ascii) (n : Z) :
  len (str_mul [c] n) = Z.to_nat n.
Proof.
  unfold str_mul, len. induction (Z.to_nat n) as [|m IH]; simpl.
  - reflexivity.
  - now rewrite IH.
Qed.

Lemma str_mul_char (c : ascii) (n : Z) :
  str_mul [c] n = repeat c (Z.to_nat n).
Proof.
  unfold str_mul. induction (Z.to_nat n) as [|m IH]; simpl.
  - reflexivity.
  - now rewrite IH.
Qed.

(** ** [verifyContinuation] *)

(** C10. [verifyContinuation] clears [isContinuation] on a line whose code
    region is empty and leaves every other line as it is; afterwards a line
    whose [isContinuation] is true has a non-empty code region. *)
Theorem verifyContinuation_spec (self : CodeLine) :
  (code self = [] -> isContinuation (verifyContinuation self) = false)
  /\ (code self <> [] -> verifyContinuation self = self)
  /\ (isContinuation (verifyContinuation self) = true ->
      code (verifyContinuation self) <> [])
  /\ code (verifyContinuation self) = code self.
Proof.
  unfold verifyContinuation.
  destruct (hasCode self) eqn:Hc; simpl.
  - apply hasCode_true in Hc. repeat split; try tauto.
  - apply hasCode_false in Hc. repeat split; try tauto; try discriminate.
Qed.

(** ** [convertFixedToFree] *)

Ltac split_ifs :=
  repeat match goal with
         | |- context [if ?b then _ else _] => destruct b
         end.

Lemma convertFixedToFree_isFreeForm (self : CodeLine) :
  isFreeForm (convertFixedToFree self) = true.
Proof.
  unfold convertFixedToFree.
  destruct (isFreeForm self) eqn:Hf; [exact Hf|].
  destruct self; simpl. split_ifs; reflexivity.
Qed.

Lemma convertFixedToFree_free (self : CodeLine) :
  isFreeForm self = true -> convertFixedToFree self = self.
Proof. intro H. unfold convertFixedToFree. now rewrite H. Qed.

(** C5. [convertFixedToFree] changes nothing on a line in free layout; on
    any line it leaves the layout free, so a second application changes
    nothing more. *)
Theorem convertFixedToFree_idempotent (self : CodeLine) :
  (isFreeForm self = true -> convertFixedToFree self = self)
  /\ isFreeForm (convertFixedToFree self) = true
  /\ convertFixedToFree (convertFixedToFree self) = convertFixedToFree self.
Proof.
  split; [apply convertFixedToFree_free|].
  split; [apply convertFixedToFree_isFreeForm|].
  apply convertFixedToFree_free, convertFixedToFree_isFreeForm.
Qed.

(** ** [swallowLengthChange] *)

(** C6. On a line with code and a trailing comment whose code region is
    longer than at parse time, [swallowLengthChange] makes the space between
    code and comment [max(1, len(midSpace) - lengthChange)] blanks: at least
    one, and nothing else of the line changes. *)
Theorem swallowLengthChange_grown (self : CodeLine) :
  code self <> [] ->
  comment self <> [] ->
  (origCodeLength self < Z.of_nat (len (code self)))%Z ->
  let lengthChange := (Z.of_nat (len (code self)) - origCodeLength self)%Z in
  let n := Z.max 1 (Z.of_nat (len (midSpace self)) - lengthChange) in
  midSpace (swallowLengthChange self) = repeat " "%char (Z.to_nat n)
  /\ (1 <= n)%Z
  /\ 1 <= len (midSpace (swallowLengthChange self))
  /\ swallowLengthChange self
     = set_midSpace (midSpace (swallowLengthChange self)) self.
Proof.
  intros Hcode Hcomment Hgrow lengthChange n.
  unfold swallowLengthChange.
  apply nonempty_true in Hcomment. apply hasCode_true in Hcode.
  rewrite Hcomment, Hcode. simpl.
  fold lengthChange.
  destruct (Z.eqb_spec lengthChange 0) as [E|_];
    [unfold lengthChange in E; lia|].
  fold n. simpl. unfold lit. simpl.
  rewrite str_mul_char.
  repeat split.
  - lia.
  - unfold len. rewrite repeat_length. lia.
Qed.

(** The scenario of the specification: the code grew by three characters,
    two blanks stood before the comment, one blank remains. *)
Lemma swallowLengthChange_grown_witness :
  midSpace
    (swallowLengthChange
       (set_origCodeLength 5
          (set_code (lit "end if x") (set_midSpace (lit "  ")
             (set_comment (lit "! c") (CodeLine_init [] true))))))
  = lit " ".
Proof.
  set (self := set_origCodeLength 5 _).
  assert (Hcode : code self <> []) by (vm_compute; discriminate).
  assert (Hcomment : comment self <> []) by (vm_compute; discriminate).
  assert (Hgrow : (origCodeLength self < Z.of_nat (len (code self)))%Z)
    by (vm_compute; reflexivity).
  destruct (swallowLengthChange_grown self Hcode Hcomment Hgrow) as [H _].
  rewrite H. reflexivity.
Defined.

(** ** [fixIndentation] *)

Section Indentation.

Variable indent : str.
Variable contiIndent : Z.

Lemma fixIndentation_enter_nonneg (cur : Z) (codeLine : CodeLine) :
  (0 <= fst (fixIndentation_enter cur codeLine))%Z.
Proof.
  unfold fixIndentation_enter.
  destruct (decreasesIndentBefore codeLine);
    match goal with
    | |- context [(?x <? 0)%Z] => destruct (Z.ltb_spec x 0)
    end; simpl; lia.
Qed.

Lemma fixIndentation_enter_regions (cur : Z) (codeLine : CodeLine) :
  let codeLine' := snd (fixIndentation_enter cur codeLine) in
  code codeLine' = code codeLine /\ comment codeLine' = comment codeLine
  /\ isContinuation codeLine' = isContinuation codeLine.
Proof.
  unfold fixIndentation_enter.
  destruct (decreasesIndentBefore codeLine);
    match goal with
    | |- context [(?x <? 0)%Z] => destruct (Z.ltb_spec x 0)
    end; simpl; auto.
Qed.

Lemma fixIndentation_body_nonneg (cur : Z) (codeLine : CodeLine) :
  (0 <= fst (fixIndentation_body indent contiIndent cur codeLine))%Z.
Proof.
  unfold fixIndentation_body.
  pose proof (fixIndentation_enter_nonneg cur codeLine) as H.
  destruct (fixIndentation_enter cur codeLine) as [d cl]. simpl in H.
  split_ifs; simpl; lia.
Qed.

Lemma fixIndentation_loop_nonneg (codeLines : list CodeLine) :
  forall cur, (0 <= cur)%Z ->
  (0 <= fst (fixIndentation_loop indent contiIndent cur codeLines))%Z.
Proof.
  induction codeLines as [|cl rest IH]; intros cur Hcur; simpl.
  - exact Hcur.
  - pose proof (fixIndentation_body_nonneg cur cl) as Hb.
    destruct (fixIndentation_body indent contiIndent cur cl) as [cur' cl'].
    specialize (IH cur' Hb).
    destruct (fixIndentation_loop indent contiIndent cur' rest). exact IH.
Qed.

Lemma depthBefore_nonneg (codeLines : list CodeLine) (i : nat) :
  (0 <= depthBefore indent contiIndent codeLines i)%Z.
Proof. apply fixIndentation_loop_nonneg. lia. Qed.

(** Line [i] of the result is the body of the loop applied to line [i]
    with the depth the loop has reached there. *)
Lemma fixIndentation_loop_nth (codeLines : list CodeLine) :
  forall cur i codeLine,
  nth_error codeLines i = Some codeLine ->
  nth_error (snd (fixIndentation_loop indent contiIndent cur codeLines)) i
  = Some (snd (fixIndentation_body indent contiIndent
                 (fst (fixIndentation_loop indent contiIndent cur
                         (firstn i codeLines)))
                 codeLine)).
Proof.
  induction codeLines as [|cl rest IH]; intros cur i codeLine Hi.
  - destruct i; discriminate.
  - destruct i as [|i]; simpl in *.
    + injection Hi as ->.
      destruct (fixIndentation_body indent contiIndent cur codeLine)
        as [cur' cl'].
      destruct (fixIndentation_loop indent contiIndent cur' rest).
      reflexivity.
    + destruct (fixIndentation_body indent contiIndent cur cl)
        as [cur' cl'].
      specialize (IH cur' i codeLine Hi).
      destruct (fixIndentation_loop indent contiIndent cur' rest)
        as [f rest'].
      destruct (fixIndentation_loop indent contiIndent cur'
                  (firstn i rest)) as [f2 r2].
      simpl in *. exact IH.
Qed.

Lemma fixIndentation_nth (codeLines : list CodeLine) (i : nat)
    (codeLine : CodeLine) :
  nth_error codeLines i = Some codeLine ->
  nth_error (fixIndentation indent contiIndent codeLines) i
  = Some (snd (fixIndentation_body indent contiIndent
                 (depthBefore indent contiIndent codeLines i) codeLine)).
Proof. apply fixIndentation_loop_nth. Qed.

Lemma fixIndentation_body_remarks (cur : Z) (codeLine : CodeLine) :
  remarks (snd (fixIndentation_body indent contiIndent cur codeLine))
  = remarks (snd (fixIndentation_enter cur codeLine)).
Proof.
  unfold fixIndentation_body.
  destruct (fixIndentation_enter cur codeLine) as [d cl]. simpl.
  unfold setIndentation. split_ifs; reflexivity.
Qed.

Lemma fixIndentation_body_leftSpace (cur : Z) (codeLine : CodeLine) :
  leftSpace (snd (fixIndentation_body indent contiIndent cur codeLine))
  = if hasCode codeLine || nonempty (comment codeLine)
    then str_mul indent
           (depthUsed cur codeLine
            + (if isContinuation codeLine then contiIndent else 0))%Z
    else [].
Proof.
  unfold fixIndentation_body, depthUsed.
  pose proof (fixIndentation_enter_regions cur codeLine) as (Hc & Hm & Hi).
  destruct (fixIndentation_enter cur codeLine) as [d cl]. simpl in *.
  unfold setIndentation, hasCode. rewrite Hc, Hm, Hi.
  destruct (if nonempty (code codeLine) then true else false);
    destruct (nonempty (comment codeLine)); simpl;
    split_ifs; reflexivity.
Qed.

(** C3. In [fixIndentation] the depth is never negative when a line is
    reached nor when its indentation is written.  A line that closes a
    block at depth 0 (the underflow) gets exactly one remark more and is
    indented at depth 0; every other line keeps its remarks. *)
Theorem fixIndentation_depth_nonneg (codeLines : list CodeLine) (i : nat)
    (codeLine : CodeLine) :
  nth_error codeLines i = Some codeLine ->
  let cur := depthBefore indent contiIndent codeLines i in
  (0 <= cur)%Z
  /\ (0 <= depthUsed cur codeLine)%Z
  /\ exists codeLine',
       nth_error (fixIndentation indent contiIndent codeLines) i
       = Some codeLine'
       /\ if decreasesIndentBefore codeLine && (cur =? 0)%Z
          then remarks codeLine'
               = remarks codeLine ++ [negativeIndentation]
               /\ depthUsed cur codeLine = 0%Z
          else remarks codeLine' = remarks codeLine.
Proof.
  intros Hi cur.
  pose proof (depthBefore_nonneg codeLines i) as Hcur. fold cur in Hcur.
  split; [exact Hcur|].
  split; [apply fixIndentation_enter_nonneg|].
  eexists. split; [apply fixIndentation_nth; exact Hi|].
  fold cur. rewrite fixIndentation_body_remarks.
  unfold depthUsed, fixIndentation_enter.
  destruct (decreasesIndentBefore codeLine); simpl.
  - destruct (Z.eqb_spec cur 0) as [E|E].
    + rewrite E. simpl. auto.
    + destruct (Z.ltb_spec (cur - 1) 0); [lia|reflexivity].
  - destruct (Z.ltb_spec cur 0); [lia|reflexivity].
Qed.

(** C9. Line [i] leaves [fixIndentation] with [indent] repeated
    [depth + extra] times as its leading whitespace, where [depth] is the
    depth at that line and [extra] is [contiIndent] on a continuation line
    and 0 on any other, and with no leading whitespace when it has neither
    code nor comment. *)
Theorem fixIndentation_leftSpace (codeLines : list CodeLine) (i : nat)
    (codeLine : CodeLine) :
  nth_error codeLines i = Some codeLine ->
  let depth :=
    depthUsed (depthBefore indent contiIndent codeLines i) codeLine in
  let extra := if isContinuation codeLine then contiIndent else 0%Z in
  exists codeLine',
    nth_error (fixIndentation indent contiIndent codeLines) i
    = Some codeLine'
    /\ leftSpace codeLine'
       = if hasCode codeLine || nonempty (comment codeLine)
         then List.concat (repeat indent (Z.to_nat (depth + extra)))
         else [].
Proof.
  intros Hi depth extra.
  eexists. split; [apply fixIndentation_nth; exact Hi|].
  apply fixIndentation_body_leftSpace.
Qed.

End Indentation.

(** A file of one line, [end], in free layout: the loop meets a closing
    keyword at depth 0. *)
Lemma fixIndentation_depth_nonneg_witness :
  exists codeLine',
    nth_error
      (fixIndentation (lit "  ") 2
         [set_code (lit "end") (CodeLine_init [] true)]) 0
    = Some codeLine'
    /\ remarks codeLine' = [negativeIndentation].
Proof.
  destruct (@fixIndentation_depth_nonneg (lit "  ") 2%Z
              [set_code (lit "end") (CodeLine_init [] true)] 0
              (set_code (lit "end") (CodeLine_init [] true)) eq_refl)
    as (_ & _ & cl & Hnth & Hrem).
  exists cl. split; [exact Hnth|].
  vm_compute in Hrem. destruct Hrem as [Hrem _]. exact Hrem.
Defined.

(** A continuation line under an [if ... then], with a unit of two blanks
    and a continuation extra of 2: three units. *)
Lemma fixIndentation_leftSpace_witness :
  exists codeLine',
    nth_error
      (fixIndentation (lit "  ") 2
         [set_code (lit "if (x) then") (CodeLine_init [] true);
          set_isContinuation true
            (set_code (lit "y = 1") (CodeLine_init [] true))]) 1
    = Some codeLine'
    /\ leftSpace codeLine' = lit "      ".
Proof.
  destruct (@fixIndentation_leftSpace (lit "  ") 2%Z
              [set_code (lit "if (x) then") (CodeLine_init [] true);
               set_isContinuation true
                 (set_code (lit "y = 1") (CodeLine_init [] true))] 1
              (set_isContinuation true
                 (set_code (lit "y = 1") (CodeLine_init [] true))) eq_refl)
    as (cl & Hnth & Hleft).
  exists cl. split; [exact Hnth|].
  vm_compute in Hleft. exact Hleft.
Defined.

(** ** [transformDoxygenBlocks] *)

Lemma transformDoxygenBlocks_body_state (length : Z) (inBlock : bool)
    (codeLine : CodeLine) :
  fst (transformDoxygenBlocks_body length inBlock codeLine)
  = xorb inBlock (isSeparator codeLine).
Proof.
  unfold transformDoxygenBlocks_body, isSeparator.
  destruct (count_char "c" (comment codeLine) =? 70); simpl.
  - now destruct inBlock.
  - now destruct inBlock.
Qed.

(** The state after the whole file is the parity of its separator lines. *)
Lemma transformDoxygenBlocks_loop_state (length : Z)
    (codeLines : list CodeLine) :
  forall inBlock,
  fst (transformDoxygenBlocks_loop length inBlock codeLines)
  = xorb inBlock
      (Nat.odd (List.length (filter isSeparator codeLines))).
Proof.
  induction codeLines as [|cl rest IH]; intro inBlock; simpl.
  - now destruct inBlock.
  - pose proof (transformDoxygenBlocks_body_state length inBlock cl) as Hb.
    destruct (transformDoxygenBlocks_body length inBlock cl) as [b' cl'].
    simpl in Hb. specialize (IH b').
    destruct (transformDoxygenBlocks_loop length b' rest) as [f rest'].
    simpl in *. rewrite IH, Hb.
    destruct (isSeparator cl); simpl.
    + rewrite Nat.odd_succ, <- Nat.negb_odd.
      destruct inBlock, (Nat.odd (List.length (filter isSeparator rest)));
        reflexivity.
    + now rewrite xorb_false_r.
Qed.

(** C8 (as the code has it). A line toggles the state of
    [transformDoxygenBlocks] and gets the separator ["!" + "-" * (length - 1)]
    as its comment exactly when its comment holds 70 occurrences of the
    character [c], wherever they stand; any other line leaves the state as
    it is, and outside a block it is not changed at all. *)
Theorem transformDoxygenBlocks_toggle (length : Z) (inBlock : bool)
    (codeLine : CodeLine) :
  let st := transformDoxygenBlocks_body length inBlock codeLine in
  (fst st = negb inBlock <-> count_char "c" (comment codeLine) = 70)
  /\ (count_char "c" (comment codeLine) = 70 ->
      comment (snd st)
      = "!"%char :: repeat "-"%char (Z.to_nat (length - 1)))
  /\ (count_char "c" (comment codeLine) <> 70 ->
      fst st = inBlock /\ (inBlock = false -> snd st = codeLine)).
Proof.
  unfold transformDoxygenBlocks_body.
  destruct (Nat.eqb_spec (count_char "c" (comment codeLine)) 70) as [E|E];
    simpl.
  - repeat split; try tauto.
    intros _. unfold lit. simpl. now rewrite str_mul_char.
  - repeat split; try tauto.
    + destruct inBlock; simpl; intro H; discriminate.
    + now destruct inBlock.
    + intros ->. reflexivity.
Qed.

(** The comment of a converted separator line, [! ] before seventy [c], and
    the bare run of seventy [c] both toggle the state. *)
Lemma transformDoxygenBlocks_toggle_counterexample :
  fst (transformDoxygenBlocks_body 72 false
         (set_comment (lit "! " ++ repeat "c"%char 70)
            (CodeLine_init [] true))) = true
  /\ fst (transformDoxygenBlocks_body 72 false
            (set_comment (repeat "c"%char 70) (CodeLine_init [] true))) = true
  /\ ~ separator_is_a_run.
Proof.
  split; [reflexivity|]. split; [reflexivity|].
  intros (m & n & H).
  pose proof (proj1 (H 72%Z false
                       (set_comment (lit "! " ++ repeat "c"%char 70)
                          (CodeLine_init [] true))) eq_refl) as H1.
  pose proof (proj1 (H 72%Z false
                       (set_comment (repeat "c"%char 70)
                          (CodeLine_init [] true))) eq_refl) as H2.
  apply (f_equal (@List.length ascii)) in H1, H2.
  rewrite repeat_length in H1, H2.
  vm_compute in H1, H2. congruence.
Qed.

(** ** [identifyContinuations] *)

Lemma identifyContinuations_fold (codeLines : list CodeLine) :
  fold_left identifyContinuations_body (rev codeLines) (false, [])
  = (pending codeLines, marked codeLines).
Proof.
  induction codeLines as [|x rest IH]; simpl.
  - reflexivity.
  - rewrite fold_left_app, IH. simpl.
    destruct (hasCode x), (pending rest), (isContinuation x) eqn:E; simpl;
      rewrite ?E; reflexivity.
Qed.

Lemma identifyContinuations_marked (codeLines : list CodeLine) :
  identifyContinuations codeLines = marked codeLines.
Proof.
  unfold identifyContinuations. now rewrite identifyContinuations_fold.
Qed.

Lemma marked_length (codeLines : list CodeLine) :
  List.length (marked codeLines) = List.length codeLines.
Proof. induction codeLines; simpl; congruence. Qed.

Lemma marked_buildFullLine (codeLines : list CodeLine) :
  map buildFullLine (marked codeLines) = map buildFullLine codeLines.
Proof.
  induction codeLines as [|x rest IH]; simpl; [reflexivity|].
  rewrite IH. f_equal. now destruct (hasCode x && pending rest).
Qed.

Lemma marked_skipn (codeLines : list CodeLine) :
  forall n, skipn n (marked codeLines) = marked (skipn n codeLines).
Proof.
  induction codeLines as [|x rest IH]; intros [|n]; simpl; auto.
Qed.

Lemma pending_marked (codeLines : list CodeLine) :
  pending (marked codeLines) = pending codeLines.
Proof.
  induction codeLines as [|x rest IH]; simpl; [reflexivity|].
  rewrite IH. now destruct (hasCode x && pending rest).
Qed.

Lemma marked_nth (codeLines : list CodeLine) :
  forall i ci,
  nth_error (marked codeLines) i = Some ci ->
  exists x,
    nth_error codeLines i = Some x
    /\ hasCode ci = hasCode x
    /\ isContinuation ci = isContinuation x
    /\ isContinued ci
       = isContinued x
         || (hasCode ci && pending (skipn (S i) (marked codeLines))).
Proof.
  induction codeLines as [|x rest IH]; intros [|i] ci Hi; simpl in *;
    try discriminate.
  - injection Hi as <-. exists x. rewrite pending_marked.
    split; [reflexivity|].
    unfold hasCode.
    destruct (nonempty (code x)) eqn:Hc, (pending rest); simpl;
      rewrite ?Hc; simpl; rewrite ?orb_true_r, ?orb_false_r;
      repeat split; reflexivity.
  - apply IH in Hi. exact Hi.
Qed.

(** [pending] in words. *)
Lemma pending_true (following : list CodeLine) :
  pending following = true <->
  exists j cj,
    nth_error following j = Some cj /\ isContinuation cj = true
    /\ forall k ck, k < j -> nth_error following k = Some ck ->
                    hasCode ck = false.
Proof.
  induction following as [|x rest IH]; simpl.
  - split; [discriminate|]. intros (j & cj & H & _). destruct j; discriminate.
  - split.
    + intro H. apply orb_true_iff in H. destruct H as [H|H].
      * exists 0, x. repeat split; auto. intros k ck Hk. lia.
      * apply andb_true_iff in H. destruct H as [Hx Hp].
        apply IH in Hp. destruct Hp as (j & cj & Hj & Hcj & Hbefore).
        exists (S j), cj. repeat split; auto.
        intros [|k] ck Hk Hck; simpl in Hck.
        -- injection Hck as <-. now apply negb_true_iff in Hx.
        -- apply (Hbefore k); [lia|exact Hck].
    + intros (j & cj & Hj & Hcj & Hbefore).
      destruct j as [|j]; simpl in Hj.
      * injection Hj as ->. now rewrite Hcj.
      * apply orb_true_iff. right. apply andb_true_iff. split.
        -- apply negb_true_iff. apply (Hbefore 0); [lia|reflexivity].
        -- apply IH. exists j, cj. repeat split; auto.
           intros k ck Hk Hck. apply (Hbefore (S k)); [lia|exact Hck].
Qed.

Lemma pending_skipn (lines : list CodeLine) (i : nat) :
  pending (skipn (S i) lines) = true <-> continuation_follows lines i.
Proof.
  rewrite pending_true. unfold continuation_follows. split.
  - intros (j & cj & Hj & Hcj & Hbefore).
    exists (S i + j), cj. rewrite nth_error_skipn in Hj.
    repeat split; auto; [lia|].
    intros k ck Hk Hck. apply (Hbefore (k - S i)); [lia|].
    rewrite nth_error_skipn. now replace (S i + (k - S i)) with k by lia.
  - intros (j & cj & Hij & Hj & Hcj & Hbefore).
    exists (j - S i), cj. rewrite nth_error_skipn.
    replace (S i + (j - S i)) with j by lia.
    repeat split; auto.
    intros k ck Hk Hck. rewrite nth_error_skipn in Hck.
    apply (Hbefore (S i + k)); [lia|exact Hck].
Qed.

Lemma marked_flagged (codeLines : list CodeLine) :
  Forall (fun c => isContinuation c = true -> hasCode c = true) codeLines ->
  Forall (fun c => isContinuation c = true -> hasCode c = true)
    (marked codeLines).
Proof.
  induction 1 as [|x rest Hx _ IH]; simpl; constructor; auto.
  destruct (hasCode x && pending rest); simpl; exact Hx.
Qed.

(** When every continuation line has code, as [verifyContinuation] leaves
    them, the continuation that follows is the nearest line with code. *)
Lemma continuation_follows_next_code (lines : list CodeLine) (i : nat) :
  Forall (fun c => isContinuation c = true -> hasCode c = true) lines ->
  continuation_follows lines i <-> next_code_is_continuation lines i.
Proof.
  intro Hall. rewrite Forall_forall in Hall. split.
  - intros (j & cj & Hij & Hj & Hcj & Hbefore).
    exists j, cj. repeat split; auto.
    apply Hall; [eapply nth_error_In; exact Hj|exact Hcj].
  - intros (j & cj & Hij & Hj & _ & Hcj & Hbefore).
    exists j, cj. repeat split; auto.
Qed.

(** C2 (as the code has it). After [identifyContinuations] over lines whose
    [isContinued] is still false, as [parseLine] leaves it, [isContinued] of
    line [i] is true if and only if line [i] has code itself and a
    continuation line follows it with no line with code strictly between
    them.  When every continuation line has code, that line is the nearest
    following line with code. *)
Theorem identifyContinuations_isContinued (codeLines : list CodeLine) :
  Forall (fun c => isContinued c = false) codeLines ->
  let out := identifyContinuations codeLines in
  forall i ci,
    nth_error out i = Some ci ->
    (isContinued ci = true <->
     hasCode ci = true /\ continuation_follows out i)
    /\ (Forall (fun c => isContinuation c = true -> hasCode c = true)
          codeLines ->
        (isContinued ci = true <->
         hasCode ci = true /\ next_code_is_continuation out i)).
Proof.
  intros Hfresh out i ci Hi. subst out.
  rewrite identifyContinuations_marked in *.
  destruct (marked_nth codeLines i Hi) as (x & Hx & Hcode & Hflag & Hcont).
  rewrite Forall_forall in Hfresh.
  rewrite (Hfresh x (nth_error_In _ _ Hx)), orb_false_l in Hcont.
  assert (Hmain : isContinued ci = true <->
                  hasCode ci = true
                  /\ continuation_follows (marked codeLines) i).
  { rewrite Hcont, andb_true_iff, pending_skipn. tauto. }
  split; [exact Hmain|].
  intro Hall. rewrite Hmain.
  rewrite (continuation_follows_next_code i (marked_flagged Hall)). tauto.
Qed.

(** The statement is continued: a continuation follows it. *)
Lemma identifyContinuations_isContinued_witness :
  continuation_follows (identifyContinuations continued_statement) 0.
Proof.
  assert (Hfresh : Forall (fun c => isContinued c = false)
                     continued_statement)
    by (repeat constructor).
  destruct (nth_error (identifyContinuations continued_statement) 0)
    as [c0|] eqn:E0; [|vm_compute in E0; discriminate].
  destruct (identifyContinuations_isContinued Hfresh 0 E0) as [[H _] _].
  apply H. vm_compute in E0. injection E0 as <-. reflexivity.
Defined.

(** The comment line between the two has a continuation after it, which is
    the nearest line with code, and is not continued: it has no code. *)
Lemma identifyContinuations_isContinued_counterexample :
  ~ continuation_symmetry (identifyContinuations continued_statement).
Proof.
  intro H.
  destruct (nth_error (identifyContinuations continued_statement) 1)
    as [c1|] eqn:E1; [|vm_compute in E1; discriminate].
  destruct (nth_error (identifyContinuations continued_statement) 2)
    as [c2|] eqn:E2; [|vm_compute in E2; discriminate].
  assert (Hc2 : hasCode c2 = true /\ isContinuation c2 = true).
  { vm_compute in E2. injection E2 as <-. split; reflexivity. }
  assert (Hc1 : isContinued c1 = false).
  { vm_compute in E1. injection E1 as <-. reflexivity. }
  destruct (H 1 c1 E1) as [_ Hback].
  rewrite Hback in Hc1; [discriminate|].
  split.
  - exists 2, c2. repeat split; try tauto; try lia.
  - exists 2, c2. repeat split; try tauto; try lia.
Qed.

(** ** The repetition operators *)

Lemma within_can_more (hi : option nat) (n : nat) :
  within hi (S n) -> can_more hi = true /\ within (dec_hi hi) n.
Proof.
  destruct hi as [[|h]|]; simpl; intro H; split; auto; lia.
Qed.

Lemma can_more_within (hi : option nat) (n : nat) :
  can_more hi = true -> within (dec_hi hi) n -> within hi (S n).
Proof.
  destruct hi as [[|h]|]; simpl; intros H1 H2; auto; try discriminate; lia.
Qed.

(** A greedy repetition that fails has no split of the text, within its
    bounds, on which the rest of the pattern succeeds. *)
Lemma rep_greedy_none (p : ascii -> bool) (k : kont) (cs : captures) :
  forall s lo hi pv,
  rep_greedy p lo hi pv s cs k = None ->
  forall a b, s = a ++ b -> forallb p a = true ->
  lo <= len a -> within hi (len a) ->
  k (lastc pv a) b cs = None.
Proof.
  induction s as [|c s IH]; intros lo hi pv H a b Hs Hp Hlo Hhi.
  - symmetry in Hs. apply app_eq_nil in Hs. destruct Hs as [-> ->].
    simpl in *. destruct lo; [exact H|lia].
  - destruct a as [|c' a]; simpl in Hs.
    + subst b. simpl in Hlo. destruct lo; [|lia]. simpl in *.
      destruct (p c && can_more hi); [|exact H].
      destruct (rep_greedy p 0 (dec_hi hi) (Some c) s cs k);
        [discriminate|exact H].
    + injection Hs as <- ->. simpl in Hp, Hlo, Hhi.
      apply andb_true_iff in Hp. destruct Hp as [Hc Hp].
      apply within_can_more in Hhi. destruct Hhi as [Hm Hhi].
      simpl in H. rewrite Hc, Hm in H. simpl in H.
      destruct (rep_greedy p (pred lo) (dec_hi hi) (Some c) (a ++ b) cs k)
        eqn:E; [discriminate|].
      apply (IH _ _ _ E a b); auto. lia.
Qed.

(** A greedy repetition that succeeds does so on the longest split of the
    text, within its bounds, on which the rest of the pattern succeeds. *)
Lemma rep_greedy_some (p : ascii -> bool) (k : kont) (cs : captures) :
  forall s lo hi pv r,
  rep_greedy p lo hi pv s cs k = Some r ->
  exists a b,
    s = a ++ b /\ forallb p a = true /\ lo <= len a /\ within hi (len a)
    /\ k (lastc pv a) b cs = Some r
    /\ forall a' b', s = a' ++ b' -> forallb p a' = true ->
         within hi (len a') -> len a < len a' ->
         k (lastc pv a') b' cs = None.
Proof.
  induction s as [|c s IH]; intros lo hi pv r H.
  - simpl in H. destruct lo; [|discriminate].
    exists [], []. repeat split; auto.
    + destruct hi; simpl; lia.
    + intros a' b' Hs _ _ Hlen. symmetry in Hs. apply app_eq_nil in Hs.
      destruct Hs as [-> _]. simpl in Hlen. lia.
  - simpl in H.
    assert (Hstop : (match lo with 0 => k pv (c :: s) cs | S _ => None end)
                    = Some r ->
                    (p c && can_more hi = false
                     \/ rep_greedy p (pred lo) (dec_hi hi) (Some c) s cs k
                        = None) ->
                    exists a b,
                      c :: s = a ++ b /\ forallb p a = true /\ lo <= len a
                      /\ within hi (len a)
                      /\ k (lastc pv a) b cs = Some r
                      /\ forall a' b', c :: s = a' ++ b' ->
                           forallb p a' = true ->
                           within hi (len a') -> len a < len a' ->
                           k (lastc pv a') b' cs = None).
    { intros Hk Hwhy. destruct lo; [|discriminate].
      exists [], (c :: s). repeat split; auto.
      - destruct hi; simpl; lia.
      - intros a' b' Hs Hp Hhi Hlen.
        destruct a' as [|c' a']; [simpl in Hlen; lia|].
        simpl in Hs. injection Hs as <- ->. simpl in Hp, Hhi.
        apply andb_true_iff in Hp. destruct Hp as [Hc Hp].
        apply within_can_more in Hhi. destruct Hhi as [Hm Hhi].
        destruct Hwhy as [Hwhy|Hwhy].
        + rewrite Hc, Hm in Hwhy. discriminate.
        + eapply rep_greedy_none with (a := a') (b := b');
            [exact Hwhy|reflexivity|assumption|simpl; lia|assumption]. }
    destruct (p c && can_more hi) eqn:Hcond; [|apply Hstop; auto].
    destruct (rep_greedy p (pred lo) (dec_hi hi) (Some c) s cs k) as [r'|]
      eqn:E; [|apply Hstop; auto].
    injection H as ->.
    apply andb_true_iff in Hcond. destruct Hcond as [Hc Hm].
    destruct (IH _ _ _ _ E) as (a & b & Hs & Hp & Hlo & Hhi & Hk & Hmax).
    exists (c :: a), b. subst s. simpl. rewrite Hc, Hp.
    repeat split; auto.
    + lia.
    + apply can_more_within; auto.
    + intros a' b' Hs Hp' Hhi' Hlen.
      destruct a' as [|c' a']; [simpl in Hlen; lia|].
      simpl in Hs. injection Hs as <- Hs. simpl in Hp', Hhi', Hlen.
      apply andb_true_iff in Hp'. destruct Hp' as [_ Hp'].
      apply within_can_more in Hhi'. destruct Hhi' as [_ Hhi'].
      apply (Hmax a' b'); auto. lia.
Qed.

(** A lazy repetition that fails has no split either. *)
Lemma rep_lazy_none (p : ascii -> bool) (k : kont) (cs : captures) :
  forall s lo hi pv,
  rep_lazy p lo hi pv s cs k = None ->
  forall a b, s = a ++ b -> forallb p a = true ->
  lo <= len a -> within hi (len a) ->
  k (lastc pv a) b cs = None.
Proof.
  induction s as [|c s IH]; intros lo hi pv H a b Hs Hp Hlo Hhi.
  - symmetry in Hs. apply app_eq_nil in Hs. destruct Hs as [-> ->].
    simpl in *. destruct lo; [|lia].
    destruct (k pv [] cs); [discriminate|reflexivity].
  - destruct a as [|c' a]; simpl in Hs.
    + subst b. simpl in Hlo. destruct lo; [|lia]. simpl in *.
      destruct (k pv (c :: s) cs); [discriminate|reflexivity].
    + injection Hs as <- ->. simpl in Hp, Hlo, Hhi.
      apply andb_true_iff in Hp. destruct Hp as [Hc Hp].
      apply within_can_more in Hhi. destruct Hhi as [Hm Hhi].
      simpl in H. rewrite Hc, Hm in H. simpl in H.
      assert (E : rep_lazy p (pred lo) (dec_hi hi) (Some c) (a ++ b) cs k
                  = None).
      { destruct lo; [|exact H].
        destruct (k pv (c :: a ++ b) cs); [discriminate|exact H]. }
      apply (IH _ _ _ E a b); auto. lia.
Qed.

(** A lazy repetition that succeeds does so on the shortest split of the
    text, within its bounds, on which the rest of the pattern succeeds. *)
Lemma rep_lazy_some (p : ascii -> bool) (k : kont) (cs : captures) :
  forall s lo hi pv r,
  rep_lazy p lo hi pv s cs k = Some r ->
  exists a b,
    s = a ++ b /\ forallb p a = true /\ lo <= len a /\ within hi (len a)
    /\ k (lastc pv a) b cs = Some r
    /\ forall a' b', s = a' ++ b' -> lo <= len a' -> len a' < len a ->
         k (lastc pv a') b' cs = None.
Proof.
  induction s as [|c s IH]; intros lo hi pv r H.
  - simpl in H. destruct lo; [|discriminate].
    destruct (k pv [] cs) eqn:Hk; [|discriminate]. injection H as ->.
    exists [], []. repeat split; auto.
    + destruct hi; simpl; lia.
    + intros a' b' _ _ Hlen. simpl in Hlen. lia.
  - simpl in H.
    assert (Hmore : (if p c && can_more hi
                     then rep_lazy p (pred lo) (dec_hi hi) (Some c) s cs k
                     else None) = Some r ->
                    (lo = 0 -> k pv (c :: s) cs = None) ->
                    exists a b,
                      c :: s = a ++ b /\ forallb p a = true /\ lo <= len a
                      /\ within hi (len a)
                      /\ k (lastc pv a) b cs = Some r
                      /\ forall a' b', c :: s = a' ++ b' -> lo <= len a' ->
                           len a' < len a ->
                           k (lastc pv a') b' cs = None).
    { intros Hrec Hfirst.
      destruct (p c && can_more hi) eqn:Hcond; [|discriminate].
      apply andb_true_iff in Hcond. destruct Hcond as [Hc Hm].
      destruct (IH _ _ _ _ Hrec) as (a & b & Hs & Hp & Hlo & Hhi & Hk & Hmin).
      exists (c :: a), b. subst s. simpl. rewrite Hc, Hp.
      repeat split; auto.
      - lia.
      - apply can_more_within; auto.
      - intros a' b' Hs Hlo' Hlen.
        destruct a' as [|c' a'].
        + simpl in Hs. subst b'. simpl in Hlo'.
          apply Hfirst. lia.
        + simpl in Hs. injection Hs as <- Hs. simpl in Hlo', Hlen.
          apply (Hmin a' b'); auto; lia. }
    destruct lo; [|apply Hmore; [exact H|discriminate]].
    destruct (k pv (c :: s) cs) as [r'|] eqn:Hk.
    + injection H as ->. exists [], (c :: s). repeat split; auto.
      * destruct hi; simpl; lia.
      * intros a' b' _ _ Hlen. simpl in Hlen. lia.
    + apply Hmore; auto.
Qed.

(** ** The patterns of [parseLine] *)

Arguments re_match : simpl never.
Arguments Nat.sub : simpl never.
Arguments len : simpl never.

Lemma firstn_len_app (a b : str) :
  firstn (len (a ++ b) - len b) (a ++ b) = a.
Proof.
  unfold len. rewrite length_app, Nat.add_sub.
  rewrite firstn_app, Nat.sub_diag, firstn_all. simpl. apply app_nil_r.
Qed.

Lemma no_nl_app (a b : str) :
  no_nl (a ++ b) = true <-> no_nl a = true /\ no_nl b = true.
Proof. unfold no_nl. rewrite forallb_app. apply andb_true_iff. Qed.

(** [$] in a text without newline is the end of the text. *)
Lemma at_eol_no_nl (e : str) :
  at_eol e = true -> no_nl e = true -> e = [].
Proof.
  destruct e as [|c [|c' e]]; simpl; try discriminate; auto.
  unfold is_dot. intros ->. discriminate.
Qed.

Lemma is_chr_eq (a c : ascii) : is_chr a c = true -> c = a.
Proof. unfold is_chr. apply Ascii.eqb_eq. Qed.

(** What a match of each pattern says of the text: the groups, in order,
    the text before them that no group holds and the text after them that
    [$] let through. *)

Lemma re_rightSpace_some (s : str) (m : captures) :
  re_match re_rightSpace s = Some m ->
  exists a b e,
    s = a ++ b ++ e /\ no_nl a = true /\ forallb is_space b = true
    /\ 1 <= len b /\ at_eol e = true /\ m = [(2, b); (1, a)].
Proof.
  unfold re_match, re_rightSpace, plus, lazy_star. simpl. intro H.
  apply rep_lazy_some in H.
  destruct H as (a & s1 & Hs & Hp & _ & _ & Hk & _).
  apply rep_greedy_some in Hk.
  destruct Hk as (b & e & Hs1 & Hpb & Hlo & _ & Hk & _).
  destruct (at_eol e) eqn:He; [|discriminate]. injection Hk as <-.
  exists a, b, e. subst s1 s. rewrite !firstn_len_app. auto 10.
Qed.

Lemma re_leftSpace_some (s : str) (m : captures) :
  re_match re_leftSpace s = Some m ->
  exists a b e,
    s = a ++ b ++ e /\ forallb is_space a = true /\ 1 <= len a
    /\ no_nl b = true /\ at_eol e = true /\ m = [(2, b); (1, a)].
Proof.
  unfold re_match, re_leftSpace, plus, lazy_star. simpl. intro H.
  apply rep_greedy_some in H.
  destruct H as (a & s1 & Hs & Hp & Hlo & _ & Hk & _).
  apply rep_lazy_some in Hk.
  destruct Hk as (b & e & Hs1 & Hpb & _ & _ & Hk & _).
  destruct (at_eol e) eqn:He; [|discriminate]. injection Hk as <-.
  exists a, b, e. subst s1 s. rewrite !firstn_len_app. auto 10.
Qed.

Lemma re_fixedLabel_some (s : str) (m : captures) :
  re_match re_fixedLabel s = Some m ->
  exists w d b e,
    s = w ++ d ++ b ++ e /\ forallb is_space w = true /\ len w <= 4
    /\ forallb is_digit d = true /\ 1 <= len d
    /\ no_nl b = true /\ at_eol e = true /\ m = [(2, b); (1, d)].
Proof.
  unfold re_match, re_fixedLabel, plus, lazy_star. simpl. intro H.
  apply rep_greedy_some in H.
  destruct H as (w & s1 & Hs & Hw & _ & Hhi & Hk & _).
  apply rep_greedy_some in Hk.
  destruct Hk as (d & s2 & Hs1 & Hd & Hlo & _ & Hk & _).
  apply rep_lazy_some in Hk.
  destruct Hk as (b & e & Hs2 & Hb & _ & _ & Hk & _).
  destruct (at_eol e) eqn:He; [|discriminate]. injection Hk as <-.
  exists w, d, b, e. subst s2 s1 s. rewrite !firstn_len_app.
  simpl in Hhi. auto 12.
Qed.

Lemma re_comment_some (s : str) (m : captures) :
  re_match re_comment s = Some m ->
  exists a w c e,
    s = a ++ w ++ ("!"%char :: c) ++ e /\ no_nl a = true
    /\ forallb is_space w = true /\ no_nl c = true /\ at_eol e = true
    /\ m = [(3, "!"%char :: c); (2, w); (1, a)].
Proof.
  unfold re_match, re_comment, star, lazy_star. simpl. intro H.
  apply rep_lazy_some in H.
  destruct H as (a & s1 & Hs & Ha & _ & _ & Hk & _).
  apply rep_greedy_some in Hk.
  destruct Hk as (w & s2 & Hs1 & Hw & _ & _ & Hk & _).
  destruct s2 as [|x s3]; [discriminate|].
  destruct (is_chr "!" x) eqn:Hx; [|discriminate].
  apply is_chr_eq in Hx. subst x.
  apply rep_lazy_some in Hk.
  destruct Hk as (c & e & Hs3 & Hc & _ & _ & Hk & _).
  destruct (at_eol e) eqn:He; [|discriminate]. injection Hk as <-.
  exists a, w, c, e. subst s3 s1 s. rewrite !firstn_len_app.
  change ("!"%char :: c ++ e) with (("!"%char :: c) ++ e).
  rewrite firstn_len_app. auto 10.
Qed.

Lemma re_freeLabel_some (s : str) (m : captures) :
  re_match re_freeLabel s = Some m ->
  exists d w b e,
    s = (d ++ w) ++ b ++ e /\ forallb is_digit d = true /\ 1 <= len d
    /\ forallb is_space w = true /\ 1 <= len w
    /\ no_nl b = true /\ at_eol e = true /\ m = [(2, b); (1, d ++ w)].
Proof.
  unfold re_match, re_freeLabel, plus, lazy_star. simpl. intro H.
  apply rep_greedy_some in H.
  destruct H as (d & s1 & Hs & Hd & Hld & _ & Hk & _).
  apply rep_greedy_some in Hk.
  destruct Hk as (w & s2 & Hs1 & Hw & Hlw & _ & Hk & _).
  apply rep_lazy_some in Hk.
  destruct Hk as (b & e & Hs2 & Hb & _ & _ & Hk & _).
  destruct (at_eol e) eqn:He; [|discriminate]. injection Hk as <-.
  exists d, w, b, e. subst s2 s1 s. rewrite firstn_len_app.
  rewrite (app_assoc d w (b ++ e)), firstn_len_app. auto 12.
Qed.

Lemma re_freeCont_some (s : str) (m : captures) :
  re_match re_freeCont s = Some m ->
  exists w b e,
    s = ("&"%char :: w) ++ b ++ e /\ forallb is_space w = true
    /\ no_nl b = true /\ at_eol e = true
    /\ m = [(2, b); (1, "&"%char :: w)].
Proof.
  unfold re_match, re_freeCont, star, lazy_star. simpl. intro H.
  destruct s as [|x s0]; [discriminate|].
  destruct (is_chr "&" x) eqn:Hx; [|discriminate].
  apply is_chr_eq in Hx. subst x.
  apply rep_greedy_some in H.
  destruct H as (w & s1 & Hs & Hw & _ & _ & Hk & _).
  apply rep_lazy_some in Hk.
  destruct Hk as (b & e & Hs1 & Hb & _ & _ & Hk & _).
  destruct (at_eol e) eqn:He; [|discriminate]. injection Hk as <-.
  exists w, b, e. subst s1 s0. rewrite firstn_len_app.
  change ("&"%char :: w ++ b ++ e) with (("&"%char :: w) ++ b ++ e).
  rewrite firstn_len_app. auto 10.
Qed.

(** ** Trailing whitespace *)

Lemma lstrip_app_spaces (w x : str) :
  forallb is_space w = true -> lstrip (w ++ x) = lstrip x.
Proof.
  induction w as [|c w IH]; simpl; [reflexivity|].
  intro H. apply andb_true_iff in H. destruct H as [-> H]. auto.
Qed.

Lemma lstrip_nonspace (c : ascii) (x : str) :
  is_space c = false -> lstrip (c :: x) = c :: x.
Proof. simpl. now intros ->. Qed.

Lemma forallb_rev (p : ascii -> bool) (x : str) :
  forallb p (rev x) = forallb p x.
Proof.
  induction x as [|c x IH]; simpl; [reflexivity|].
  rewrite forallb_app, IH. simpl. rewrite andb_true_r. apply andb_comm.
Qed.

Lemma rstrip_app_spaces (x w : str) :
  forallb is_space w = true -> rstrip (x ++ w) = rstrip x.
Proof.
  intro H. unfold rstrip. rewrite rev_app_distr, lstrip_app_spaces; auto.
  now rewrite forallb_rev.
Qed.

Lemma rstrip_ends_nonspace (x : str) : ends_nonspace x -> rstrip x = x.
Proof.
  intro H. unfold rstrip. destruct (rev x) as [|c r] eqn:E.
  - apply (f_equal (@rev ascii)) in E. rewrite rev_involutive in E.
    now subst x.
  - apply (f_equal (@rev ascii)) in E. rewrite rev_involutive in E.
    simpl in E. rewrite lstrip_nonspace by (eapply H; exact E).
    now subst x.
Qed.

Lemma is_space_nl : is_space nl = true.
Proof. reflexivity. Qed.

Lemma single_line_snoc (x : str) (c : ascii) :
  single_line (x ++ [c]) = no_nl x.
Proof. unfold single_line. now rewrite removelast_last. Qed.

(** On a line of a file the first pattern of [parseLine] takes exactly the
    trailing whitespace, and what is left holds no newline. *)
Lemma re_rightSpace_spec (l : str) :
  single_line l = true ->
  exists rs,
    l = rstrip l ++ rs /\ no_nl (rstrip l) = true
    /\ match re_match re_rightSpace l with
       | Some m => group m 1 = rstrip l /\ group m 2 = rs
       | None => rs = []
       end.
Proof.
  intro Hl. unfold re_match, re_rightSpace, plus, lazy_star. simpl.
  match goal with
  | |- context [match ?x with Some _ => _ | None => _ end] =>
      destruct x as [m|] eqn:H
  end.
  - apply rep_lazy_some in H.
    destruct H as (a & s1 & Hs & Ha & _ & _ & Hk & Hmin).
    apply rep_greedy_some in Hk.
    destruct Hk as (b & e & Hs1 & Hb & Hlo & _ & Hk & Hmax).
    destruct (at_eol e) eqn:He; [|discriminate]. injection Hk as <-.
    assert (e = []) as ->.
    { destruct e as [|c [|c' e]]; try discriminate; [reflexivity|].
      simpl in He. apply Ascii.eqb_eq in He. subst c.
      specialize (Hmax (b ++ [nl]) [] ltac:(now rewrite app_nil_r)).
      rewrite forallb_app, Hb in Hmax. simpl in Hmax.
      assert (Hlen : len b < len (b ++ [nl]))
        by (unfold len; rewrite length_app; simpl; lia).
      specialize (Hmax eq_refl I Hlen). discriminate. }
    rewrite app_nil_r in Hs1. subst s1.
    assert (Hend : ends_nonspace a).
    { intros a0 c Ha0. destruct (is_space c) eqn:Hc; [exfalso|reflexivity].
      specialize (Hmin a0 (c :: b)). subst a l.
      rewrite <- app_assoc in Hmin. specialize (Hmin eq_refl).
      assert (Hlen : len a0 < len (a0 ++ [c]))
        by (unfold len; rewrite length_app; simpl; lia).
      specialize (Hmin ltac:(lia) Hlen).
      eapply rep_greedy_none with (a := c :: b) (b := []) in Hmin.
      - simpl in Hmin. discriminate.
      - now rewrite app_nil_r.
      - simpl. now rewrite Hc, Hb.
      - unfold len. simpl. lia.
      - exact I. }
    exists b. subst l. rewrite !firstn_len_app.
    rewrite rstrip_app_spaces by exact Hb.
    rewrite rstrip_ends_nonspace by exact Hend.
    simpl. repeat split; auto.
    unfold len. simpl. rewrite Nat.sub_0_r. apply firstn_all.
  - assert (Hend : ends_nonspace l).
    { intros l0 c Hl0. destruct (is_space c) eqn:Hc; [exfalso|reflexivity].
      subst l. rewrite single_line_snoc in Hl.
      eapply rep_lazy_none with (a := l0) (b := [c]) in H;
        [|reflexivity|exact Hl|unfold len; lia|exact I].
      eapply rep_greedy_none with (a := [c]) (b := []) in H.
      - simpl in H. discriminate.
      - reflexivity.
      - simpl. now rewrite Hc.
      - unfold len. simpl. lia.
      - exact I. }
    exists []. rewrite rstrip_ends_nonspace by exact Hend.
    rewrite app_nil_r.
    repeat split; auto.
    destruct l as [|c0 l'] eqn:El; [reflexivity|]. rewrite <- El in *.
    destruct (@exists_last _ l) as (l0 & c & Hl0); [now rewrite El|].
    pose proof (Hend l0 c Hl0) as Hc.
    rewrite Hl0 in Hl |- *. rewrite single_line_snoc in Hl.
    apply no_nl_app. split; [exact Hl|].
    simpl. unfold is_dot. destruct (Ascii.eqb_spec c nl) as [->|_].
    + rewrite is_space_nl in Hc. discriminate.
    + reflexivity.
Qed.

(** ** The steps of [parseLine] on a text without newline *)

Arguments parseLine_rest : simpl never.

Lemma no_nl_eol (x e : str) :
  no_nl (x ++ e) = true -> at_eol e = true -> e = [].
Proof.
  intros H He. apply no_nl_app in H. destruct H as [_ H].
  now apply at_eol_no_nl.
Qed.

(** Each pattern splits the text into its groups, and leaves a text
    without newline to the next. *)

Lemma leftSpace_step (s : str) :
  no_nl s = true ->
  exists ls s',
    s = ls ++ s' /\ no_nl s' = true
    /\ match re_match re_leftSpace s with
       | Some m => m = [(2, s'); (1, ls)]
       | None => ls = [] /\ s' = s
       end.
Proof.
  intro Hs. destruct (re_match re_leftSpace s) as [m|] eqn:E.
  - apply re_leftSpace_some in E.
    destruct E as (a & b & e & -> & Ha & Hlo & Hb & He & ->).
    rewrite app_assoc in Hs. pose proof (no_nl_eol _ _ Hs He) as ->.
    rewrite app_nil_r. exists a, b. auto.
  - exists [], s. auto.
Qed.

Lemma comment_step (s : str) :
  no_nl s = true ->
  exists s' ms cm,
    s = s' ++ ms ++ cm /\ no_nl s' = true
    /\ match re_match re_comment s with
       | Some m => m = [(3, cm); (2, ms); (1, s')]
       | None => s' = s /\ ms = [] /\ cm = []
       end.
Proof.
  intro Hs. destruct (re_match re_comment s) as [m|] eqn:E.
  - apply re_comment_some in E.
    destruct E as (a & w & c & e & -> & Ha & Hw & Hc & He & ->).
    rewrite !app_assoc in Hs. pose proof (no_nl_eol _ _ Hs He) as ->.
    rewrite app_nil_r. exists a, w, ("!"%char :: c). auto.
  - exists s, [], []. rewrite app_nil_r. auto.
Qed.

Lemma freeLabel_step (s : str) :
  no_nl s = true ->
  exists fl s',
    s = fl ++ s' /\ no_nl s' = true
    /\ match re_match re_freeLabel s with
       | Some m => m = [(2, s'); (1, fl)]
       | None => fl = [] /\ s' = s
       end.
Proof.
  intro Hs. destruct (re_match re_freeLabel s) as [m|] eqn:E.
  - apply re_freeLabel_some in E.
    destruct E as (d & w & b & e & -> & Hd & Hld & Hw & Hlw & Hb & He & ->).
    rewrite app_assoc in Hs. pose proof (no_nl_eol _ _ Hs He) as ->.
    rewrite app_nil_r. exists (d ++ w), b. auto.
  - exists [], s. auto.
Qed.

Lemma freeCont_step (s : str) :
  no_nl s = true ->
  exists fc s',
    s = fc ++ s' /\ no_nl s' = true
    /\ match re_match re_freeCont s with
       | Some m => m = [(2, s'); (1, fc)]
       | None => fc = [] /\ s' = s
       end.
Proof.
  intro Hs. destruct (re_match re_freeCont s) as [m|] eqn:E.
  - apply re_freeCont_some in E.
    destruct E as (w & b & e & -> & Hw & Hb & He & ->).
    rewrite app_assoc in Hs. pose proof (no_nl_eol _ _ Hs He) as ->.
    rewrite app_nil_r. exists ("&"%char :: w), b. auto.
  - exists [], s. auto.
Qed.

(** Normal form of a concatenation of regions. *)
Ltac app_norm :=
  simpl; rewrite <- ?app_assoc; simpl; rewrite ?app_nil_r; try reflexivity.

(** From "strip away left whitespace" on, the regions that the method
    fills partition the text that is left in [self.line]. *)
Lemma parseLine_rest_build (self : CodeLine) :
  no_nl (line self) = true ->
  leftSpace self = [] -> freeLabel self = [] -> freeContBeg self = [] ->
  freeContEnd self = [] -> midSpace self = [] -> comment self = [] ->
  buildFullLine (parseLine_rest self)
  = preProc self ++ fixedComment self ++ fixedLabel self ++ fixedCont self
    ++ line self ++ rightSpace self.
Proof.
  destruct self as [free rem ln ocl pp ls cd ms cm rs fcm fl fc frl fcb fce
                    icd icn].
  simpl. intros Hn -> -> -> -> -> ->.
  unfold parseLine_rest. simpl.
  destruct (leftSpace_step _ Hn) as (x1 & s1 & E1 & Hn1 & Hm1).
  destruct (re_match re_leftSpace _) as [m1|];
    [subst | destruct Hm1 as [-> ->]; clear E1]; simpl.
  all: destruct (comment_step _ Hn1) as (s2 & x2 & y2 & E2 & Hn2 & Hm2);
    destruct (re_match re_comment _) as [m2|];
    [subst | destruct Hm2 as (-> & -> & ->); clear E2]; simpl.
  all: destruct free; simpl.
  all: try (destruct (freeLabel_step _ Hn2) as (x3 & s3 & E3 & Hn3 & Hm3);
            destruct (re_match re_freeLabel _) as [m3|];
            [subst | destruct Hm3 as (-> & ->); clear E3]; simpl).
  all: try (destruct (freeCont_step _ Hn3) as (x4 & s4 & E4 & Hn4 & Hm4);
            destruct (re_match re_freeCont _) as [m4|];
            [subst | destruct Hm4 as (-> & ->); clear E4]; simpl).
  all: unfold buildFullLine; simpl; app_norm.
Qed.

(** ** [parseLine] *)

Lemma digit_not_space (c : ascii) : is_digit c = true -> is_space c = false.
Proof.
  destruct c as [[] [] [] [] [] [] [] []]; vm_compute; intro H;
    try reflexivity; discriminate.
Qed.

Lemma label_lead (w d rest : str) :
  forallb is_space w = true -> starts_with_digit d = true ->
  lstrip (w ++ d ++ rest) = d ++ rest /\ lead (w ++ d ++ rest) = len w.
Proof.
  intros Hw Hd.
  assert (E : lstrip (w ++ d ++ rest) = d ++ rest).
  { rewrite lstrip_app_spaces by exact Hw.
    destruct d as [|c d]; [discriminate|]. simpl in Hd.
    apply lstrip_nonspace. now apply digit_not_space. }
  split; [exact E|].
  unfold lead. rewrite E. unfold len. rewrite !length_app. lia.
Qed.

Lemma no_nl_skipn (n : nat) (x : str) :
  no_nl x = true -> no_nl (skipn n x) = true.
Proof.
  intro H. rewrite <- (firstn_skipn n x) in H.
  apply no_nl_app in H. tauto.
Qed.

Lemma index_lt (x : str) (i : nat) :
  i < len x -> exists c, index x i = Some c.
Proof.
  unfold index, len. intro H.
  destruct (nth_error x i) as [c|] eqn:E; [now exists c|].
  apply nth_error_None in E. lia.
Qed.

(** The first statement of [parseLine] on a line of a file. *)
Lemma parseLine_rightSpace (l : str) (free : bool) :
  single_line l = true ->
  exists rs,
    l = rstrip l ++ rs /\ no_nl (rstrip l) = true
    /\ match re_match re_rightSpace l with
       | Some m =>
           set_line (group m 1)
             (set_rightSpace (group m 2) (CodeLine_init l free))
       | None => CodeLine_init l free
       end
       = set_line (rstrip l) (set_rightSpace rs (CodeLine_init l free)).
Proof.
  intro Hl. destruct (re_rightSpace_spec l Hl) as (rs & El & Hn & Hm).
  exists rs. repeat split; auto.
  destruct (re_match re_rightSpace l).
  - destruct Hm as [-> ->]. reflexivity.
  - subst rs. rewrite app_nil_r in El. rewrite <- El. reflexivity.
Qed.

Arguments slice_from : simpl never.
Arguments slice_to : simpl never.
Arguments index : simpl never.

Lemma len_zero (x : str) : len x = 0 -> x = [].
Proof. destruct x; [reflexivity|discriminate]. Qed.

(** A label that [parseLine] finds in a line without indented label
    stands in the first column. *)
Lemma label_first_column (w d rest : str) :
  forallb is_space w = true -> len w <= 4 -> forallb is_digit d = true ->
  1 <= len d -> indented_label (w ++ d ++ rest) = false -> w = [].
Proof.
  intros Hw Hw4 Hd Hd1 H.
  assert (Hs : starts_with_digit d = true).
  { destruct d as [|c d]; [unfold len in Hd1; simpl in Hd1; lia|].
    simpl in Hd |- *. apply andb_true_iff in Hd. tauto. }
  destruct (@label_lead w d rest Hw Hs) as [E1 E2].
  unfold indented_label, label_at_start in H. rewrite E1, E2 in H.
  assert (Hs' : starts_with_digit (d ++ rest) = true)
    by (destruct d; [discriminate|exact Hs]).
  rewrite Hs', andb_true_r in H.
  destruct (Nat.leb_spec 1 (len w)) as [H1|H1].
  - destruct (Nat.leb_spec (len w) 4); [discriminate|lia].
  - apply len_zero. lia.
Qed.

(** The round trip where the label pattern of the fixed layout loses
    nothing.  A line of a file, with no newline but at its end, is rebuilt
    exactly from the regions [parseLine] gives it, in free layout always
    and in fixed layout unless whitespace stands before its statement
    label. *)
Theorem parseLine_roundtrip (l : str) (free : bool) :
  single_line l = true ->
  free = true \/ indented_label l = false ->
  exists self,
    parseLine (CodeLine_init l free) = Some self
    /\ buildFullLine self = l.
Proof.
  intros Hl Hlab.
  destruct (@parseLine_rightSpace l free Hl) as (rs & El & Hn & H1).
  unfold parseLine. change (line (CodeLine_init l free)) with l.
  rewrite H1. clear H1. simpl.
  remember (rstrip l) as body eqn:Eb. clear Eb.
  destruct (Nat.eqb_spec (len body) 0) as [E|E].
  { apply len_zero in E. subst body.
    eexists. split; [reflexivity|].
    unfold buildFullLine. simpl. now rewrite El. }
  destruct (@index_lt body 0) as [c0 E0]; [lia|]. rewrite E0. simpl.
  destruct (Ascii.eqb c0 "#").
  { eexists. split; [reflexivity|].
    unfold buildFullLine. simpl. now rewrite El. }
  destruct free; simpl.
  { eexists. split; [reflexivity|].
    rewrite parseLine_rest_build; simpl; auto. }
  destruct Hlab as [Hlab|Hlab]; [discriminate|].
  match goal with
  | |- context [if ?b then _ else _] => destruct b
  end.
  { eexists. split; [reflexivity|].
    unfold buildFullLine. simpl. now rewrite El. }
  destruct (re_match re_fixedLabel body) as [m|] eqn:Elab.
  - apply re_fixedLabel_some in Elab.
    destruct Elab as (w & d & b & e & Eb & Hw & Hw4 & Hd & Hd1 & Hb & He & ->).
    subst body. simpl.
    assert (e = []) as ->.
    { rewrite !app_assoc in Hn. exact (no_nl_eol _ _ Hn He). }
    rewrite app_nil_r in *.
    assert (w = []) as ->.
    { apply (@label_first_column w d (b ++ rs)); auto.
      rewrite <- Hlab, El, <- !app_assoc. reflexivity. }
    eexists. split; [reflexivity|].
    rewrite parseLine_rest_build; simpl; auto.
    rewrite El. simpl. now rewrite <- app_assoc.
  - destruct (Nat.ltb_spec 5 (len body)) as [H5|H5]; simpl.
    + destruct (Ascii.eqb c0 tab); simpl.
      * eexists. split; [reflexivity|].
        rewrite parseLine_rest_build; simpl; auto.
      * destruct (@index_lt body 5) as [c5 E5]; [lia|]. rewrite E5. simpl.
        match goal with
        | |- context [if ?b then _ else _] => destruct b
        end.
        -- eexists. split; [reflexivity|].
           rewrite parseLine_rest_build; simpl; auto using no_nl_skipn.
           unfold slice_to, slice_from.
           rewrite app_assoc, firstn_skipn. now rewrite El.
        -- eexists. split; [reflexivity|].
           rewrite parseLine_rest_build; simpl; auto.
    + eexists. split; [reflexivity|].
      rewrite parseLine_rest_build; simpl; auto.
Qed.

(** The first scenario of the specification, with its line terminator. *)
Lemma parseLine_roundtrip_witness :
  exists self,
    parseLine (CodeLine_init (lit "      IF(X.GT.0)THEN" ++ [nl]) false)
    = Some self
    /\ buildFullLine self = lit "      IF(X.GT.0)THEN" ++ [nl].
Proof.
  apply (@parseLine_roundtrip (lit "      IF(X.GT.0)THEN" ++ [nl]) false).
  - reflexivity.
  - right. reflexivity.
Defined.

(** A labelled statement of fixed layout, the label right-justified in the
    label columns: the blanks before the label belong to no region.  And a
    text that is no line of a file, with a newline inside: [$] lets its last
    newline through and no region holds it. *)
Lemma parseLine_roundtrip_counterexample :
  (exists self,
     parseLine (CodeLine_init (lit "   10 CONTINUE" ++ [nl]) false)
     = Some self
     /\ buildFullLine self = lit "10 CONTINUE" ++ [nl])
  /\ (exists self,
        parseLine (CodeLine_init ([nl] ++ lit " x" ++ [nl]) true)
        = Some self
        /\ buildFullLine self = [nl] ++ lit " x")
  /\ ~ roundtrip_claim.
Proof.
  split; [|split].
  - eexists. split; vm_compute; reflexivity.
  - eexists. split; vm_compute; reflexivity.
  - intro H.
    destruct (parseLine (CodeLine_init (lit "   10 CONTINUE" ++ [nl]) false))
      as [self|] eqn:E; [|vm_compute in E; discriminate].
    specialize (H _ _ _ E).
    vm_compute in E. injection E as <-.
    vm_compute in H. discriminate.
Qed.

(** C1, where the code misses it.  In the fixed layout the pattern of the
    statement label, [ \s{0,4} (\d+) (.*?) $ ], matches the whitespace
    before the label and keeps it in no group: the line
    ["   10 CONTINUE"] is rebuilt as ["10 CONTINUE"], its three blanks
    lost.  The other paths keep every character they match: so the
    continuation marker of the same layout, which is the first six
    characters with their blanks, and the label of the free layout with the
    whitespace after it. *)
Theorem parseLine_roundtrip_defect :
  (exists self,
     parseLine (CodeLine_init (lit "   10 CONTINUE" ++ [nl]) false)
     = Some self
     /\ fixedLabel self = lit "10"
     /\ buildFullLine self = lit "10 CONTINUE" ++ [nl]
     /\ buildFullLine self <> lit "   10 CONTINUE" ++ [nl])
  /\ (exists self,
        parseLine (CodeLine_init (lit "     &  + 2" ++ [nl]) false)
        = Some self
        /\ fixedCont self = lit "     &"
        /\ buildFullLine self = lit "     &  + 2" ++ [nl])
  /\ (exists self,
        parseLine (CodeLine_init (lit "10   CONTINUE" ++ [nl]) true)
        = Some self
        /\ freeLabel self = lit "10   "
        /\ buildFullLine self = lit "10   CONTINUE" ++ [nl]).
Proof.
  split; [|split].
  - eexists. split; [vm_compute; reflexivity|].
    split; [reflexivity|]. split; [reflexivity|].
    vm_compute. discriminate.
  - eexists. split; [vm_compute; reflexivity|]. split; reflexivity.
  - eexists. split; [vm_compute; reflexivity|]. split; reflexivity.
Qed.

(** ** [parseLine] never raises *)

Ltac split_if :=
  match goal with
  | |- context [if ?b then _ else _] => destruct b eqn:?
  end.

Lemma parseLine_total (self : CodeLine) :
  exists self', parseLine self = Some self'.
Proof.
  unfold parseLine. cbv zeta.
  match goal with
  | |- context [len (line ?s) =? 0] => generalize s; intro self1
  end.
  destruct (Nat.eqb_spec (len (line self1)) 0) as [E|E];
    [eexists; reflexivity|].
  destruct (@index_lt (line self1) 0) as [c0 E0]; [lia|]. rewrite E0. simpl.
  split_if; [eexists; reflexivity|].
  split_if; simpl; [|eexists; reflexivity].
  split_if; [eexists; reflexivity|].
  destruct (re_match re_fixedLabel (line self1)); [eexists; reflexivity|].
  destruct (Nat.ltb_spec 5 (len (line self1))) as [H5|H5]; simpl.
  - split_if; simpl.
    + destruct (@index_lt (line self1) 5) as [c5 E5]; [lia|]. rewrite E5.
      simpl. split_if; eexists; reflexivity.
    + eexists; reflexivity.
  - eexists; reflexivity.
Qed.

Ltac split_match :=
  match goal with
  | |- context [match re_match ?r ?s with _ => _ end] =>
      destruct (re_match r s)
  | |- context [if isFreeForm ?s then _ else _] =>
      destruct (isFreeForm s) eqn:?
  end.

(** What the second half of [parseLine] leaves as it is. *)
Lemma parseLine_rest_frame (self : CodeLine) :
  rightSpace (parseLine_rest self) = rightSpace self
  /\ isFreeForm (parseLine_rest self) = isFreeForm self
  /\ preProc (parseLine_rest self) = preProc self
  /\ fixedComment (parseLine_rest self) = fixedComment self
  /\ fixedLabel (parseLine_rest self) = fixedLabel self
  /\ fixedCont (parseLine_rest self) = fixedCont self
  /\ (isContinuation self = true ->
      isContinuation (parseLine_rest self) = true).
Proof.
  unfold parseLine_rest. cbv zeta.
  repeat split; simpl; repeat (split_match; simpl); auto.
Qed.

Lemma parseLine_rest_leftSpace (self : CodeLine) :
  re_match re_leftSpace (line self) = None ->
  leftSpace (parseLine_rest self) = leftSpace self.
Proof.
  intro H. unfold parseLine_rest. cbv zeta. rewrite H.
  simpl; repeat (split_match; simpl); auto.
Qed.

Ltac returned :=
  let H := fresh "H" in
  intro H; injection H as <-;
  try match goal with
      | |- context [parseLine_rest ?s] =>
          rewrite (proj1 (parseLine_rest_frame s))
      end;
  reflexivity.

Lemma parseLine_rightSpace_none (self self' : CodeLine) :
  re_match re_rightSpace (line self) = None ->
  parseLine self = Some self' ->
  rightSpace self' = rightSpace self.
Proof.
  intro Hnone. unfold parseLine. rewrite Hnone. cbv zeta.
  destruct (len (line self) =? 0); [returned|].
  destruct (index (line self) 0) as [c0|]; [simpl|discriminate].
  split_if; [returned|].
  split_if; simpl; [|returned].
  split_if; [returned|].
  destruct (re_match re_fixedLabel (line self)); [returned|].
  destruct (5 <? len (line self)); simpl; [|returned].
  split_if; simpl; [|returned].
  destruct (index (line self) 5) as [c5|]; [simpl|discriminate].
  split_if; returned.
Qed.

Lemma parseLine_rest_steps (self : CodeLine) :
  parseLine_rest self
  = step_finish
      (let r4 := step_comment (step_leftSpace self) in
       if isFreeForm r4 then step_freeCont (step_freeLabel r4) else r4).
Proof. reflexivity. Qed.

(** [parseLine] is the sequence of its steps; no step raises. *)
Lemma parseLine_as_steps (self : CodeLine) :
  parseLine self = Some (parseLine_steps self).
Proof.
  unfold parseLine, parseLine_steps. cbv zeta.
  fold (step_rightSpace self). generalize (step_rightSpace self).
  intro r1. unfold returns_early, char_at_in.
  destruct (Nat.eqb_spec (len (line r1)) 0) as [E|E]; [reflexivity|].
  destruct (@index_lt (line r1) 0) as [c0 E0]; [lia|]. rewrite E0.
  cbn [bind].
  change (char_in c0 ["#"%char]) with (Ascii.eqb c0 "#" || false).
  rewrite orb_false_r.
  destruct (Ascii.eqb c0 "#"); [reflexivity|].
  destruct (isFreeForm r1); cbn [negb andb]; [reflexivity|].
  destruct (char_in c0 ["c"; "C"; "*"; "!"]%char); [reflexivity|].
  unfold step_fixed, fixedCont_test, char_at_in. rewrite E0.
  destruct (re_match re_fixedLabel (line r1)); [reflexivity|].
  change (char_in c0 [tab]) with (Ascii.eqb c0 tab || false).
  rewrite orb_false_r.
  destruct (Nat.ltb_spec 5 (len (line r1))) as [H5|H5];
    cbn [bind andb]; [|reflexivity].
  destruct (@index_lt (line r1) 5) as [c5 E5]; [lia|]. rewrite E5.
  destruct (Ascii.eqb c0 tab); cbn [bind negb andb]; [reflexivity|].
  destruct (char_in c5 [" "; "0"]%char); reflexivity.
Qed.

(** The regions of the second half of the method: a pattern that fails
    leaves its region as it was. *)
Lemma parseLine_rest_regions (X : CodeLine) :
  let r3 := step_leftSpace X in
  let r4 := step_comment r3 in
  let r5 := step_freeLabel r4 in
  let self := parseLine_rest X in
  (re_match re_leftSpace (line X) = None -> leftSpace self = leftSpace X)
  /\ (re_match re_comment (line r3) = None ->
      midSpace self = midSpace X /\ comment self = comment X)
  /\ (re_match re_freeLabel (line r4) = None ->
      freeLabel self = freeLabel X)
  /\ (re_match re_freeCont (line r5) = None ->
      freeContBeg self = freeContBeg X)
  /\ (isFreeForm X = false ->
      freeLabel self = freeLabel X /\ freeContBeg self = freeContBeg X).
Proof.
  cbv zeta. rewrite parseLine_rest_steps.
  unfold step_finish, step_freeCont, step_freeLabel, step_comment,
    step_leftSpace. cbv zeta.
  destruct (re_match re_leftSpace (line X)) as [m1|]; cbn [line set_line
    set_leftSpace];
    (destruct (re_match re_comment _) as [m2|]; cbn [line set_line
       set_comment set_midSpace isFreeForm set_leftSpace]);
    (destruct (isFreeForm X) eqn:Hf; cbn [line set_line];
     [destruct (re_match re_freeLabel _) as [m3|]; cbn [line set_line
        set_freeLabel];
      destruct (re_match re_freeCont _) as [m4|]|]);
    simpl; repeat split; intros; try discriminate; reflexivity.
Qed.

Lemma step_rightSpace_frame (l : str) (free : bool) :
  exists s rs,
    step_rightSpace (CodeLine_init l free)
    = set_line s (set_rightSpace rs (CodeLine_init l free))
    /\ (re_match re_rightSpace l = None -> rs = []).
Proof.
  unfold step_rightSpace. change (line (CodeLine_init l free)) with l.
  destruct (re_match re_rightSpace l) as [m|].
  - exists (group m 1), (group m 2). split; [reflexivity|discriminate].
  - exists l, []. split; [reflexivity|reflexivity].
Qed.

(** C7. [parseLine] returns for every line in either layout, and for every
    state of the record: it is the sequence of its steps and no subscript
    of it is out of range.  On a line of a file each step whose pattern or
    test fails on the text it is given leaves its region empty, and so
    does each step that is not reached: trailing whitespace, label and
    continuation marker of the fixed layout, leading whitespace, comment
    and the whitespace before it, label and leading ampersand of the free
    layout.  [identifyContinuations] returns the lines it was given, in
    their order, with the same regions. *)
Theorem parseLine_identifyContinuations_total :
  (forall self : CodeLine, parseLine self = Some (parseLine_steps self))
  /\ (forall (l : str) (free : bool),
        let r1 := step_rightSpace (CodeLine_init l free) in
        let r2 := if free then r1 else step_fixed r1 in
        let r3 := step_leftSpace r2 in
        let r4 := step_comment r3 in
        let r5 := step_freeLabel r4 in
        exists self,
          parseLine (CodeLine_init l free) = Some self
          /\ (re_match re_rightSpace l = None -> rightSpace self = [])
          /\ (re_match re_fixedLabel (line r1) = None -> fixedLabel self = [])
          /\ (fixedCont_test (line r1) = false -> fixedCont self = [])
          /\ (re_match re_leftSpace (line r2) = None -> leftSpace self = [])
          /\ (re_match re_comment (line r3) = None ->
              midSpace self = [] /\ comment self = [])
          /\ (re_match re_freeLabel (line r4) = None -> freeLabel self = [])
          /\ (re_match re_freeCont (line r5) = None -> freeContBeg self = [])
          /\ (free = true -> fixedLabel self = [] /\ fixedCont self = [])
          /\ (free = false -> freeLabel self = [] /\ freeContBeg self = []))
  /\ (forall codeLines : list CodeLine,
        List.length (identifyContinuations codeLines)
        = List.length codeLines
        /\ map buildFullLine (identifyContinuations codeLines)
           = map buildFullLine codeLines).
Proof.
  split; [exact parseLine_as_steps|]. split.
  - intros l free. cbv zeta.
    exists (parseLine_steps (CodeLine_init l free)).
    split; [apply parseLine_as_steps|].
    unfold parseLine_steps. cbv zeta.
    destruct (step_rightSpace_frame l free) as (s & rs & -> & Hrs).
    set (r1 := set_line s (set_rightSpace rs (CodeLine_init l free))).
    destruct (returns_early r1) as [r|] eqn:Er.
    + (* the method returns before its second half *)
      assert (Hr : r = r1 \/ r = set_preProc (line r1) r1
                   \/ r = set_fixedComment (line r1) r1).
      { unfold returns_early in Er.
        destruct (len (line r1) =? 0); [injection Er as <-; auto|].
        destruct (char_at_in (line r1) 0 ["#"%char]);
          [injection Er as <-; auto|].
        destruct (negb (isFreeForm r1) && _);
          [injection Er as <-; auto|discriminate]. }
      destruct Hr as [-> | [-> | ->]]; simpl; auto 12.
    + (* the second half runs on [r2] *)
      change (isFreeForm r1) with free.
      set (r2 := if free then r1 else step_fixed r1).
      rewrite <- parseLine_rest_steps.
      destruct (parseLine_rest_frame r2) as (F1 & F2 & _ & _ & F5 & F6 & _).
      destruct (parseLine_rest_regions r2) as (G1 & G2 & G3 & G4 & G5).
      cbv zeta in G2, G3, G4.
      assert (Hr2 : rightSpace r2 = rs /\ isFreeForm r2 = free
                    /\ leftSpace r2 = [] /\ midSpace r2 = []
                    /\ comment r2 = [] /\ freeLabel r2 = []
                    /\ freeContBeg r2 = []
                    /\ (re_match re_fixedLabel (line r1) = None ->
                        fixedLabel r2 = [])
                    /\ (fixedCont_test (line r1) = false ->
                        fixedCont r2 = [])
                    /\ (free = true ->
                        fixedLabel r2 = [] /\ fixedCont r2 = [])).
      { unfold r2, step_fixed.
        destruct free; [simpl; auto 12|].
        destruct (re_match re_fixedLabel (line r1)) as [m|];
          [simpl; repeat split; auto; discriminate|].
        destruct (fixedCont_test (line r1));
          simpl; repeat split; auto; discriminate. }
      destruct Hr2 as (R1 & R2 & R3 & R4 & R5 & R6 & R7 & R8 & R9 & R10).
      rewrite F1, F5, F6, R1.
      split; [exact Hrs|]. split; [exact R8|]. split; [exact R9|].
      split; [intro H; now rewrite (G1 H)|].
      split; [intro H; destruct (G2 H) as [-> ->]; auto|].
      split; [intro H; now rewrite (G3 H)|].
      split; [intro H; now rewrite (G4 H)|].
      split; [exact R10|].
      intro Hfree. rewrite <- R2 in Hfree.
      destruct (G5 Hfree) as [-> ->]. auto.
  - intro codeLines. rewrite identifyContinuations_marked.
    split; [apply marked_length|apply marked_buildFullLine].
Qed.

(** ** Continuation lines of the fixed layout *)

(** A text that does not begin like a label is no match of the label
    pattern. *)
Lemma re_fixedLabel_none (x : str) :
  label_at_start x = false -> re_match re_fixedLabel x = None.
Proof.
  intro H. destruct (re_match re_fixedLabel x) as [m|] eqn:E;
    [exfalso|reflexivity].
  apply re_fixedLabel_some in E.
  destruct E as (w & d & b & e & -> & Hw & Hw4 & Hd & Hd1 & Hb & He & _).
  assert (Hs : starts_with_digit d = true).
  { destruct d as [|c d]; [unfold len in Hd1; simpl in Hd1; lia|].
    simpl in Hd |- *. apply andb_true_iff in Hd. tauto. }
  destruct (@label_lead w d (b ++ e) Hw Hs) as [E1 E2].
  unfold label_at_start in H. rewrite E1, E2 in H.
  assert (Hs' : starts_with_digit (d ++ b ++ e) = true)
    by (destruct d; [discriminate|exact Hs]).
  rewrite Hs', andb_true_r in H.
  apply Nat.leb_gt in H. lia.
Qed.

Lemma slice_to_app (n : nat) (x y : str) :
  n <= len x -> slice_to n (x ++ y) = slice_to n x.
Proof.
  unfold slice_to, len. intro H. rewrite firstn_app.
  replace (n - List.length x) with 0 by lia. simpl. apply app_nil_r.
Qed.

(** C4 (as the code has it). A line of a file in fixed layout whose text,
    trailing whitespace apart, has six characters or more, does not begin
    with a tab, [#] or a comment character nor with a label, and has
    neither a blank nor [0] in column 6, is a continuation line: the first
    six characters are its continuation marker. *)
Theorem parseLine_fixedCont (l : str) :
  single_line l = true ->
  let body := rstrip l in
  6 <= len body ->
  char_at_in body 0 [tab; "#"; "c"; "C"; "*"; "!"]%char = false ->
  char_at_in body 5 [" "; "0"]%char = false ->
  label_at_start body = false ->
  exists self,
    parseLine (CodeLine_init l false) = Some self
    /\ isContinuation self = true
    /\ fixedCont self = slice_to 6 l.
Proof.
  intros Hl body. subst body.
  destruct (@parseLine_rightSpace l false Hl) as (rs & El & Hn & H1).
  unfold parseLine. change (line (CodeLine_init l false)) with l.
  rewrite H1. clear H1.
  remember (rstrip l) as body eqn:Eb. clear Eb.
  intros H6 H0 H5 Hlab. simpl.
  destruct (Nat.eqb_spec (len body) 0) as [E|_]; [lia|].
  destruct (@index_lt body 0) as [c0 E0]; [lia|].
  destruct (@index_lt body 5) as [c5 E5]; [lia|].
  unfold char_at_in in H0, H5. rewrite E0 in H0. rewrite E5 in H5.
  simpl in H0, H5.
  apply orb_false_iff in H0. destruct H0 as [Htab H0].
  apply orb_false_iff in H0. destruct H0 as [Hhash H0].
  rewrite E0. simpl. rewrite Hhash, H0.
  rewrite (re_fixedLabel_none body Hlab).
  destruct (Nat.ltb_spec 5 (len body)) as [_|?]; [|lia].
  simpl. rewrite Htab. simpl. rewrite E5. simpl.
  rewrite H5. simpl.
  eexists. split; [reflexivity|].
  destruct (parseLine_rest_frame
              (set_line (slice_from 6 body)
                 (set_isContinuation true
                    (set_fixedCont (slice_to 6 body)
                       (set_line body
                          (set_rightSpace rs (CodeLine_init l false)))))))
    as (_ & _ & _ & _ & _ & Hfc & Hic).
  split; [apply Hic; reflexivity|].
  rewrite Hfc. simpl. rewrite El. symmetry. apply slice_to_app. exact H6.
Qed.

(** The second scenario of the specification. *)
Lemma parseLine_fixedCont_witness :
  exists self,
    parseLine (CodeLine_init (lit "     &  X + 1" ++ [nl]) false) = Some self
    /\ isContinuation self = true
    /\ fixedCont self = lit "     &".
Proof.
  apply (@parseLine_fixedCont (lit "     &  X + 1" ++ [nl]));
    vm_compute; try reflexivity; lia.
Defined.

(** A comment line and a preprocessor line of six characters or more whose
    sixth character is neither blank nor [0]: neither is a continuation
    line. *)
Lemma parseLine_fixedCont_counterexample :
  isContinuation (parsed "C------ tables ------" false) = false
  /\ isContinuation (parsed "#include <defs.h>" false) = false
  /\ ~ fixedCont_claim.
Proof.
  split; [reflexivity|]. split; [reflexivity|].
  intro H.
  destruct (parseLine (CodeLine_init (lit "C------ tables ------") false))
    as [self|] eqn:E; [|vm_compute in E; discriminate].
  assert (Hc : isContinuation self = true
               /\ fixedCont self = slice_to 6 (lit "C------ tables ------")).
  { apply H; [vm_compute; lia|reflexivity|reflexivity|exact E]. }
  destruct Hc as [Hc _].
  vm_compute in E. injection E as <-. discriminate.
Qed.

(** ** Labels of the fixed layout that do not stand in column 1 *)

(** A text is its leading whitespace and what [lstrip] leaves, which does
    not begin with whitespace. *)
Lemma lstrip_split (x : str) :
  exists w,
    x = w ++ lstrip x /\ forallb is_space w = true /\ len w = lead x
    /\ (forall c r, lstrip x = c :: r -> is_space c = false).
Proof.
  induction x as [|c x (w & E & Hw & Hl & Hc)].
  - exists []. repeat split; auto. intros c r H. discriminate.
  - unfold lead in *. simpl. destruct (is_space c) eqn:Ec.
    + exists (c :: w). simpl. rewrite Ec, Hw, <- E. repeat split; auto.
      unfold len in *. simpl.
      assert (List.length (lstrip x) <= List.length x).
      { rewrite E at 2. rewrite length_app. lia. }
      lia.
    + exists []. simpl. repeat split; auto.
      * unfold len. simpl. lia.
      * intros c' r H. injection H as <- _. exact Ec.
Qed.

Lemma rstrip_split (x : str) :
  exists rs, x = rstrip x ++ rs /\ forallb is_space rs = true.
Proof.
  destruct (lstrip_split (rev x)) as (w & E & Hw & _).
  exists (rev w). unfold rstrip. split.
  - rewrite <- rev_app_distr, <- E. symmetry. apply rev_involutive.
  - now rewrite forallb_rev.
Qed.

(** The label pattern matches every text without newline that begins like
    a label. *)
Lemma re_fixedLabel_match (w r : str) (c : ascii) :
  forallb is_space w = true -> len w <= 4 -> is_digit c = true ->
  no_nl r = true ->
  re_match re_fixedLabel (w ++ c :: r) <> None.
Proof.
  intros Hw Hw4 Hc Hr H.
  unfold re_match, re_fixedLabel, plus, lazy_star in H. simpl in H.
  eapply rep_greedy_none with (a := w) (b := c :: r) in H;
    [|reflexivity|exact Hw|lia|exact Hw4].
  eapply rep_greedy_none with (a := [c]) (b := r) in H;
    [|reflexivity|simpl; now rewrite Hc|unfold len; simpl; lia|exact I].
  eapply rep_lazy_none with (a := r) (b := []) in H;
    [|now rewrite app_nil_r|exact Hr|lia|exact I].
  discriminate.
Qed.

Lemma space_not_marker (c : ascii) :
  is_space c = true ->
  Ascii.eqb c "#" = false /\ char_in c ["c"; "C"; "*"; "!"]%char = false.
Proof.
  destruct c as [[] [] [] [] [] [] [] []]; vm_compute; intro H;
    try discriminate; split; reflexivity.
Qed.

(** In fixed layout the whitespace before a statement label belongs to no
    region: a line with such a label is rebuilt without it. *)
Theorem parseLine_indented_label (l : str) :
  single_line l = true ->
  indented_label l = true ->
  exists self,
    parseLine (CodeLine_init l false) = Some self
    /\ buildFullLine self = lstrip l
    /\ buildFullLine self <> l.
Proof.
  intros Hl Hlab.
  destruct (@parseLine_rightSpace l false Hl) as (rs & El & Hn & H1).
  unfold parseLine. change (line (CodeLine_init l false)) with l.
  rewrite H1. clear H1.
  destruct (rstrip_split l) as (rs' & El' & Hrs).
  assert (rs' = rs) by (rewrite El in El' at 1; now apply app_inv_head in El').
  subst rs'. clear El'.
  remember (rstrip l) as body eqn:Eb. clear Eb.
  (* the line is whitespace, a digit and the rest *)
  destruct (lstrip_split l) as (w & Ew & Hw & Hlw & Hnon).
  unfold indented_label, label_at_start in Hlab. rewrite <- Hlw in Hlab.
  apply andb_true_iff in Hlab. destruct Hlab as [Hw1 Hlab].
  apply andb_true_iff in Hlab. destruct Hlab as [Hw4 Hd].
  apply Nat.leb_le in Hw1, Hw4.
  destruct (lstrip l) as [|c r] eqn:Els; [discriminate|]. simpl in Hd.
  (* so is what is left of it without its trailing whitespace *)
  assert (Hbody : exists r', body = w ++ c :: r').
  { assert (Hlen : len w < len body).
    { destruct (Nat.lt_ge_cases (len w) (len body)) as [?|Hge]; [assumption|].
      exfalso.
      assert (Hin : In c rs).
      { assert (E : skipn (len body) l = rs).
        { rewrite El. unfold len. rewrite skipn_app, skipn_all, Nat.sub_diag.
          reflexivity. }
        rewrite <- E, Ew. unfold len in *. rewrite skipn_app.
        apply in_or_app. right.
        replace (List.length body - List.length w) with 0 by lia.
        simpl. now left. }
      rewrite forallb_forall in Hrs. specialize (Hrs c Hin).
      rewrite (digit_not_space c Hd) in Hrs. discriminate. }
    exists (firstn (pred (len body - len w)) r).
    assert (E : firstn (len body) l = body).
    { rewrite El. unfold len. rewrite firstn_app, firstn_all, Nat.sub_diag.
      simpl. apply app_nil_r. }
    rewrite <- E at 1. rewrite Ew. unfold len in *. rewrite firstn_app.
    rewrite firstn_all2 by lia. f_equal.
    destruct (List.length body - List.length w) as [|n] eqn:En; [lia|].
    reflexivity. }
  destruct Hbody as (r' & Ebody).
  destruct w as [|w0 w]; [unfold len in Hw1; simpl in Hw1; lia|].
  simpl in Hw. apply andb_true_iff in Hw. destruct Hw as [Hw0 Hw].
  destruct (space_not_marker w0 Hw0) as [Hhash Hmark].
  assert (E0 : index body 0 = Some w0) by (rewrite Ebody; reflexivity).
  simpl.
  destruct (Nat.eqb_spec (len body) 0) as [E|_];
    [rewrite Ebody in E; discriminate|].
  rewrite E0. simpl. rewrite Hhash. simpl in Hmark. rewrite Hmark.
  destruct (re_match re_fixedLabel body) as [m|] eqn:Em.
  - apply re_fixedLabel_some in Em.
    destruct Em as (w' & d & b & e & Ebody' & Hw' & Hw4' & Hd' & Hd1 & Hb & He
                    & ->).
    assert (e = []) as ->.
    { rewrite Ebody', !app_assoc in Hn. exact (no_nl_eol _ _ Hn He). }
    rewrite app_nil_r in Ebody'. simpl.
    eexists. split; [reflexivity|].
    rewrite parseLine_rest_build; simpl; auto.
    assert (Hs : starts_with_digit d = true).
    { destruct d as [|c' d]; [unfold len in Hd1; simpl in Hd1; lia|].
      simpl in Hd' |- *. apply andb_true_iff in Hd'. tauto. }
    destruct (@label_lead w' d (b ++ rs) Hw' Hs) as [E1 _].
    assert (El2 : l = w' ++ d ++ b ++ rs).
    { rewrite El, Ebody', <- !app_assoc. reflexivity. }
    rewrite El2 in Els. rewrite E1 in Els.
    split; [exact Els|].
    rewrite Els. intro Habs.
    apply (f_equal (@List.length ascii)) in Habs.
    rewrite Ew in Habs. rewrite length_app in Habs. simpl in Habs. lia.
  - exfalso. rewrite Ebody in Em, Hn.
    apply (@re_fixedLabel_match (w0 :: w) r' c); auto.
    + simpl. now rewrite Hw0, Hw.
    + change (w0 :: w ++ c :: r') with ((w0 :: w) ++ c :: r') in Hn.
      apply no_nl_app in Hn.
      destruct Hn as [_ Hn]. simpl in Hn. apply andb_true_iff in Hn. tauto.
Qed.

(** The labelled statement again. *)
Lemma parseLine_indented_label_witness :
  exists self,
    parseLine (CodeLine_init (lit "   10 CONTINUE" ++ [nl]) false) = Some self
    /\ buildFullLine self = lit "10 CONTINUE" ++ [nl]
    /\ buildFullLine self <> lit "   10 CONTINUE" ++ [nl].
Proof.
  apply (@parseLine_indented_label (lit "   10 CONTINUE" ++ [nl]));
    reflexivity.
Defined.

(** ** Comment lines of the fixed layout *)

(** [convertFixedToFree] turns a comment line of the fixed layout whose
    text, the marker in column 1 apart, is not blank into a trailing comment
    of the free layout: [! ] and that text without its leading whitespace.
    The fixed comment region is emptied and the code region is untouched. *)
Theorem convertFixedToFree_comment (self : CodeLine) :
  isFreeForm self = false ->
  fixedComment self <> [] ->
  let text := lstrip (slice_from 1 (fixedComment self)) in
  text <> [] ->
  comment (convertFixedToFree self) = lit "! " ++ text
  /\ fixedComment (convertFixedToFree self) = []
  /\ isFreeForm (convertFixedToFree self) = true
  /\ code (convertFixedToFree self) = code self.
Proof.
  intros Hfree Hfc text Htext.
  apply nonempty_true in Hfc, Htext.
  unfold convertFixedToFree. rewrite Hfree.
  change (fixedComment (set_isFreeForm true self)) with (fixedComment self).
  rewrite Hfc. fold text. rewrite Htext. auto.
Qed.

(** The third scenario of the specification. *)
Lemma convertFixedToFree_comment_witness :
  comment (convertFixedToFree (parsed "C this is a note" false))
  = lit "! this is a note"
  /\ code (convertFixedToFree (parsed "C this is a note" false)) = [].
Proof.
  destruct (@convertFixedToFree_comment (parsed "C this is a note" false))
    as (Hc & _ & _ & Hcode);
    [reflexivity|vm_compute; discriminate|vm_compute; discriminate|].
  split; [rewrite Hc|rewrite Hcode]; reflexivity.
Defined.

(** The first scenario of the specification: the statement after an
    [IF ... THEN] is indented one unit deeper. *)
Example fixIndentation_after_if :
  map (fun self => (leftSpace self, fixedLabel self ++ fixedCont self,
                    code self))
    (fixIndentation (lit "  ") 2
       (identifyContinuations
          [parsed "      IF(X.GT.0)THEN" false; parsed "      Y = 1" false]))
  = [([], [], lit "IF(X.GT.0)THEN"); (lit "  ", [], lit "Y = 1")].
Proof. vm_compute. reflexivity. Qed.

(** ** Freshly parsed lines *)

Lemma parseLine_rest_isContinued (self : CodeLine) :
  isContinued (parseLine_rest self) = isContinued self.
Proof.
  unfold parseLine_rest. cbv zeta.
  simpl; repeat (split_match; simpl); auto.
Qed.

(** [parseLine] does not touch [isContinued]: on the lines of a file that
    was just parsed it is false, as [identifyContinuations] expects. *)
Theorem parseLine_isContinued (self self' : CodeLine) :
  parseLine self = Some self' -> isContinued self' = isContinued self.
Proof.
  unfold parseLine. cbv zeta.
  match goal with
  | |- context [len (line ?s) =? 0] =>
      assert (Hs : isContinued s = isContinued self)
        by (destruct (re_match re_rightSpace (line self)); reflexivity);
      revert Hs; generalize s; intros self1 Hs
  end.
  assert (Hret : forall x, isContinued x = isContinued self1 ->
                   Some x = Some self' ->
                   isContinued self' = isContinued self).
  { intros x Hx H. injection H as <-. congruence. }
  assert (Hrest : forall x, isContinued x = isContinued self1 ->
                    Some (parseLine_rest x) = Some self' ->
                    isContinued self' = isContinued self).
  { intros x Hx. apply Hret. now rewrite parseLine_rest_isContinued. }
  destruct (len (line self1) =? 0); [now apply Hret|].
  destruct (index (line self1) 0) as [c0|]; [simpl|discriminate].
  split_if; [now apply Hret|].
  split_if; simpl; [|now apply Hrest].
  split_if; [now apply Hret|].
  destruct (re_match re_fixedLabel (line self1)); [now apply Hrest|].
  destruct (5 <? len (line self1)); simpl; [|now apply Hrest].
  split_if; simpl; [|now apply Hrest].
  destruct (index (line self1) 5) as [c5|]; [simpl|discriminate].
  split_if; now apply Hrest.
Qed.


(** A statement of the fixed layout, just parsed. *)
Lemma parseLine_isContinued_witness :
  exists self,
    parseLine (CodeLine_init (lit "      X = 1") false) = Some self
    /\ isContinued self = false.
Proof.
  destruct (parseLine (CodeLine_init (lit "      X = 1") false))
    as [self|] eqn:E; [|vm_compute in E; discriminate].
  exists self. split; [reflexivity|].
  exact (@parseLine_isContinued _ _ E).
Defined.

(** ** The patterns of [parseLine], exactly *)

(** The tail [ (.*?) $ ] of the patterns takes any text without newline. *)
Lemma dot_eol_some (pv : option ascii) (b : str) (cs : captures)
    (f : str -> captures -> captures) :
  no_nl b = true ->
  rep_lazy is_dot 0 None pv b cs
    (fun _ s' cs' => if at_eol s' then Some (f s' cs') else None) <> None.
Proof.
  intros Hb H.
  eapply rep_lazy_none with (a := b) (b := []) in H;
    [|now rewrite app_nil_r|exact Hb|lia|exact I].
  discriminate.
Qed.

Lemma no_nl_cons (c : ascii) (x : str) :
  no_nl (c :: x) = true -> no_nl x = true.
Proof. simpl. intro H. apply andb_true_iff in H. tauto. Qed.

Lemma firstn_len_nil (b : str) : firstn (len b - len []) b = b.
Proof. unfold len. simpl. rewrite Nat.sub_0_r. apply firstn_all. Qed.

Lemma leftSpace_exact (s : str) :
  no_nl s = true ->
  exists ls s',
    s = ls ++ s' /\ no_nl s' = true /\ forallb is_space ls = true
    /\ starts_nonspace s'
    /\ match re_match re_leftSpace s with
       | Some m => m = [(2, s'); (1, ls)]
       | None => ls = [] /\ s' = s
       end.
Proof.
  intro Hs. unfold re_match, re_leftSpace, plus, lazy_star. simpl.
  match goal with
  | |- context [match ?x with Some _ => _ | None => _ end] =>
      destruct x as [m|] eqn:H
  end.
  - apply rep_greedy_some in H.
    destruct H as (a & s1 & -> & Ha & Hlo & _ & Hk & Hmax).
    apply rep_lazy_some in Hk.
    destruct Hk as (b & e & -> & Hb & _ & _ & Hk & _).
    destruct (at_eol e) eqn:He; [|discriminate]. injection Hk as <-.
    assert (e = []) as ->.
    { rewrite !app_assoc in Hs. exact (no_nl_eol _ _ Hs He). }
    rewrite app_nil_r in *. rewrite !firstn_len_app, ?firstn_len_nil.
    exists a, b. repeat split; auto.
    intros c r -> . destruct (is_space c) eqn:Hc; [exfalso|reflexivity].
      assert (Hlen : len a < len (a ++ [c]))
        by (unfold len; rewrite length_app; simpl; lia).
      specialize (Hmax (a ++ [c]) r).
      rewrite <- app_assoc in Hmax. specialize (Hmax eq_refl).
      rewrite forallb_app, Ha in Hmax. simpl in Hmax. rewrite Hc in Hmax.
      specialize (Hmax eq_refl I Hlen).
      apply no_nl_app in Hs. destruct Hs as [_ Hs]. apply no_nl_cons in Hs.
      exact (dot_eol_some _ _ _ _ Hs Hmax).
  - exists [], s. repeat split; auto.
    intros c r ->. destruct (is_space c) eqn:Hc; [exfalso|reflexivity].
    eapply rep_greedy_none with (a := [c]) (b := r) in H;
      [|reflexivity|simpl; now rewrite Hc|unfold len; simpl; lia|exact I].
    apply no_nl_cons in Hs. exact (dot_eol_some _ _ _ _ Hs H).
Qed.

Lemma no_bang_false (x : str) :
  no_bang x = false -> exists a1 a2, x = a1 ++ "!"%char :: a2.
Proof.
  induction x as [|c x IH]; simpl; [discriminate|].
  destruct (Ascii.eqb_spec c "!") as [->|_]; simpl.
  - intros _. exists [], x. reflexivity.
  - intro H. destruct (IH H) as (a1 & a2 & ->). exists (c :: a1), a2.
    reflexivity.
Qed.

Lemma starts_nonspace_prefix (a b : str) :
  starts_nonspace (a ++ b) -> starts_nonspace a.
Proof. intros H c r ->. exact (H c (r ++ b) eq_refl). Qed.

Lemma ends_nonspace_suffix (a b : str) :
  ends_nonspace (a ++ b) -> ends_nonspace b.
Proof.
  intros H x c ->. apply (H (a ++ x) c). now rewrite app_assoc.
Qed.

(** The comment pattern takes a text that begins with [!] and holds no
    newline: [H] says it does not. *)
Ltac bang_contra H Hrest :=
  eapply rep_greedy_none with (a := []) in H;
    [|reflexivity|reflexivity|lia|exact I];
  simpl in H; exact (dot_eol_some _ _ _ _ Hrest H).

Lemma comment_exact (s : str) :
  no_nl s = true ->
  exists s' ms cm,
    s = s' ++ ms ++ cm /\ no_nl s' = true /\ forallb is_space ms = true
    /\ no_bang s' = true
    /\ (cm = [] -> ms = [])
    /\ (cm = [] \/ exists c, cm = "!"%char :: c)
    /\ (cm <> [] -> ends_nonspace s')
    /\ match re_match re_comment s with
       | Some m => m = [(3, cm); (2, ms); (1, s')]
       | None => s' = s /\ ms = [] /\ cm = []
       end.
Proof.
  intro Hs. unfold re_match, re_comment, star, lazy_star. simpl.
  match goal with
  | |- context [match ?x with Some _ => _ | None => _ end] =>
      destruct x as [m|] eqn:H
  end.
  - apply rep_lazy_some in H.
    destruct H as (a & s1 & -> & Ha & _ & _ & Hk & Hmin).
    apply rep_greedy_some in Hk.
    destruct Hk as (w & s2 & -> & Hw & _ & _ & Hk & _).
    destruct s2 as [|x s3]; [discriminate|].
    destruct (is_chr "!" x) eqn:Hx; [|discriminate].
    apply is_chr_eq in Hx. subst x.
    apply rep_lazy_some in Hk.
    destruct Hk as (c & e & -> & Hc & _ & _ & Hk & _).
    destruct (at_eol e) eqn:He; [|discriminate]. injection Hk as <-.
    assert (e = []) as ->.
    { change ("!"%char :: c ++ e) with (("!"%char :: c) ++ e) in Hs.
      rewrite !app_assoc in Hs. exact (no_nl_eol _ _ Hs He). }
    rewrite app_nil_r in *. rewrite !firstn_len_app, ?firstn_len_nil.
    assert (Hrest : no_nl (w ++ "!"%char :: c) = true)
      by (apply no_nl_app in Hs; tauto).
    exists a, w, ("!"%char :: c). repeat split; auto.
    + destruct (no_bang a) eqn:Hbang; [reflexivity|exfalso].
      destruct (no_bang_false _ Hbang) as (a1 & a2 & ->).
      assert (Hlen : len a1 < len (a1 ++ "!"%char :: a2))
        by (unfold len; rewrite length_app; simpl; lia).
      specialize (Hmin a1 ("!"%char :: a2 ++ w ++ "!"%char :: c)).
      rewrite <- app_assoc in Hmin.
      specialize (Hmin eq_refl ltac:(lia) Hlen).
      assert (Hr : no_nl (a2 ++ w ++ "!"%char :: c) = true).
      { apply no_nl_app in Ha. destruct Ha as [_ Ha]. apply no_nl_cons in Ha.
        apply no_nl_app. split; assumption. }
      bang_contra Hmin Hr.
    + discriminate.
    + right. now exists c.
    + intros _ a0 x ->. destruct (is_space x) eqn:Hsp; [exfalso|reflexivity].
      assert (Hlen : len a0 < len (a0 ++ [x]))
        by (unfold len; rewrite length_app; simpl; lia).
      specialize (Hmin a0 (x :: w ++ "!"%char :: c)).
      rewrite <- app_assoc in Hmin.
      specialize (Hmin eq_refl ltac:(lia) Hlen).
      eapply rep_greedy_none with (a := x :: w) (b := "!"%char :: c) in Hmin;
        [|reflexivity|simpl; now rewrite Hsp, Hw|lia|exact I].
      simpl in Hmin.
      apply no_nl_app in Hrest. destruct Hrest as [_ Hrest].
      apply no_nl_cons in Hrest.
      exact (dot_eol_some _ _ _ _ Hrest Hmin).
  - exists s, [], []. rewrite app_nil_r. repeat split; auto.
    + destruct (no_bang s) eqn:Hbang; [reflexivity|exfalso].
      destruct (no_bang_false _ Hbang) as (a1 & a2 & ->).
      apply no_nl_app in Hs. destruct Hs as [Ha1 Ha2].
      apply no_nl_cons in Ha2.
      eapply rep_lazy_none with (a := a1) (b := "!"%char :: a2) in H;
        [|reflexivity|exact Ha1|lia|exact I].
      bang_contra H Ha2.
    + intro Habs. now elim Habs.
Qed.

Lemma freeLabel_exact (s : str) :
  no_nl s = true ->
  exists fl s',
    s = fl ++ s' /\ no_nl s' = true
    /\ (fl = [] \/ exists d w, fl = d ++ w /\ forallb is_digit d = true
                              /\ 1 <= len d /\ forallb is_space w = true
                              /\ 1 <= len w)
    /\ (fl <> [] -> starts_nonspace s')
    /\ match re_match re_freeLabel s with
       | Some m => m = [(2, s'); (1, fl)]
       | None => fl = [] /\ s' = s
       end.
Proof.
  intro Hs. unfold re_match, re_freeLabel, plus, lazy_star. simpl.
  match goal with
  | |- context [match ?x with Some _ => _ | None => _ end] =>
      destruct x as [m|] eqn:H
  end.
  - apply rep_greedy_some in H.
    destruct H as (d & s1 & -> & Hd & Hld & _ & Hk & _).
    apply rep_greedy_some in Hk.
    destruct Hk as (w & s2 & -> & Hw & Hlw & _ & Hk & Hmax).
    apply rep_lazy_some in Hk.
    destruct Hk as (b & e & -> & Hb & _ & _ & Hk & _).
    destruct (at_eol e) eqn:He; [|discriminate]. injection Hk as <-.
    assert (e = []) as ->.
    { rewrite !app_assoc in Hs. exact (no_nl_eol _ _ Hs He). }
    rewrite app_nil_r in *. rewrite ?firstn_len_nil.
    rewrite (app_assoc d w b), firstn_len_app.
    exists (d ++ w), b. repeat split; auto.
    + right. exists d, w. auto.
    + intros _ c r ->. destruct (is_space c) eqn:Hc; [exfalso|reflexivity].
      assert (Hlen : len w < len (w ++ [c]))
        by (unfold len; rewrite length_app; simpl; lia).
      specialize (Hmax (w ++ [c]) r).
      rewrite <- app_assoc in Hmax. specialize (Hmax eq_refl).
      rewrite forallb_app, Hw in Hmax. simpl in Hmax. rewrite Hc in Hmax.
      specialize (Hmax eq_refl I Hlen).
      apply no_nl_cons in Hb.
      exact (dot_eol_some _ _ _ _ Hb Hmax).
  - exists [], s. repeat split; auto. intro Habs. now elim Habs.
Qed.

Lemma freeCont_exact (s : str) :
  no_nl s = true ->
  exists fc s',
    s = fc ++ s' /\ no_nl s' = true
    /\ (fc = [] \/ exists w, fc = "&"%char :: w
                            /\ forallb is_space w = true)
    /\ (fc <> [] -> starts_nonspace s')
    /\ match re_match re_freeCont s with
       | Some m => m = [(2, s'); (1, fc)] /\ nonempty fc = true
       | None => fc = [] /\ s' = s
       end.
Proof.
  intro Hs. unfold re_match, re_freeCont, star, lazy_star. simpl.
  match goal with
  | |- context [match ?x with Some _ => _ | None => _ end] =>
      destruct x as [m|] eqn:H
  end.
  - destruct s as [|x s0]; [discriminate|].
    destruct (is_chr "&" x) eqn:Hx; [|discriminate].
    apply is_chr_eq in Hx. subst x.
    apply rep_greedy_some in H.
    destruct H as (w & s1 & -> & Hw & _ & _ & Hk & Hmax).
    apply rep_lazy_some in Hk.
    destruct Hk as (b & e & -> & Hb & _ & _ & Hk & _).
    destruct (at_eol e) eqn:He; [|discriminate]. injection Hk as <-.
    assert (e = []) as ->.
    { apply no_nl_cons in Hs. rewrite app_assoc in Hs.
      exact (no_nl_eol _ _ Hs He). }
    rewrite app_nil_r in *. rewrite ?firstn_len_nil.
    change ("&"%char :: w ++ b) with (("&"%char :: w) ++ b).
    rewrite firstn_len_app.
    exists ("&"%char :: w), b. repeat split; auto.
    + right. exists w. auto.
    + intros _ c r ->. destruct (is_space c) eqn:Hc; [exfalso|reflexivity].
      assert (Hlen : len w < len (w ++ [c]))
        by (unfold len; rewrite length_app; simpl; lia).
      specialize (Hmax (w ++ [c]) r).
      rewrite <- app_assoc in Hmax. specialize (Hmax eq_refl).
      rewrite forallb_app, Hw in Hmax. simpl in Hmax. rewrite Hc in Hmax.
      specialize (Hmax eq_refl I Hlen).
      apply no_nl_cons in Hb.
      exact (dot_eol_some _ _ _ _ Hb Hmax).
  - exists [], s. repeat split; auto. intro Habs. now elim Habs.
Qed.

(** ** The record that [parseLine] leaves *)

Lemma no_bang_app (a b : str) :
  no_bang (a ++ b) = true <-> no_bang a = true /\ no_bang b = true.
Proof. unfold no_bang. rewrite forallb_app. apply andb_true_iff. Qed.

(** The second half of [parseLine] cuts the text it is given into six
    regions, in this order, and fills the record with them. *)
Lemma parseLine_rest_shape (X : CodeLine) :
  no_nl (line X) = true ->
  leftSpace X = [] -> freeLabel X = [] -> freeContBeg X = [] ->
  midSpace X = [] -> comment X = [] ->
  exists ls fl fc cd ms cm,
    line X = ls ++ fl ++ fc ++ cd ++ ms ++ cm
    /\ parseLine_rest X = rest_result X ls fl fc cd ms cm
    /\ regions_ok (isFreeForm X) ls fl fc cd ms cm
    /\ (ends_nonspace (line X) -> ends_nonspace cd)
    /\ no_nl cd = true.
Proof.
  destruct X as [free rem ln ocl pp ls0 cd0 ms0 cm0 rs fcm fl0 fc0 frl fcb
                 fce icd icn].
  simpl. intros Hn -> -> -> -> ->.
  destruct (leftSpace_exact ln Hn) as (ls & s1 & E1 & Hn1 & Hls & Hst1 & Hm1).
  destruct (comment_exact s1 Hn1)
    as (s2 & ms & cm & E2 & Hn2 & Hms & Hnb & Hcm0 & Hcm & Hend & Hm2).
  assert (Hst2 : starts_nonspace s2).
  { rewrite E2 in Hst1. exact (@starts_nonspace_prefix _ _ Hst1). }
  assert (Hend2 : ends_nonspace ln -> ends_nonspace s2).
  { intro H. destruct cm as [|c cm].
    - rewrite (Hcm0 eq_refl) in E2. rewrite !app_nil_r in E2. subst s1.
      rewrite E1 in H. exact (@ends_nonspace_suffix _ _ H).
    - apply Hend. discriminate. }
  destruct free.
  - destruct (freeLabel_exact s2 Hn2) as (fl & s3 & E3 & Hn3 & Hfl & Hst3 & Hm3).
    destruct (freeCont_exact s3 Hn3) as (fc & s4 & E4 & Hn4 & Hfc & Hst4 & Hm4).
    exists ls, fl, fc, s4, ms, cm. split; [|split; [|split; [|split]]].
    + subst ln s1 s2 s3. now rewrite <- !app_assoc.
    + unfold parseLine_rest, rest_result. simpl.
      destruct (re_match re_leftSpace ln);
        [rewrite Hm1|destruct Hm1 as [Hm1 Hm1']; rewrite <- Hm1', Hm1];
        simpl.
      all: destruct (re_match re_comment s1);
        [rewrite Hm2
        |destruct Hm2 as (Hm2 & Hm2' & Hm2''); rewrite <- Hm2, Hm2', Hm2''];
        simpl.
      all: destruct (re_match re_freeLabel s2);
        [rewrite Hm3|destruct Hm3 as [Hm3 Hm3']; rewrite <- Hm3', Hm3];
        simpl.
      all: destruct (re_match re_freeCont s3);
        [destruct Hm4 as [Hm4 Hne]; rewrite Hm4; simpl;
         rewrite Hne, orb_true_r
        |destruct Hm4 as [Hm4 Hm4']; rewrite <- Hm4', Hm4; simpl;
         rewrite orb_false_r].
      all: reflexivity.
    + unfold regions_ok. repeat split; auto; try discriminate.
      * rewrite E3, E4 in Hnb. apply no_bang_app in Hnb.
        destruct Hnb as [_ Hnb]. apply no_bang_app in Hnb. tauto.
      * destruct fc as [|c fc].
        -- simpl in E4. subst s4. destruct fl as [|c fl].
           ++ simpl in E3. now subst s3.
           ++ apply Hst3. discriminate.
        -- apply Hst4. discriminate.
    + intro H. apply Hend2 in H. rewrite E3, E4 in H.
      apply ends_nonspace_suffix in H. exact (@ends_nonspace_suffix _ _ H).
    + exact Hn4.
  - exists ls, [], [], s2, ms, cm. split; [|split; [|split; [|split]]].
    + subst ln s1. reflexivity.
    + unfold parseLine_rest, rest_result. simpl.
      destruct (re_match re_leftSpace ln);
        [rewrite Hm1|destruct Hm1 as [Hm1 Hm1']; rewrite <- Hm1', Hm1];
        simpl.
      all: destruct (re_match re_comment s1);
        [rewrite Hm2
        |destruct Hm2 as (Hm2 & Hm2' & Hm2''); rewrite <- Hm2, Hm2', Hm2''];
        simpl.
      all: rewrite orb_false_r; reflexivity.
    + unfold regions_ok. repeat split; auto.
    + exact Hend2.
    + exact Hn2.
Qed.

Lemma rstrip_ends (x : str) : ends_nonspace (rstrip x).
Proof.
  intros x0 c E. unfold rstrip in E.
  destruct (lstrip_split (rev x)) as (_ & _ & _ & _ & Hnon).
  apply (Hnon c (rev x0)).
  apply (f_equal (@rev ascii)) in E. rewrite rev_involutive in E.
  rewrite E, rev_app_distr. reflexivity.
Qed.

(** [parseLine] on a line of a file, path by path: an empty line, a
    preprocessor line, a comment line of the fixed layout and, on the
    three paths that reach its second half, a statement line. *)
Lemma parseLine_shape (l : str) (free : bool) :
  single_line l = true ->
  exists rs self,
    l = rstrip l ++ rs /\ forallb is_space rs = true
    /\ parseLine (CodeLine_init l free) = Some self
    /\ let body := rstrip l in
       let base := set_line body (set_rightSpace rs (CodeLine_init l free)) in
       (body = [] /\ self = base)
       \/ ((exists r, body = "#"%char :: r) /\ self = set_preProc body base)
       \/ (free = false
           /\ char_at_in body 0 ["c"; "C"; "*"; "!"]%char = true
           /\ self = set_fixedComment body base)
       \/ (exists X ls fl fc cd ms cm,
             self = rest_result X ls fl fc cd ms cm
             /\ line X = ls ++ fl ++ fc ++ cd ++ ms ++ cm
             /\ regions_ok free ls fl fc cd ms cm
             /\ ends_nonspace cd /\ no_nl cd = true
             /\ (X = base
                 \/ (free = false
                     /\ exists w d b,
                          body = w ++ d ++ b
                          /\ forallb is_space w = true /\ len w <= 4
                          /\ forallb is_digit d = true /\ 1 <= len d
                          /\ X = set_line b (set_fixedLabel d base))
                 \/ (free = false /\ 6 <= len body
                     /\ X = set_line (slice_from 6 body)
                              (set_isContinuation true
                                 (set_fixedCont (slice_to 6 body) base))))).
Proof.
  intro Hl.
  destruct (@parseLine_rightSpace l free Hl) as (rs & El & Hn & H1).
  destruct (rstrip_split l) as (rs' & El' & Hrs).
  assert (rs' = rs) by (rewrite El in El' at 1; now apply app_inv_head in El').
  subst rs'. clear El'.
  pose proof (rstrip_ends l) as Hends.
  exists rs. unfold parseLine. change (line (CodeLine_init l free)) with l.
  rewrite H1. clear H1.
  remember (rstrip l) as body eqn:Eb. clear Eb. cbv zeta.
  set (base := set_line body (set_rightSpace rs (CodeLine_init l free))).
  change (line base) with body.
  (* the second half of the method on a record [X] cut out of [base] *)
  assert (Hrest : forall X,
             no_nl (line X) = true -> ends_nonspace (line X) ->
             leftSpace X = [] -> freeLabel X = [] -> freeContBeg X = [] ->
             midSpace X = [] -> comment X = [] -> isFreeForm X = free ->
             exists ls fl fc cd ms cm,
               parseLine_rest X = rest_result X ls fl fc cd ms cm
               /\ line X = ls ++ fl ++ fc ++ cd ++ ms ++ cm
               /\ regions_ok free ls fl fc cd ms cm
               /\ ends_nonspace cd /\ no_nl cd = true).
  { intros X HX1 HX2 HX3 HX4 HX5 HX6 HX7 HX8.
    destruct (parseLine_rest_shape X HX1 HX3 HX4 HX5 HX6 HX7)
      as (ls & fl & fc & cd & ms & cm & E & Hr & Hok & He & Hnn).
    rewrite HX8 in Hok. exists ls, fl, fc, cd, ms, cm. auto 10. }
  destruct (Nat.eqb_spec (len body) 0) as [E|E].
  { apply len_zero in E. eexists. repeat split; auto. }
  destruct (@index_lt body 0) as [c0 E0]; [lia|]. rewrite E0. simpl.
  destruct (Ascii.eqb_spec c0 "#") as [->|Hhash].
  { eexists. repeat split; auto. right. left. split; [|reflexivity].
    destruct body as [|c b]; [discriminate|]. injection E0 as ->.
    now exists b. }
  destruct free; simpl.
  { destruct (Hrest base) as (ls & fl & fc & cd & ms & cm & Hr & Hrest');
      auto.
    eexists. repeat split; auto. right. right. right.
    exists base, ls, fl, fc, cd, ms, cm. rewrite Hr. tauto. }
  match goal with
  | |- context [if ?b then _ else _] => destruct b eqn:Hmark
  end.
  { eexists. repeat split; auto. right. right. left.
    unfold char_at_in. rewrite E0. simpl. auto. }
  destruct (re_match re_fixedLabel body) as [m|] eqn:Elab.
  - apply re_fixedLabel_some in Elab.
    destruct Elab as (w & d & b & e & Eb & Hw & Hw4 & Hd & Hd1 & Hb & He & ->).
    assert (e = []) as ->.
    { rewrite Eb, !app_assoc in Hn. exact (no_nl_eol _ _ Hn He). }
    rewrite app_nil_r in Eb. simpl.
    destruct (Hrest (set_line b (set_fixedLabel d base)))
      as (ls & fl & fc & cd & ms & cm & Hr & Hrest'); auto.
    { simpl. rewrite Eb, !app_assoc in Hends.
      exact (@ends_nonspace_suffix _ _ Hends). }
    eexists. repeat split; auto. right. right. right.
    exists (set_line b (set_fixedLabel d base)), ls, fl, fc, cd, ms, cm.
    destruct Hrest' as (Hline & Hok & He' & Hnn).
    refine (conj Hr (conj Hline (conj Hok (conj He' (conj Hnn _))))).
    right. left. split; [reflexivity|]. exists w, d, b. auto 10.
  - assert (Hplain :
      exists self,
        Some (parseLine_rest base) = Some self
        /\ ((body = [] /\ self = base)
            \/ ((exists r, body = "#"%char :: r)
                /\ self = set_preProc body base)
            \/ (false = false
                /\ char_at_in body 0 ["c"; "C"; "*"; "!"]%char = true
                /\ self = set_fixedComment body base)
            \/ (exists X ls fl fc cd ms cm,
                  self = rest_result X ls fl fc cd ms cm
                  /\ line X = ls ++ fl ++ fc ++ cd ++ ms ++ cm
                  /\ regions_ok false ls fl fc cd ms cm
                  /\ ends_nonspace cd /\ no_nl cd = true
                  /\ (X = base
                      \/ (false = false
                          /\ exists w d b,
                               body = w ++ d ++ b
                               /\ forallb is_space w = true /\ len w <= 4
                               /\ forallb is_digit d = true /\ 1 <= len d
                               /\ X = set_line b (set_fixedLabel d base))
                      \/ (false = false /\ 6 <= len body
                          /\ X = set_line (slice_from 6 body)
                                   (set_isContinuation true
                                      (set_fixedCont (slice_to 6 body)
                                         base))))))).
    { destruct (Hrest base) as (ls & fl & fc & cd & ms & cm & Hr & Hrest');
        auto.
      eexists. split; [reflexivity|]. right. right. right.
      exists base, ls, fl, fc, cd, ms, cm. rewrite Hr. tauto. }
    destruct (Nat.ltb_spec 5 (len body)) as [H5|H5]; simpl;
      [|destruct Hplain as (self & Hs & Hc); exists self; auto].
    destruct (Ascii.eqb c0 tab); simpl;
      [destruct Hplain as (self & Hs & Hc); exists self; auto|].
    destruct (@index_lt body 5) as [c5 E5]; [lia|]. rewrite E5. simpl.
    match goal with
    | |- context [if ?b then _ else _] => destruct b
    end; [|destruct Hplain as (self & Hs & Hc); exists self; auto].
    destruct (Hrest (set_line (slice_from 6 body)
                       (set_isContinuation true
                          (set_fixedCont (slice_to 6 body) base))))
      as (ls & fl & fc & cd & ms & cm & Hr & Hrest'); auto.
    { simpl. apply no_nl_skipn. exact Hn. }
    { simpl. unfold slice_from. rewrite <- (firstn_skipn 6 body) in Hends.
      exact (@ends_nonspace_suffix _ _ Hends). }
    eexists. repeat split; auto. right. right. right.
    eexists _, ls, fl, fc, cd, ms, cm.
    destruct Hrest' as (Hline & Hok & He' & Hnn).
    refine (conj Hr (conj Hline (conj Hok (conj He' (conj Hnn _))))).
    right. right. repeat split; auto.
Qed.

(** ** Invariants of the parsed record *)

(** Case analysis on the path that [parseLine] took, from [H], the equation
    of its result, and [Hl], that the line is a line of a file. *)
Ltac parse_paths l free Hl H :=
  let rs := fresh "rs" in
  let self' := fresh "self'" in
  let El := fresh "El" in
  let Hrs := fresh "Hrs" in
  let Hp := fresh "Hp" in
  let Hc := fresh "Hc" in
  destruct (parseLine_shape l free Hl) as (rs & self' & El & Hrs & Hp & Hc);
  rewrite Hp in H; injection H as <-; cbv zeta in Hc;
  destruct Hc
    as [[?Hbody ->]
       |[[[?r ?Hbody] ->]
        |[(?Hfree & ?Hmark & ->)
         |(?X & ?ls & ?fl & ?fc & ?cd & ?ms & ?cm & -> & ?Hline & ?Hok & ?Hend
           & ?Hnonl & ?HX)]]].

(** The three records that reach the second half of the method. *)
Ltac rest_paths HX :=
  destruct HX
    as [->
       |[(?Hfree & ?w & ?d & ?b & ?Ebody & ?Hw & ?Hw4 & ?Hd & ?Hd1 & ->)
        |(?Hfree & ?H6 & ->)]].

Lemma ends_nonspace_nil : ends_nonspace [].
Proof. intros x c E. destruct x; discriminate. Qed.

Lemma starts_nonspace_nil : starts_nonspace [].
Proof. intros c r E. discriminate. Qed.

(** The code region of a parsed line holds no [!] and no newline and has
    whitespace neither at its start nor at its end. *)
Theorem parseLine_code_clean (l : str) (free : bool) (self : CodeLine) :
  single_line l = true ->
  parseLine (CodeLine_init l free) = Some self ->
  no_bang (code self) = true
  /\ no_nl (code self) = true
  /\ starts_nonspace (code self)
  /\ ends_nonspace (code self).
Proof.
  intros Hl H. parse_paths l free Hl H; simpl;
    auto using ends_nonspace_nil, starts_nonspace_nil.
  unfold regions_ok in Hok. tauto.
Qed.

Lemma parseLine_code_clean_witness :
  exists self,
    parseLine (CodeLine_init (lit "   10 X = 'Hi!'  ! greet  " ++ [nl]) false)
    = Some self
    /\ no_bang (code self) = true
    /\ no_nl (code self) = true
    /\ starts_nonspace (code self)
    /\ ends_nonspace (code self).
Proof.
  eexists. split; [vm_compute; reflexivity|].
  apply (@parseLine_code_clean
           (lit "   10 X = 'Hi!'  ! greet  " ++ [nl]) false);
    vm_compute; reflexivity.
Defined.

(** The whitespace regions of a parsed line hold whitespace only, the
    comment region is empty or starts with [!], and there is whitespace
    between code and comment only when there is a comment. *)
Theorem parseLine_regions_kind (l : str) (free : bool) (self : CodeLine) :
  single_line l = true ->
  parseLine (CodeLine_init l free) = Some self ->
  forallb is_space (leftSpace self) = true
  /\ forallb is_space (midSpace self) = true
  /\ forallb is_space (rightSpace self) = true
  /\ (comment self = [] \/ exists c, comment self = "!"%char :: c)
  /\ (comment self = [] -> midSpace self = []).
Proof.
  intros Hl H. parse_paths l free Hl H; simpl; auto 6.
  unfold regions_ok in Hok.
  assert (forallb is_space (rightSpace X) = true)
    by (rest_paths HX; exact Hrs).
  tauto.
Qed.

Lemma parseLine_regions_kind_witness :
  exists self,
    parseLine (CodeLine_init (lit "  call f(x)   ! go  " ++ [nl]) true)
    = Some self
    /\ forallb is_space (leftSpace self) = true
    /\ forallb is_space (midSpace self) = true
    /\ forallb is_space (rightSpace self) = true
    /\ (comment self = [] \/ exists c, comment self = "!"%char :: c)
    /\ (comment self = [] -> midSpace self = []).
Proof.
  eexists. split; [vm_compute; reflexivity|].
  apply (@parseLine_regions_kind (lit "  call f(x)   ! go  " ++ [nl]) true);
    vm_compute; reflexivity.
Defined.

(** [parseLine] records the length of the code region it found, so that
    [swallowLengthChange] called right after it changes nothing. *)
Theorem parseLine_swallowLengthChange (l : str) (free : bool)
    (self : CodeLine) :
  single_line l = true ->
  parseLine (CodeLine_init l free) = Some self ->
  origCodeLength self = Z.of_nat (len (code self))
  /\ swallowLengthChange self = self.
Proof.
  intros Hl H. parse_paths l free Hl H; try (split; reflexivity).
  split; [reflexivity|].
  unfold swallowLengthChange. simpl.
  rewrite Z.sub_diag. simpl.
  destruct (negb (nonempty cm)
            || negb (hasCode (rest_result X ls fl fc cd ms cm)));
    reflexivity.
Qed.

Lemma parseLine_swallowLengthChange_witness :
  exists self,
    parseLine (CodeLine_init (lit "  call f(x)   ! go  " ++ [nl]) true)
    = Some self
    /\ origCodeLength self = Z.of_nat (len (code self))
    /\ swallowLengthChange self = self.
Proof.
  eexists. split; [vm_compute; reflexivity|].
  apply (@parseLine_swallowLengthChange
           (lit "  call f(x)   ! go  " ++ [nl]) true);
    vm_compute; reflexivity.
Defined.

Lemma slice_to_nonempty (n : nat) (x : str) :
  1 <= n -> 1 <= len x -> slice_to n x <> [].
Proof.
  unfold slice_to, len. destruct n, x; simpl; intros; try lia; discriminate.
Qed.

(** A parsed line is flagged as a continuation exactly when it has a
    continuation region: the six columns of the fixed layout or the leading
    ampersand of the free layout.  The former occurs only in the fixed
    layout, the latter only in the free layout. *)
Theorem parseLine_isContinuation_iff (l : str) (free : bool)
    (self : CodeLine) :
  single_line l = true ->
  parseLine (CodeLine_init l free) = Some self ->
  (isContinuation self = true
   <-> fixedCont self <> [] \/ freeContBeg self <> [])
  /\ (fixedCont self <> [] -> free = false /\ len (fixedCont self) = 6)
  /\ (freeContBeg self <> [] -> free = true).
Proof.
  intros Hl H. parse_paths l free Hl H; simpl;
    try (repeat split; try tauto; try discriminate; intros [?|?]; tauto).
  assert (Hfc : free = false -> fc = [])
    by (unfold regions_ok in Hok; tauto).
  rewrite <- (nonempty_true fc).
  rest_paths HX; simpl.
  - destruct free; [|rewrite (Hfc eq_refl)]; simpl;
      intuition (try discriminate; try congruence).
  - rewrite (Hfc Hfree). simpl. intuition (try discriminate; try congruence).
  - rewrite (Hfc Hfree). simpl.
    assert (slice_to 6 (rstrip l) <> []) by (apply slice_to_nonempty; lia).
    assert (len (slice_to 6 (rstrip l)) = 6)
      by (unfold slice_to, len in *; rewrite length_firstn; lia).
    intuition (try discriminate; try congruence).
Qed.

Lemma parseLine_isContinuation_iff_witness :
  exists self,
    parseLine (CodeLine_init (lit "     & + 2*y" ++ [nl]) false) = Some self
    /\ (isContinuation self = true
        <-> fixedCont self <> [] \/ freeContBeg self <> [])
    /\ (fixedCont self <> [] -> false = false /\ len (fixedCont self) = 6)
    /\ (freeContBeg self <> [] -> false = true).
Proof.
  eexists. split; [vm_compute; reflexivity|].
  apply (@parseLine_isContinuation_iff (lit "     & + 2*y" ++ [nl]) false);
    vm_compute; reflexivity.
Defined.

(** ** Whole lines and whole files *)

(** A preprocessor line and a comment line of the fixed layout are kept
    whole in one region: when that region is not empty it is the line
    without its trailing whitespace, every other region before the trailing
    whitespace is empty and the line is no continuation.  The two regions
    are never both in use, and the second only in the fixed layout. *)
Theorem parseLine_whole_line (l : str) (free : bool) (self : CodeLine) :
  single_line l = true ->
  parseLine (CodeLine_init l free) = Some self ->
  (preProc self = [] \/ fixedComment self = [])
  /\ (fixedComment self <> [] -> free = false)
  /\ (preProc self ++ fixedComment self <> [] ->
      preProc self ++ fixedComment self = rstrip l
      /\ visible self = rstrip l
      /\ hasCode self = false
      /\ isContinuation self = false).
Proof.
  intros Hl H. parse_paths l free Hl H; simpl.
  - split; [now left|]. split; intros E; now elim E.
  - split; [now right|]. split; [intros E; now elim E|]. intros _.
    unfold visible; simpl. now rewrite ?app_nil_r.
  - split; [now left|]. split; [auto|]. intros _.
    unfold visible; simpl. now rewrite ?app_nil_r.
  - assert (preProc X = [] /\ fixedComment X = []) as [-> ->]
      by (rest_paths HX; split; reflexivity).
    split; [now left|]. split; intros E; now elim E.
Qed.

Lemma parseLine_whole_line_witness :
  exists self,
    parseLine (CodeLine_init (lit "C     old style remark  " ++ [nl]) false)
    = Some self
    /\ (preProc self = [] \/ fixedComment self = [])
    /\ (fixedComment self <> [] -> false = false)
    /\ (preProc self ++ fixedComment self <> [] ->
        preProc self ++ fixedComment self
        = rstrip (lit "C     old style remark  " ++ [nl])
        /\ visible self = rstrip (lit "C     old style remark  " ++ [nl])
        /\ hasCode self = false
        /\ isContinuation self = false).
Proof.
  eexists. split; [vm_compute; reflexivity|].
  apply (@parseLine_whole_line
           (lit "C     old style remark  " ++ [nl]) false);
    vm_compute; reflexivity.
Defined.

Lemma buildFullLine_visible (self : CodeLine) :
  buildFullLine self = visible self ++ rightSpace self.
Proof. unfold buildFullLine, visible. now rewrite <- !app_assoc. Qed.

(** The regions of a parsed line, up to the trailing whitespace, are the
    line without its trailing whitespace; the remaining region holds that
    whitespace, and no remark is attached. *)
Lemma parseLine_visible (l : str) (free : bool) (self : CodeLine) :
  single_line l = true ->
  free = true \/ indented_label l = false ->
  parseLine (CodeLine_init l free) = Some self ->
  visible self = rstrip l
  /\ l = rstrip l ++ rightSpace self
  /\ remarks self = [].
Proof.
  intros Hl Hlab H. parse_paths l free Hl H; unfold visible; simpl;
    rewrite ?app_nil_r; auto.
  rest_paths HX; simpl in Hline |- *.
  - rewrite <- Hline. auto.
  - destruct Hlab as [Hlab|Hlab]; [congruence|].
    assert (w = []) as ->.
    { apply (@label_first_column w d (b ++ rs)); auto.
      rewrite <- Hlab, El at 1. rewrite Ebody, <- !app_assoc. reflexivity. }
    simpl in Ebody. rewrite <- Hline, <- Ebody. auto.
  - rewrite <- Hline. simpl. unfold slice_to, slice_from.
    rewrite firstn_skipn. auto.
Qed.

Lemma rebuild_no_remarks (self : CodeLine) :
  remarks self = [] -> rebuild self = buildFullLine self.
Proof. unfold rebuild. now intros ->. Qed.

Lemma CodeFile_rebuild_concat (codeLines : list CodeLine) :
  CodeFile_rebuild codeLines = List.concat (map rebuild codeLines).
Proof.
  unfold CodeFile_rebuild.
  assert (H : forall acc,
             fold_left (fun output codeLine => output ++ rebuild codeLine)
               codeLines acc
             = acc ++ List.concat (map rebuild codeLines)).
  { induction codeLines as [|x rest IH]; intro acc; simpl.
    - now rewrite app_nil_r.
    - now rewrite IH, app_assoc. }
  apply H.
Qed.

Lemma marked_rebuild (codeLines : list CodeLine) :
  map rebuild (marked codeLines) = map rebuild codeLines.
Proof.
  induction codeLines as [|x rest IH]; simpl; [reflexivity|].
  rewrite IH. f_equal. now destruct (hasCode x && pending rest).
Qed.

(** Reading a file, parsing every line and writing the file back gives the
    text that was read, in the free layout always and in the fixed layout
    when no statement label is indented; marking the continued lines in
    between changes nothing of the text.  Without the parsing step the
    text written is empty. *)
Theorem CodeFile_roundtrip (content : list str) (free : bool)
    (codeLines : list CodeLine) :
  Forall (fun l => single_line l = true) content ->
  free = true \/ Forall (fun l => indented_label l = false) content ->
  Forall2 (fun unparsed self => parseLine unparsed = Some self)
    (CodeFile_init content free) codeLines ->
  CodeFile_rebuild codeLines = List.concat content
  /\ CodeFile_rebuild (identifyContinuations codeLines) = List.concat content
  /\ CodeFile_rebuild (CodeFile_init content free) = [].
Proof.
  intros Hl Hlab H.
  rewrite identifyContinuations_marked, !CodeFile_rebuild_concat,
    marked_rebuild.
  assert (E : map rebuild codeLines = content).
  { revert codeLines H.
    induction content as [|l content IH]; intros codeLines H;
      inversion H as [|? self ? rest Hp Hrest]; subst; [reflexivity|].
    inversion Hl as [|? ? Hl1 Hl2]; subst. simpl. f_equal.
    - assert (Hlab1 : free = true \/ indented_label l = false).
      { destruct Hlab as [Hlab|Hlab]; [now left|right].
        now inversion Hlab. }
      destruct (parseLine_visible l Hl1 Hlab1 Hp) as (Hv & Hr & Hrem).
      rewrite (rebuild_no_remarks _ Hrem), buildFullLine_visible, Hv.
      now symmetry.
    - apply IH; auto.
      destruct Hlab as [Hlab|Hlab]; [now left|right]. now inversion Hlab. }
  rewrite E. repeat split; auto.
  clear. induction content as [|l content IH]; [reflexivity|].
  simpl. exact IH.
Qed.

Lemma CodeFile_roundtrip_witness :
  exists codeLines,
    Forall2 (fun unparsed self => parseLine unparsed = Some self)
      (CodeFile_init
         [lit "      X = 1" ++ [nl]; lit "     & + 2   ! sum " ++ [nl];
          lit "C done"] false) codeLines
    /\ CodeFile_rebuild codeLines
       = lit "      X = 1" ++ [nl] ++ lit "     & + 2   ! sum " ++ [nl]
         ++ lit "C done"
    /\ isContinuation (nth 1 codeLines (CodeLine_init [] false)) = true.
Proof.
  eexists. split; [|split].
  - repeat (constructor; [vm_compute; reflexivity|]). constructor.
  - refine (proj1 (@CodeFile_roundtrip
             [lit "      X = 1" ++ [nl]; lit "     & + 2   ! sum " ++ [nl];
              lit "C done"] false _ _ _ _)).
    + repeat constructor.
    + right. repeat constructor.
    + repeat (constructor; [vm_compute; reflexivity|]). constructor.
  - reflexivity.
Defined.

(** After [stripTrailingWhitespace] a parsed line is rebuilt as its text
    without trailing whitespace, followed by one newline, and [getLength]
    is the length of that text.  Before, [getLength] is the length of the
    line less one, whatever the last character is. *)
Theorem stripTrailingWhitespace_parsed (l : str) (free : bool)
    (self : CodeLine) :
  single_line l = true ->
  free = true \/ indented_label l = false ->
  parseLine (CodeLine_init l free) = Some self ->
  buildFullLine (stripTrailingWhitespace self) = rstrip l ++ [nl]
  /\ getLength (stripTrailingWhitespace self) = Z.of_nat (len (rstrip l))
  /\ getLength self = (Z.of_nat (len l) - 1)%Z.
Proof.
  intros Hl Hlab H.
  destruct (parseLine_visible l Hl Hlab H) as (Hv & Hr & _).
  assert (E : buildFullLine (stripTrailingWhitespace self) = rstrip l ++ [nl]).
  { rewrite buildFullLine_visible. unfold stripTrailingWhitespace.
    destruct self; simpl in *. unfold visible in *; simpl in *. now rewrite Hv. }
  unfold getLength. rewrite E, buildFullLine_visible, Hv, <- Hr.
  repeat split. rewrite len_app. unfold len at 2. simpl. lia.
Qed.

Lemma stripTrailingWhitespace_parsed_witness :
  exists self,
    parseLine (CodeLine_init (lit "  call f(x)   ! go  " ++ [nl]) true)
    = Some self
    /\ buildFullLine (stripTrailingWhitespace self)
       = rstrip (lit "  call f(x)   ! go  " ++ [nl]) ++ [nl]
    /\ getLength (stripTrailingWhitespace self)
       = Z.of_nat (len (rstrip (lit "  call f(x)   ! go  " ++ [nl])))
    /\ getLength self
       = (Z.of_nat (len (lit "  call f(x)   ! go  " ++ [nl])) - 1)%Z.
Proof.
  eexists. split; [vm_compute; reflexivity|].
  apply (@stripTrailingWhitespace_parsed
           (lit "  call f(x)   ! go  " ++ [nl]) true);
    [vm_compute; reflexivity | left; reflexivity | vm_compute; reflexivity].
Defined.

(** ** [replaceTabs] *)

Lemma count_tab_cons (c : ascii) (x : str) :
  count_char tab (c :: x)
  = (if Ascii.eqb c tab then 1 else 0) + count_char tab x.
Proof.
  unfold count_char. cbn [filter]. rewrite (Ascii.eqb_sym tab c).
  now destruct (Ascii.eqb c tab).
Qed.

Lemma count_tab_app (x y : str) :
  count_char tab (x ++ y) = count_char tab x + count_char tab y.
Proof. unfold count_char. now rewrite filter_app, length_app. Qed.

Lemma count_tab_repeat (n : nat) : count_char tab (repeat " "%char n) = 0.
Proof.
  induction n; [reflexivity|]. cbn [repeat]. rewrite count_tab_cons.
  exact IHn.
Qed.

(** [find] on a text whose first tab is known. *)
Lemma find_char_tab (a r : str) :
  count_char tab a = 0 -> find_char tab (a ++ tab :: r) = Some (len a).
Proof.
  induction a as [|c a IH]; intro H; simpl.
  - reflexivity.
  - rewrite count_tab_cons in H.
    destruct (Ascii.eqb c tab); [discriminate|].
    now rewrite IH.
Qed.

Lemma find_char_none (a : str) :
  count_char tab a = 0 <-> find_char tab a = None.
Proof.
  induction a as [|c a IH]; simpl; [tauto|].
  rewrite count_tab_cons.
  destruct (Ascii.eqb c tab); simpl.
  - split; discriminate.
  - rewrite IH. destruct (find_char tab a); simpl; split; congruence.
Qed.

(** A text is tab-free text, a tab and the rest, or tab-free. *)
Lemma first_tab (x : str) :
  count_char tab x = 0
  \/ exists a r, x = a ++ tab :: r /\ count_char tab a = 0.
Proof.
  induction x as [|c x IH]; [now left|].
  rewrite count_tab_cons.
  destruct (Ascii.eqb_spec c tab) as [->|Hc].
  - right. now exists [], x.
  - destruct IH as [IH|(a & r & -> & Ha)]; [now left|].
    right. exists (c :: a), r. split; [reflexivity|].
    rewrite count_tab_cons. destruct (Ascii.eqb_spec c tab); [contradiction|].
    exact Ha.
Qed.

Lemma slice_to_len_app (a r : str) : slice_to (len a) (a ++ r) = a.
Proof.
  unfold slice_to, len. rewrite firstn_app, Nat.sub_diag, firstn_all.
  simpl. now rewrite app_nil_r.
Qed.

Lemma slice_from_len_app (a r : str) (c : ascii) :
  slice_from (len a + 1) (a ++ c :: r) = r.
Proof.
  unfold slice_from, len. rewrite skipn_app.
  replace (List.length a + 1 - List.length a) with 1 by lia.
  rewrite skipn_all2 by lia. reflexivity.
Qed.

(** The loop with enough fuel computes the one-pass expansion. *)
Lemma replaceTabs_loop_expand (tabLength : Z) (x : str) :
  tabLength <> 0%Z ->
  forall (a : str) (fuel : nat),
    count_char tab a = 0 -> count_char tab x <= fuel ->
    replaceTabs_loop fuel tabLength (a ++ x)
    = Done (a ++ expandTabs tabLength (len a) x).
Proof.
  intro Ht. induction x as [|c x IH]; intros a fuel Ha Hf.
  - simpl expandTabs. rewrite !app_nil_r. apply find_char_none in Ha.
    destruct fuel; simpl; now rewrite Ha.
  - rewrite count_tab_cons in Hf. simpl expandTabs.
    destruct (Ascii.eqb_spec c tab) as [->|Hc].
    + destruct fuel as [|fuel]; [lia|].
      simpl replaceTabs_loop. rewrite (find_char_tab a x Ha).
      destruct (Z.eqb_spec tabLength 0) as [E|_]; [contradiction|].
      cbv zeta. rewrite slice_to_len_app, slice_from_len_app.
      set (spaces := str_mul _ _).
      rewrite app_assoc, IH.
      * now rewrite len_app, <- app_assoc.
      * rewrite count_tab_app, Ha. unfold spaces.
        rewrite str_mul_char. apply count_tab_repeat.
      * lia.
    + change (a ++ c :: x) with (a ++ [c] ++ x). rewrite app_assoc, IH.
      * rewrite len_app, <- app_assoc. unfold len at 2. simpl.
        now rewrite Nat.add_1_r.
      * rewrite count_tab_app, Ha, count_tab_cons.
        destruct (Ascii.eqb_spec c tab); [contradiction|reflexivity].
      * simpl in Hf. exact Hf.
Qed.

Lemma expandTabs_count (tabLength : Z) (x : str) :
  forall col, count_char tab (expandTabs tabLength col x) = 0.
Proof.
  induction x as [|c x IH]; intro col; simpl; [reflexivity|].
  destruct (Ascii.eqb_spec c tab) as [->|Hc].
  - rewrite count_tab_app, IH. unfold lit. simpl.
    rewrite str_mul_char, count_tab_repeat. reflexivity.
  - rewrite count_tab_cons.
    destruct (Ascii.eqb_spec c tab); [contradiction|]. apply IH.
Qed.

Lemma expandTabs_no_tab (tabLength : Z) (x : str) :
  count_char tab x = 0 -> forall col, expandTabs tabLength col x = x.
Proof.
  induction x as [|c x IH]; intros H col; simpl; [reflexivity|].
  rewrite count_tab_cons in H.
  destruct (Ascii.eqb c tab); [discriminate|]. now rewrite IH.
Qed.

Lemma expandTabs_app (tabLength : Z) (a x : str) :
  count_char tab a = 0 ->
  forall col,
    expandTabs tabLength col (a ++ x)
    = a ++ expandTabs tabLength (col + len a) x.
Proof.
  induction a as [|c a IH]; intros H col; simpl.
  - now rewrite Nat.add_0_r.
  - rewrite count_tab_cons in H.
    destruct (Ascii.eqb c tab); [discriminate|].
    rewrite IH by exact H. unfold len. simpl.
    now rewrite Nat.add_succ_r.
Qed.

(** With a positive tab length only the column modulo that length
    matters. *)
Lemma expandTabs_mod (tabLength : Z) (x : str) :
  (0 < tabLength)%Z ->
  forall col col',
    (Z.of_nat col mod tabLength = Z.of_nat col' mod tabLength)%Z ->
    expandTabs tabLength col x = expandTabs tabLength col' x.
Proof.
  intro Ht. induction x as [|c x IH]; intros col col' E; simpl;
    [reflexivity|].
  destruct (Ascii.eqb c tab).
  - rewrite E. f_equal. apply IH.
    rewrite !Nat2Z.inj_add.
    rewrite (Z.add_mod (Z.of_nat col)), (Z.add_mod (Z.of_nat col')), E by lia.
    reflexivity.
  - f_equal. apply IH.
    rewrite !Nat2Z.inj_succ, <- !Z.add_1_r.
    rewrite (Z.add_mod (Z.of_nat col)), (Z.add_mod (Z.of_nat col')), E by lia.
    reflexivity.
Qed.

(** The blanks that replace a tab in column [col] end at the next
    multiple of a positive tab length. *)
Lemma tab_stop (tabLength : Z) (col : nat) :
  (0 < tabLength)%Z ->
  let n := Z.to_nat (tabLength - Z.of_nat col mod tabLength) in
  1 <= n /\ (Z.of_nat n <= tabLength)%Z
  /\ (Z.of_nat (col + n) mod tabLength = 0)%Z.
Proof.
  intros Ht n.
  pose proof (Z.mod_pos_bound (Z.of_nat col) tabLength Ht) as Hb.
  assert (En : Z.of_nat n = (tabLength - Z.of_nat col mod tabLength)%Z)
    by (unfold n; lia).
  repeat split; try lia.
  rewrite Nat2Z.inj_add, En.
  rewrite (Z.div_mod (Z.of_nat col) tabLength) at 1 by lia.
  replace (tabLength * (Z.of_nat col / tabLength)
           + Z.of_nat col mod tabLength
           + (tabLength - Z.of_nat col mod tabLength))%Z
    with ((Z.of_nat col / tabLength + 1) * tabLength)%Z by lia.
  apply Z.mod_mul. lia.
Qed.

(** With a negative tab length the tabs are dropped. *)
Lemma expandTabs_negative (tabLength : Z) (x : str) :
  (tabLength < 0)%Z ->
  forall col, expandTabs tabLength col x = without_tabs x.
Proof.
  intro Ht. induction x as [|c x IH]; intro col; simpl; [reflexivity|].
  destruct (Ascii.eqb c tab); simpl; [|now rewrite IH].
  pose proof (Z.mod_neg_bound (Z.of_nat col) tabLength Ht) as Hb.
  unfold lit. simpl. rewrite str_mul_char.
  replace (Z.to_nat (tabLength - Z.of_nat col mod tabLength)) with 0 by lia.
  simpl. apply IH.
Qed.

Lemma solid_app (x y : str) : solid (x ++ y) = solid x ++ solid y.
Proof. unfold solid. apply filter_app. Qed.

Lemma solid_repeat (n : nat) : solid (repeat " "%char n) = [].
Proof. induction n; [reflexivity|]. exact IHn. Qed.

Lemma expandTabs_solid (tabLength : Z) (x : str) :
  forall col, solid (expandTabs tabLength col x) = solid x.
Proof.
  induction x as [|c x IH]; intro col; simpl; [reflexivity|].
  destruct (Ascii.eqb c tab) eqn:Ec.
  - rewrite solid_app, IH. unfold lit. simpl.
    rewrite str_mul_char, solid_repeat. reflexivity.
  - unfold solid in *. cbn [filter]. rewrite ?Ec, IH. reflexivity.
Qed.

Lemma expandTabs_app_gen (tabLength : Z) (a x : str) :
  forall col,
    expandTabs tabLength col (a ++ x)
    = expandTabs tabLength col a
      ++ expandTabs tabLength (col + len (expandTabs tabLength col a)) x.
Proof.
  induction a as [|c a IH]; intro col; simpl.
  - now rewrite Nat.add_0_r.
  - destruct (Ascii.eqb c tab).
    + rewrite IH, <- app_assoc, len_app, Nat.add_assoc. reflexivity.
    + rewrite IH. unfold len. simpl. now rewrite Nat.add_succ_r.
Qed.

Lemma replaceTabs_loop_line (fuel : nat) (tabLength : Z) (x : str) :
  tabLength <> 0%Z -> count_char tab x <= fuel ->
  replaceTabs_loop fuel tabLength x = Done (expandTabs tabLength 0 x).
Proof.
  intros Ht Hf.
  exact (@replaceTabs_loop_expand tabLength x Ht [] fuel eq_refl Hf).
Qed.

Lemma set_line_same (self : CodeLine) : set_line (line self) self = self.
Proof. now destruct self. Qed.

(** [replaceTabs] returns after as many iterations as the line has tabs,
    whatever the tab length: it raises [ZeroDivisionError] exactly when the
    tab length is [0] and the line has a tab; otherwise it changes the
    attribute [line] only, the new text has no tab, and but for blanks and
    tabs it is the old text.  A line without tab is not changed. *)
Theorem replaceTabs_returns (fuel : nat) (tabLength : Z) (self : CodeLine) :
  count_char tab (line self) <= fuel ->
  (tabLength = 0%Z /\ count_char tab (line self) <> 0
   /\ replaceTabs fuel tabLength self = ZeroDivisionError)
  \/ ((tabLength <> 0%Z \/ count_char tab (line self) = 0)
      /\ exists line',
           replaceTabs fuel tabLength self = Done (set_line line' self)
           /\ count_char tab line' = 0
           /\ solid line' = solid (line self)
           /\ (count_char tab (line self) = 0 ->
               replaceTabs fuel tabLength self = Done self)).
Proof.
  intro Hf. unfold replaceTabs.
  destruct (first_tab (line self)) as [H0|(a & r & E & Ha)].
  - right. split; [now right|]. exists (line self).
    assert (E : replaceTabs_loop fuel tabLength (line self)
                = Done (line self)).
    { apply find_char_none in H0. destruct fuel; simpl; now rewrite H0. }
    rewrite E, set_line_same. auto.
  - assert (Hn : count_char tab (line self) <> 0).
    { rewrite E, count_tab_app, count_tab_cons. simpl. lia. }
    destruct (Z.eq_dec tabLength 0) as [Ht|Ht].
    + left. repeat split; auto.
      destruct fuel as [|fuel]; [lia|].
      rewrite E. simpl. rewrite (find_char_tab a r Ha), Ht. reflexivity.
    + right. split; [now left|].
      exists (expandTabs tabLength 0 (line self)).
      rewrite (@replaceTabs_loop_line fuel tabLength (line self) Ht Hf).
      repeat split.
      * apply expandTabs_count.
      * apply expandTabs_solid.
      * intro H0. contradiction.
Qed.

Lemma replaceTabs_returns_witness :
  exists line',
    replaceTabs 2 4 (CodeLine_init [tab; "x"; tab; "y"; "!"; nl]%char true)
    = Done (set_line line'
              (CodeLine_init [tab; "x"; tab; "y"; "!"; nl]%char true))
    /\ line' = lit "    x   y!" ++ [nl].
Proof.
  destruct (@replaceTabs_returns 2 4
              (CodeLine_init [tab; "x"; tab; "y"; "!"; nl]%char true))
    as [(H & _)|(_ & line' & H1 & _)].
  - vm_compute. lia.
  - discriminate H.
  - exists line'. split; [exact H1|].
    vm_compute in H1. now injection H1 as <-.
Defined.

(** With a positive tab length, the first tab of a line becomes one to
    [tabLength] blanks that end at a multiple of [tabLength], and so does
    every further one: what stands before a tab and what stands after it
    are expanded as lines of their own. *)
Theorem replaceTabs_tab_stop (fuel : nat) (tabLength : Z) (a b : str) :
  (0 < tabLength)%Z ->
  count_char tab (a ++ tab :: b) <= fuel ->
  exists a' b' n,
    replaceTabs_loop fuel tabLength a = Done a'
    /\ replaceTabs_loop fuel tabLength b = Done b'
    /\ replaceTabs_loop fuel tabLength (a ++ tab :: b)
       = Done (a' ++ repeat " "%char n ++ b')
    /\ 1 <= n /\ (Z.of_nat n <= tabLength)%Z
    /\ (Z.of_nat (len a' + n) mod tabLength = 0)%Z.
Proof.
  intros Ht Hf.
  assert (Ht' : tabLength <> 0%Z) by lia.
  rewrite count_tab_app, count_tab_cons in Hf. simpl in Hf.
  exists (expandTabs tabLength 0 a), (expandTabs tabLength 0 b),
    (Z.to_nat
       (tabLength
        - Z.of_nat (len (expandTabs tabLength 0 a)) mod tabLength)).
  destruct (@tab_stop tabLength (len (expandTabs tabLength 0 a)) Ht)
    as (H1 & H2 & H3).
  split; [|split; [|split]]; auto.
  - apply replaceTabs_loop_line; [exact Ht'|lia].
  - apply replaceTabs_loop_line; [exact Ht'|lia].
  - rewrite replaceTabs_loop_line;
      [|exact Ht'|rewrite count_tab_app, count_tab_cons; simpl; lia].
    rewrite expandTabs_app_gen. simpl.
    unfold lit. simpl. rewrite len_str_mul_char, str_mul_char.
    do 3 f_equal. apply expandTabs_mod; [exact Ht|].
    rewrite H3. reflexivity.
Qed.

Lemma replaceTabs_tab_stop_witness :
  exists a' b' n,
    replaceTabs_loop 2 8 (lit "ab") = Done a'
    /\ replaceTabs_loop 2 8 ("c"%char :: tab :: lit "d") = Done b'
    /\ replaceTabs_loop 2 8 (lit "ab" ++ tab :: "c"%char :: tab :: lit "d")
       = Done (a' ++ repeat " "%char n ++ b')
    /\ 1 <= n /\ (Z.of_nat n <= 8)%Z
    /\ (Z.of_nat (len a' + n) mod 8 = 0)%Z.
Proof.
  apply (@replaceTabs_tab_stop 2 8 (lit "ab") ("c"%char :: tab :: lit "d"));
    vm_compute; [reflexivity|lia].
Defined.

(** With a negative tab length, [replaceTabs] removes the tabs and puts
    nothing in their place. *)
Theorem replaceTabs_negative (fuel : nat) (tabLength : Z) (self : CodeLine) :
  (tabLength < 0)%Z ->
  count_char tab (line self) <= fuel ->
  replaceTabs fuel tabLength self
  = Done (set_line (without_tabs (line self)) self).
Proof.
  intros Ht Hf. unfold replaceTabs.
  assert (Ht' : tabLength <> 0%Z) by lia.
  rewrite (@replaceTabs_loop_line fuel tabLength (line self) Ht' Hf).
  now rewrite expandTabs_negative.
Qed.

Lemma replaceTabs_negative_witness :
  replaceTabs 2 (-4) (CodeLine_init [tab; "x"; tab; "y"]%char true)
  = Done (set_line (lit "xy") (CodeLine_init [tab; "x"; tab; "y"]%char true)).
Proof.
  apply (@replaceTabs_negative 2 (-4)
           (CodeLine_init [tab; "x"; tab; "y"]%char true));
    vm_compute; [reflexivity|lia].
Defined.

(** ** [fixIndentation], run again *)

Section IndentationAgain.

Variable indent : str.
Variable contiIndent : Z.

Lemma but_indent_regions (a b : CodeLine) :
  but_indent a = but_indent b ->
  code a = code b /\ comment a = comment b
  /\ isContinuation a = isContinuation b.
Proof.
  intro H. repeat split.
  - exact (f_equal code H).
  - exact (f_equal comment H).
  - exact (f_equal isContinuation H).
Qed.

Lemma fixIndentation_body_frame (cur : Z) (x : CodeLine) :
  but_indent (snd (fixIndentation_body indent contiIndent cur x))
  = but_indent x.
Proof.
  unfold fixIndentation_body, fixIndentation_enter, setIndentation.
  split_ifs; reflexivity.
Qed.

(** The body of the loop on two lines that differ in leading whitespace
    and remarks only. *)
Lemma fixIndentation_body_congr (cur : Z) (a b : CodeLine) :
  but_indent a = but_indent b ->
  fst (fixIndentation_body indent contiIndent cur a)
  = fst (fixIndentation_body indent contiIndent cur b)
  /\ leftSpace (snd (fixIndentation_body indent contiIndent cur a))
     = leftSpace (snd (fixIndentation_body indent contiIndent cur b))
  /\ exists r,
       remarks (snd (fixIndentation_body indent contiIndent cur a))
       = remarks a ++ r
       /\ remarks (snd (fixIndentation_body indent contiIndent cur b))
          = remarks b ++ r.
Proof.
  intro H. destruct (but_indent_regions H) as (Hc & Hm & Hi).
  unfold fixIndentation_body, fixIndentation_enter, setIndentation,
    decreasesIndentBefore, increasesIndentAfter, hasCode.
  rewrite Hc.
  destruct (matches re_decrease (code b));
    match goal with
    | |- context [(?x <? 0)%Z] => destruct (Z.ltb_spec x 0)
    end; simpl; rewrite ?Hc, ?Hm, ?Hi;
    (destruct ((if nonempty (code b) then true else false)
               || nonempty (comment b)); simpl; rewrite ?Hc;
     (split; [reflexivity|split; [reflexivity|]]));
    try (exists [negativeIndentation]; split; reflexivity);
    exists []; now rewrite !app_nil_r.
Qed.

Lemma fixIndentation_loop_congr (l1 l2 : list CodeLine) :
  Forall2 (fun a b => but_indent a = but_indent b) l1 l2 ->
  forall cur,
    fst (fixIndentation_loop indent contiIndent cur l1)
    = fst (fixIndentation_loop indent contiIndent cur l2).
Proof.
  induction 1 as [|a b l1 l2 Hab Hl IH]; intro cur; simpl; [reflexivity|].
  destruct (fixIndentation_body_congr cur Hab) as (E & _).
  destruct (fixIndentation_body indent contiIndent cur a) as [c1 a'].
  destruct (fixIndentation_body indent contiIndent cur b) as [c2 b'].
  simpl in E. subst c2. specialize (IH c1).
  destruct (fixIndentation_loop indent contiIndent c1 l1).
  destruct (fixIndentation_loop indent contiIndent c1 l2).
  exact IH.
Qed.

Lemma fixIndentation_loop_frame (codeLines : list CodeLine) :
  forall cur,
    Forall2 (fun a b => but_indent a = but_indent b)
      (snd (fixIndentation_loop indent contiIndent cur codeLines)) codeLines.
Proof.
  induction codeLines as [|x rest IH]; intro cur; simpl; [constructor|].
  pose proof (fixIndentation_body_frame cur x) as Hx.
  destruct (fixIndentation_body indent contiIndent cur x) as [c x'].
  specialize (IH c).
  destruct (fixIndentation_loop indent contiIndent c rest). simpl in *.
  now constructor.
Qed.

Lemma Forall2_firstn (A B : Type) (R : A -> B -> Prop) (l1 : list A)
    (l2 : list B) :
  Forall2 R l1 l2 -> forall n, Forall2 R (firstn n l1) (firstn n l2).
Proof.
  induction 1; intros [|n]; simpl; constructor; auto.
Qed.

Lemma Forall2_nth (A B : Type) (R : A -> B -> Prop) (l1 : list A)
    (l2 : list B) :
  Forall2 R l1 l2 ->
  forall i b, nth_error l2 i = Some b ->
  exists a, nth_error l1 i = Some a /\ R a b.
Proof.
  induction 1 as [|a0 b0 l1 l2 Hab Hl IH]; intros [|i] b Hi; simpl in *;
    try discriminate.
  - injection Hi as <-. now exists a0.
  - now apply IH.
Qed.

(** Running [fixIndentation] changes leading whitespace and remarks only,
    and running it again gives every line the leading whitespace it has
    already; the remarks that the first run added are added once more. *)
Theorem fixIndentation_again (codeLines : list CodeLine) (i : nat)
    (x0 : CodeLine) :
  nth_error codeLines i = Some x0 ->
  let once := fixIndentation indent contiIndent codeLines in
  let twice := fixIndentation indent contiIndent once in
  exists x1 x2 r,
    nth_error once i = Some x1 /\ nth_error twice i = Some x2
    /\ but_indent x1 = but_indent x0 /\ but_indent x2 = but_indent x0
    /\ leftSpace x2 = leftSpace x1
    /\ remarks x1 = remarks x0 ++ r /\ remarks x2 = remarks x1 ++ r.
Proof.
  intros Hi once twice.
  pose proof (fixIndentation_loop_frame codeLines 0%Z) as Hframe.
  fold (fixIndentation indent contiIndent codeLines) in Hframe.
  fold once in Hframe.
  destruct (Forall2_nth Hframe i Hi) as (x1 & H1 & Hx1).
  pose proof (@fixIndentation_nth indent contiIndent codeLines i x0 Hi) as E1. fold once in E1.
  pose proof (@fixIndentation_nth indent contiIndent once i x1 H1) as E2. fold twice in E2.
  assert (Hd : depthBefore indent contiIndent once i
               = depthBefore indent contiIndent codeLines i).
  { unfold depthBefore. apply fixIndentation_loop_congr.
    now apply Forall2_firstn. }
  rewrite Hd in E2.
  set (d := depthBefore indent contiIndent codeLines i) in *.
  rewrite H1 in E1. injection E1 as E1.
  destruct (fixIndentation_body_congr d Hx1) as (_ & Hl & r & Hr1 & Hr0).
  rewrite <- E1 in Hl, Hr0.
  exists x1, (snd (fixIndentation_body indent contiIndent d x1)), r.
  repeat split; auto.
  rewrite fixIndentation_body_frame. exact Hx1.
Qed.

End IndentationAgain.

Lemma fixIndentation_again_witness :
  exists x1 x2 r,
    nth_error
      (fixIndentation (lit "  ") 2
         [set_code (lit "end") (CodeLine_init [] true)]) 0 = Some x1
    /\ nth_error
         (fixIndentation (lit "  ") 2
            (fixIndentation (lit "  ") 2
               [set_code (lit "end") (CodeLine_init [] true)])) 0 = Some x2
    /\ but_indent x1 = but_indent (set_code (lit "end") (CodeLine_init [] true))
    /\ but_indent x2 = but_indent (set_code (lit "end") (CodeLine_init [] true))
    /\ leftSpace x2 = leftSpace x1
    /\ remarks x1
       = remarks (set_code (lit "end") (CodeLine_init [] true)) ++ r
    /\ remarks x2 = remarks x1 ++ r.
Proof.
  exact (@fixIndentation_again (lit "  ") 2%Z
           [set_code (lit "end") (CodeLine_init [] true)] 0
           (set_code (lit "end") (CodeLine_init [] true)) eq_refl).
Defined.

(** ** [transformDoxygenBlocks], line by line *)

Lemma transformDoxygenBlocks_loop_nth (length : Z)
    (codeLines : list CodeLine) :
  forall inBlock i codeLine,
  nth_error codeLines i = Some codeLine ->
  nth_error (snd (transformDoxygenBlocks_loop length inBlock codeLines)) i
  = Some (snd (transformDoxygenBlocks_body length
                 (fst (transformDoxygenBlocks_loop length inBlock
                         (firstn i codeLines)))
                 codeLine)).
Proof.
  induction codeLines as [|cl rest IH]; intros inBlock i codeLine Hi.
  - destruct i; discriminate.
  - destruct i as [|i]; simpl in *.
    + injection Hi as ->.
      destruct (transformDoxygenBlocks_body length inBlock codeLine)
        as [b' cl'].
      destruct (transformDoxygenBlocks_loop length b' rest).
      reflexivity.
    + destruct (transformDoxygenBlocks_body length inBlock cl) as [b' cl'].
      specialize (IH b' i codeLine Hi).
      destruct (transformDoxygenBlocks_loop length b' rest) as [f rest'].
      destruct (transformDoxygenBlocks_loop length b' (firstn i rest))
        as [f2 r2].
      simpl in *. exact IH.
Qed.

Lemma transformDoxygen_inBlock_comment (codeLine : CodeLine) :
  exists c,
    transformDoxygen_inBlock codeLine
    = set_comment ("!"%char :: ">"%char :: c) codeLine.
Proof.
  unfold transformDoxygen_inBlock.
  destruct (count_char "-" (comment codeLine) =? 60); [now exists []|].
  destruct (re_match re_doxyFile (comment codeLine)); [eexists; reflexivity|].
  destruct (re_match re_doxyParam (comment codeLine));
    [eexists; reflexivity|].
  destruct (re_match re_doxyDate (comment codeLine)); [eexists; reflexivity|].
  destruct (re_match re_doxyAuthor (comment codeLine));
    eexists; reflexivity.
Qed.

(** [transformDoxygenBlocks] changes comment regions only.  A line that
    is no separator is left as it is outside a block; inside a block its
    comment becomes a comment that starts with [!>], also when the line
    had no comment: it then gets the comment ["!> @brief "], whether it has
    code or not. *)
Theorem transformDoxygenBlocks_comment (length : Z)
    (codeLines : list CodeLine) (i : nat) (x : CodeLine) :
  nth_error codeLines i = Some x ->
  exists x',
    nth_error (transformDoxygenBlocks length codeLines) i = Some x'
    /\ x' = set_comment (comment x') x
    /\ (isSeparator x = false ->
        if inBlockBefore length codeLines i
        then (exists c, comment x' = "!"%char :: ">"%char :: c)
             /\ (comment x = [] -> comment x' = lit "!> @brief ")
        else x' = x).
Proof.
  intro Hi. eexists. split.
  { apply transformDoxygenBlocks_loop_nth. exact Hi. }
  fold (inBlockBefore length codeLines i).
  unfold transformDoxygenBlocks_body, isSeparator.
  destruct (count_char "c" (comment x) =? 70); simpl.
  { split; [reflexivity|discriminate]. }
  destruct (inBlockBefore length codeLines i); simpl.
  - destruct (transformDoxygen_inBlock_comment x) as (c & E).
    rewrite E. simpl. split; [reflexivity|]. intros _.
    split; [now exists c|].
    intro Hc. apply (f_equal comment) in E. simpl in E. rewrite <- E.
    unfold transformDoxygen_inBlock. rewrite Hc. reflexivity.
  - split; [now destruct x|reflexivity].
Qed.

Lemma transformDoxygenBlocks_comment_witness :
  exists x',
    nth_error
      (transformDoxygenBlocks 72
         [set_comment (repeat "c"%char 70) (CodeLine_init [] true);
          set_code (lit "x = 1") (CodeLine_init [] true)]) 1 = Some x'
    /\ comment x' = lit "!> @brief "
    /\ buildFullLine x' = lit "x = 1!> @brief ".
Proof.
  destruct (@transformDoxygenBlocks_comment 72
              [set_comment (repeat "c"%char 70) (CodeLine_init [] true);
               set_code (lit "x = 1") (CodeLine_init [] true)] 1
              (set_code (lit "x = 1") (CodeLine_init [] true)) eq_refl)
    as (x' & Hn & Hx & H).
  exists x'. split; [exact Hn|].
  specialize (H eq_refl).
  replace (inBlockBefore 72
             [set_comment (repeat "c"%char 70) (CodeLine_init [] true);
              set_code (lit "x = 1") (CodeLine_init [] true)] 1)
    with true in H by (vm_compute; reflexivity).
  destruct H as [_ H].
  specialize (H eq_refl).
  split; [exact H|]. rewrite Hx, H. reflexivity.
Defined.

(** ** [unindentPreProc] *)

(** [parseLine] on a line that begins with [#]. *)
Lemma parseLine_preProc (l r : str) (free : bool) :
  single_line l = true -> rstrip l = "#"%char :: r ->
  exists rs,
    l = rstrip l ++ rs
    /\ parseLine (CodeLine_init l free)
       = Some (set_preProc (rstrip l)
                 (set_line (rstrip l)
                    (set_rightSpace rs (CodeLine_init l free)))).
Proof.
  intros Hl Hr.
  destruct (@parseLine_rightSpace l free Hl) as (rs & El & Hn & H1).
  exists rs. split; [exact El|].
  unfold parseLine. change (line (CodeLine_init l free)) with l.
  rewrite H1. cbv zeta.
  change (line (set_line (rstrip l)
                  (set_rightSpace rs (CodeLine_init l free))))
    with (rstrip l).
  rewrite Hr. reflexivity.
Qed.

Lemma lstrip_lstrip (x : str) : lstrip (lstrip x) = lstrip x.
Proof.
  induction x as [|c x IH]; simpl; [reflexivity|].
  destruct (is_space c) eqn:E; [exact IH|]. simpl. now rewrite E.
Qed.

Lemma unindentPreProc_twice (self : CodeLine) :
  unindentPreProc (unindentPreProc self) = unindentPreProc self.
Proof.
  unfold unindentPreProc.
  destruct (nonempty (preProc self)) eqn:E; simpl; [|now rewrite E].
  unfold slice_from. simpl. now rewrite lstrip_lstrip.
Qed.

(** [unindentPreProc] after [parseLine]: in a line that begins with [#]
    the whitespace that follows the [#] is removed and nothing else, a line
    that does not begin with [#] is left as it is, also when only
    whitespace stands before the [#], and doing it again changes nothing. *)
Theorem unindentPreProc_parsed (l : str) (free : bool) (self : CodeLine) :
  single_line l = true ->
  parseLine (CodeLine_init l free) = Some self ->
  (forall r, rstrip l = "#"%char :: r ->
     buildFullLine (unindentPreProc self)
     = "#"%char :: lstrip r ++ rightSpace self
     /\ l = "#"%char :: r ++ rightSpace self)
  /\ ((forall r, rstrip l <> "#"%char :: r) -> unindentPreProc self = self)
  /\ unindentPreProc (unindentPreProc self) = unindentPreProc self.
Proof.
  intros Hl H. split; [|split; [|apply unindentPreProc_twice]].
  - intros r Hr.
    destruct (@parseLine_preProc l r free Hl Hr) as (rs & El & Hp).
    rewrite Hp in H. injection H as <-.
    unfold buildFullLine, unindentPreProc. simpl.
    rewrite Hr. simpl.
    unfold slice_from. simpl. split; [reflexivity|].
    rewrite El at 1. now rewrite Hr.
  - intro Hno. parse_paths l free Hl H; try reflexivity.
    + now elim (Hno r).
    + unfold unindentPreProc. simpl.
      assert (preProc X = []) as -> by (rest_paths HX; reflexivity).
      reflexivity.
Qed.

Lemma unindentPreProc_parsed_witness :
  exists self,
    parseLine (CodeLine_init (lit "#   include <defs.h>  " ++ [nl]) true)
    = Some self
    /\ buildFullLine (unindentPreProc self)
       = lit "#include <defs.h>  " ++ [nl].
Proof.
  eexists. split; [vm_compute; reflexivity|].
  refine (proj1 (proj1 (@unindentPreProc_parsed
                          (lit "#   include <defs.h>  " ++ [nl]) true _ _ _)
                   (lit "   include <defs.h>") _));
    vm_compute; reflexivity.
Defined.

(** ** [swallowLengthChange] and the column of the comment *)

Lemma len_repeat (c : ascii) (n : nat) : len (repeat c n) = n.
Proof. apply repeat_length. Qed.

(** When the code of a line with a trailing comment has changed in length
    since it was parsed, [swallowLengthChange] keeps the comment in its
    column as long as one blank at least can stay before it; otherwise one
    blank stays and the comment moves to the right.  The recorded length is
    not brought up to date: a second call takes the change off again. *)
Theorem swallowLengthChange_column (self : CodeLine) :
  code self <> [] ->
  comment self <> [] ->
  let change := (Z.of_nat (len (code self)) - origCodeLength self)%Z in
  let m := Z.of_nat (len (midSpace self)) in
  let m' := Z.of_nat (len (midSpace (swallowLengthChange self))) in
  ((1 <= m - change)%Z ->
   (Z.of_nat (len (code self)) + m' = origCodeLength self + m)%Z)
  /\ ((m - change < 1)%Z -> change <> 0%Z -> m' = 1%Z)
  /\ (change <> 0%Z ->
      Z.of_nat (len (midSpace (swallowLengthChange
                                 (swallowLengthChange self))))
      = Z.max 1 (Z.max 1 (m - change) - change)).
Proof.
  intros Hcode Hcomment change m m'.
  apply nonempty_true in Hcomment. apply hasCode_true in Hcode.
  assert (E : change <> 0%Z ->
              swallowLengthChange self
              = set_midSpace (repeat " "%char (Z.to_nat (Z.max 1 (m - change))))
                  self).
  { intro Hc. unfold swallowLengthChange. rewrite Hcomment, Hcode. simpl.
    fold change. destruct (Z.eqb_spec change 0) as [E|_]; [contradiction|].
    unfold lit. simpl. now rewrite str_mul_char. }
  assert (E0 : change = 0%Z -> swallowLengthChange self = self).
  { intro Hc. unfold swallowLengthChange. rewrite Hcomment, Hcode. simpl.
    fold change. now rewrite Hc. }
  unfold m'. destruct (Z.eq_dec change 0) as [Hc|Hc].
  - rewrite (E0 Hc). fold m. unfold change in Hc. repeat split; lia.
  - rewrite (E Hc). simpl. rewrite !len_repeat.
    split; [unfold change; lia|]. split; [lia|].
    intros _. unfold swallowLengthChange. simpl.
    change (hasCode (set_midSpace _ self)) with (hasCode self).
    rewrite Hcomment, Hcode. simpl. fold change.
    destruct (Z.eqb_spec change 0) as [E1|_]; [contradiction|].
    simpl. unfold lit. simpl. rewrite len_str_mul_char, len_repeat. lia.
Qed.

(** The code shrank from eight characters to six before four blanks: the
    comment stays in its column with six blanks. *)
Lemma swallowLengthChange_column_witness :
  (Z.of_nat (len (lit "end if"))
   + Z.of_nat
       (len (midSpace
               (swallowLengthChange
                  (set_origCodeLength 8
                     (set_code (lit "end if") (set_midSpace (lit "    ")
                        (set_comment (lit "! c") (CodeLine_init [] true))))))))
   = 8 + 4)%Z.
Proof.
  refine (proj1 (@swallowLengthChange_column
                   (set_origCodeLength 8
                      (set_code (lit "end if") (set_midSpace (lit "    ")
                         (set_comment (lit "! c") (CodeLine_init [] true)))))
                   _ _) _).
  - vm_compute. discriminate.
  - vm_compute. discriminate.
  - vm_compute. discriminate.
Defined.

(** ** [convertFixedToFree] after [parseLine] *)

(** A line parsed in the fixed layout, whatever [identifyContinuations]
    made of [isContinued], has no fixed-layout region left after
    [convertFixedToFree]; code and whitespace regions are kept.  On a line
    that is no comment line the label gets a blank after it, the six
    continuation columns become one ampersand, a continued line gets an
    ampersand after its code, and the comment is kept. *)
Theorem convertFixedToFree_parsed (l : str) (continued : bool)
    (self : CodeLine) :
  single_line l = true ->
  parseLine (CodeLine_init l false) = Some self ->
  let self' := convertFixedToFree (set_isContinued continued self) in
  isFreeForm self' = true
  /\ fixedComment self' = [] /\ fixedLabel self' = [] /\ fixedCont self' = []
  /\ code self' = code self /\ leftSpace self' = leftSpace self
  /\ midSpace self' = midSpace self /\ rightSpace self' = rightSpace self
  /\ (fixedComment self = [] ->
      comment self' = comment self
      /\ freeLabel self'
         = (if nonempty (fixedLabel self) then fixedLabel self ++ lit " "
            else [])
      /\ freeContBeg self'
         = (if nonempty (fixedCont self) then lit "&" else [])
      /\ freeContEnd self' = (if continued then lit "&" else [])).
Proof.
  intros Hl H. parse_paths l false Hl H; cbv zeta.
  - destruct continued; repeat split.
  - destruct continued; repeat split.
  - unfold convertFixedToFree. simpl.
    assert (Hne : nonempty (rstrip l) = true).
    { unfold char_at_in in Hmark. destruct (rstrip l); [discriminate|].
      reflexivity. }
    rewrite Hne.
    destruct (nonempty (lstrip (slice_from 1 (rstrip l))));
      (do 8 (split; [reflexivity|]));
      intro E; simpl in E; rewrite E in Hne; discriminate.
  - assert (Hfl : fl = [] /\ fc = [])
      by (unfold regions_ok in Hok; tauto).
    destruct Hfl as [-> ->].
    rest_paths HX.
    + destruct continued; repeat split.
    + unfold convertFixedToFree. simpl.
      assert (Hne : nonempty d = true).
      { apply nonempty_true. intros ->. unfold len in Hd1. simpl in Hd1.
        lia. }
      rewrite Hne. destruct continued; repeat split.
    + unfold convertFixedToFree. simpl.
      assert (Hne : nonempty (slice_to 6 (rstrip l)) = true).
      { apply nonempty_true. apply slice_to_nonempty; lia. }
      rewrite Hne. destruct continued; repeat split.
Qed.

Lemma convertFixedToFree_parsed_witness :
  exists self,
    parseLine (CodeLine_init (lit "     & + 2*y  ! more" ++ [nl]) false)
    = Some self
    /\ buildFullLine self = lit "     & + 2*y  ! more" ++ [nl]
    /\ buildFullLine (convertFixedToFree (set_isContinued true self))
       = lit " &+ 2*y&  ! more" ++ [nl]
    /\ fixedCont (convertFixedToFree (set_isContinued true self)) = [].
Proof.
  eexists. split; [vm_compute; reflexivity|].
  split; [vm_compute; reflexivity|].
  split; [vm_compute; reflexivity|].
  refine (proj1 (proj2 (proj2 (proj2
            (@convertFixedToFree_parsed
               (lit "     & + 2*y  ! more" ++ [nl]) true _ _ _)))));
    vm_compute; reflexivity.
Defined.

(** ** [markLongLines] *)

Lemma fold_left_remarks (rs : list str) :
  forall (acc : str),
    fold_left (fun output remark => output ++ lit "! TODO: " ++ remark ++ [nl])
      rs acc
    = acc ++ List.concat (map (fun remark => lit "! TODO: " ++ remark ++ [nl])
                            rs).
Proof.
  induction rs as [|r rs IH]; intro acc;
    cbn [fold_left map List.concat].
  - now rewrite app_nil_r.
  - rewrite IH. now rewrite <- !app_assoc.
Qed.

(** [rebuild] of a line that [markLongLines] has visited. *)
Lemma rebuild_marked (allowedLength : Z) (self : CodeLine) :
  remarks self = [] ->
  rebuild (if (getLength self >? allowedLength)%Z
           then set_remarks
                  (remarks self
                   ++ [lit "Line above is longer than "
                       ++ str_of_int allowedLength ++ lit " characters."])
                  self
           else self)
  = buildFullLine self
    ++ (if (getLength self >? allowedLength)%Z
        then longLineRemark allowedLength else []).
Proof.
  intro Hr. destruct (getLength self >? allowedLength)%Z.
  - unfold rebuild. rewrite fold_left_remarks. simpl. rewrite Hr. simpl.
    unfold longLineRemark. change (buildFullLine (set_remarks _ self))
      with (buildFullLine self).
    now rewrite <- !app_assoc, app_nil_r.
  - rewrite rebuild_no_remarks by exact Hr. now rewrite app_nil_r.
Qed.

(** Reading a file, parsing every line, marking the long lines and writing
    the file back puts one remark line under every line that has more than
    [allowedLength] characters before its last one, and changes nothing
    else; the number in the remark is [allowedLength] in decimal. *)
Theorem markLongLines_rebuild (allowedLength : Z) (content : list str)
    (free : bool) (codeLines : list CodeLine) :
  Forall (fun l => single_line l = true) content ->
  free = true \/ Forall (fun l => indented_label l = false) content ->
  Forall2 (fun unparsed self => parseLine unparsed = Some self)
    (CodeFile_init content free) codeLines ->
  CodeFile_rebuild (markLongLines allowedLength codeLines)
  = List.concat
      (map (fun l =>
              l ++ (if (Z.of_nat (len l) - 1 >? allowedLength)%Z
                    then longLineRemark allowedLength else []))
         content)
  /\ map buildFullLine (markLongLines allowedLength codeLines) = content.
Proof.
  intros Hl Hlab H.
  rewrite CodeFile_rebuild_concat. unfold markLongLines.
  rewrite !map_map.
  assert (E : forall l self,
             single_line l = true ->
             free = true \/ indented_label l = false ->
             parseLine (CodeLine_init l free) = Some self ->
             buildFullLine self = l /\ remarks self = []).
  { intros l self Hl1 Hlab1 Hp.
    destruct (parseLine_visible l Hl1 Hlab1 Hp) as (Hv & Hr & Hrem).
    rewrite buildFullLine_visible, Hv. split; [now symmetry|exact Hrem]. }
  revert codeLines H.
  induction content as [|l content IH]; intros codeLines H;
    inversion H as [|? self ? rest Hp Hrest]; subst; [now split|].
  inversion Hl as [|? ? Hl1 Hl2]; subst.
  assert (Hlab1 : free = true \/ indented_label l = false).
  { destruct Hlab as [Hlab|Hlab]; [now left|right]. now inversion Hlab. }
  assert (Hlab2 : free = true
                  \/ Forall (fun l => indented_label l = false) content).
  { destruct Hlab as [Hlab|Hlab]; [now left|right]. now inversion Hlab. }
  destruct (E l self Hl1 Hlab1 Hp) as (Hb & Hrem).
  destruct (IH Hl2 Hlab2 rest Hrest) as (IH1 & IH2).
  cbn [map List.concat].
  rewrite IH1, IH2, (rebuild_marked allowedLength self Hrem).
  unfold getLength. rewrite Hb. split; [reflexivity|].
  f_equal. now destruct (_ >? _)%Z.
Qed.

Lemma markLongLines_rebuild_witness :
  exists codeLines,
    Forall2 (fun unparsed self => parseLine unparsed = Some self)
      (CodeFile_init [lit "x = 1" ++ [nl]; lit "y = x + 10" ++ [nl]] true)
      codeLines
    /\ CodeFile_rebuild (markLongLines 8 codeLines)
       = lit "x = 1" ++ [nl] ++ lit "y = x + 10" ++ [nl]
         ++ lit "! TODO: Line above is longer than 8 characters." ++ [nl].
Proof.
  eexists. split.
  - repeat (constructor; [vm_compute; reflexivity|]). constructor.
  - refine (eq_trans
              (proj1 (@markLongLines_rebuild 8
                        [lit "x = 1" ++ [nl]; lit "y = x + 10" ++ [nl]]
                        true _ _ _ _)) _).
    + repeat constructor.
    + left. reflexivity.
    + repeat (constructor; [vm_compute; reflexivity|]). constructor.
    + vm_compute. reflexivity.
Defined.

(** ** The flag [(?i)]: keywords in either case *)

Lemma lower_lower : forall c, lower (lower c) = lower c.
Proof. intros [[] [] [] [] [] [] [] []]; reflexivity. Qed.

Lemma caseless_is_word : caseless is_word.
Proof. intros [[] [] [] [] [] [] [] []]; reflexivity. Qed.

Lemma caseless_is_space : caseless is_space.
Proof. intros [[] [] [] [] [] [] [] []]; reflexivity. Qed.

Lemma caseless_is_dot : caseless is_dot.
Proof. intros [[] [] [] [] [] [] [] []]; reflexivity. Qed.

Lemma caseless_type_name :
  caseless (fun c => negb (is_space c || Ascii.eqb c "(")).
Proof. intros [[] [] [] [] [] [] [] []]; reflexivity. Qed.

Lemma caseless_is_chr_i (a : ascii) : caseless (is_chr_i a).
Proof. intro c. unfold is_chr_i. now rewrite lower_lower. Qed.

Lemma caseless_nl (c : ascii) : Ascii.eqb (lower c) nl = Ascii.eqb c nl.
Proof. revert c. intros [[] [] [] [] [] [] [] []]; reflexivity. Qed.

Lemma caseless_same (p : ascii -> bool) (c d : ascii) :
  caseless p -> lower c = lower d -> p c = p d.
Proof. intros Hp E. now rewrite <- (Hp c), <- (Hp d), E. Qed.

Lemma same_text_eol (s s' : str) : same_text s s' -> at_eol s = at_eol s'.
Proof.
  intro H. destruct H as [|c d s s' Hcd H]; [reflexivity|].
  destruct H; [|reflexivity]. simpl.
  now rewrite <- (caseless_nl c), <- (caseless_nl d), Hcd.
Qed.

Lemma same_text_wb (pv pv' : option ascii) (s s' : str) :
  same_before pv pv' -> same_text s s' -> at_wb pv s = at_wb pv' s'.
Proof.
  intros Hpv H. unfold at_wb. f_equal.
  - destruct pv, pv'; simpl in *; try contradiction; [|reflexivity].
    now apply caseless_same; [apply caseless_is_word|].
  - destruct H; simpl; [reflexivity|].
    now apply caseless_same; [apply caseless_is_word|].
Qed.

Lemma same_text_len (s s' : str) : same_text s s' -> len s = len s'.
Proof. unfold len. induction 1; simpl; congruence. Qed.

Lemma rep_greedy_caseless (p : ascii -> bool) (k k' : kont) :
  caseless p -> same_kont k k' ->
  forall s s', same_text s s' ->
  forall lo hi pv pv' cs cs', same_before pv pv' ->
    is_some (rep_greedy p lo hi pv s cs k)
    = is_some (rep_greedy p lo hi pv' s' cs' k').
Proof.
  intros Hp Hk s s' H.
  induction H as [|c d s s' Hcd H IH]; intros lo hi pv pv' cs cs' Hpv.
  - simpl. destruct lo; [|reflexivity]. apply Hk; [exact Hpv|constructor].
  - simpl. rewrite (@caseless_same p c d Hp Hcd).
    assert (Hstop :
      is_some (match lo with O => k pv (c :: s) cs | S _ => None end)
      = is_some (match lo with O => k' pv' (d :: s') cs' | S _ => None end)).
    { destruct lo; [|reflexivity].
      apply Hk; [exact Hpv|now constructor]. }
    destruct (p d && can_more hi); [|exact Hstop].
    specialize (IH (pred lo) (dec_hi hi) (Some c) (Some d) cs cs' Hcd).
    destruct (rep_greedy p (pred lo) (dec_hi hi) (Some c) s cs k),
      (rep_greedy p (pred lo) (dec_hi hi) (Some d) s' cs' k');
      simpl in IH; try discriminate; [reflexivity|exact Hstop].
Qed.

Lemma rep_lazy_caseless (p : ascii -> bool) (k k' : kont) :
  caseless p -> same_kont k k' ->
  forall s s', same_text s s' ->
  forall lo hi pv pv' cs cs', same_before pv pv' ->
    is_some (rep_lazy p lo hi pv s cs k)
    = is_some (rep_lazy p lo hi pv' s' cs' k').
Proof.
  intros Hp Hk s s' H.
  induction H as [|c d s s' Hcd H IH]; intros lo hi pv pv' cs cs' Hpv.
  - simpl. destruct lo; [|reflexivity].
    assert (E := Hk pv pv' [] [] cs cs' Hpv (Forall2_nil _)).
    destruct (k pv [] cs), (k' pv' [] cs'); simpl in E; try discriminate;
      reflexivity.
  - simpl. rewrite (@caseless_same p c d Hp Hcd).
    assert (Hmore :
      is_some (if p d && can_more hi
               then rep_lazy p (pred lo) (dec_hi hi) (Some c) s cs k
               else None)
      = is_some (if p d && can_more hi
                 then rep_lazy p (pred lo) (dec_hi hi) (Some d) s' cs' k'
                 else None)).
    { destruct (p d && can_more hi); [|reflexivity]. now apply IH. }
    destruct lo; [|exact Hmore].
    assert (E := Hk pv pv' (c :: s) (d :: s') cs cs' Hpv
                   (Forall2_cons _ _ Hcd H)).
    destruct (k pv (c :: s) cs), (k' pv' (d :: s') cs'); simpl in E;
      try discriminate; [reflexivity|exact Hmore].
Qed.

(** A pattern under [(?i)] matches a text if and only if it matches the
    same text in other case. *)
Lemma rmatch_caseless (r : regex) :
  caseless_regex r ->
  forall k k' pv pv' s s' cs cs',
    same_kont k k' -> same_before pv pv' -> same_text s s' ->
    is_some (rmatch r pv s cs k) = is_some (rmatch r pv' s' cs' k').
Proof.
  induction r as [|p|p lo hi g|r1 IH1 r2 IH2|r1 IH1 r2 IH2|r1 IH1|n r1 IH1| |];
    intros Hr k k' pv pv' s s' cs cs' Hk Hpv H; simpl in *.
  - now apply Hk.
  - destruct H as [|c d s s' Hcd H]; [reflexivity|].
    rewrite (@caseless_same p c d Hr Hcd).
    destruct (p d); [|reflexivity]. now apply Hk.
  - destruct g; [now apply rep_greedy_caseless|now apply rep_lazy_caseless].
  - destruct Hr as [Hr1 Hr2]. apply IH1; auto.
    intros pv1 pv1' s1 s1' cs1 cs1' Hpv1 H1. now apply IH2.
  - destruct Hr as [Hr1 Hr2].
    specialize (IH1 Hr1 k k' pv pv' s s' cs cs' Hk Hpv H).
    specialize (IH2 Hr2 k k' pv pv' s s' cs cs' Hk Hpv H).
    destruct (rmatch r1 pv s cs k), (rmatch r1 pv' s' cs' k'); simpl in IH1;
      try discriminate; [reflexivity|exact IH2].
  - specialize (IH1 Hr k k' pv pv' s s' cs cs' Hk Hpv H).
    destruct (rmatch r1 pv s cs k), (rmatch r1 pv' s' cs' k'); simpl in IH1;
      try discriminate; [reflexivity|now apply Hk].
  - apply IH1; auto.
    intros pv1 pv1' s1 s1' cs1 cs1' Hpv1 H1. now apply Hk.
  - rewrite (@same_text_eol s s' H). destruct (at_eol s'); [|reflexivity].
    now apply Hk.
  - rewrite (@same_text_wb pv pv' s s' Hpv H). destruct (at_wb pv' s'); [|reflexivity].
    now apply Hk.
Qed.

Lemma matches_caseless (r : regex) (s s' : str) :
  caseless_regex r -> same_text s s' -> matches r s = matches r s'.
Proof.
  intros Hr H. unfold matches, re_match.
  assert (E := @rmatch_caseless r Hr (fun _ _ cs => Some cs)
                 (fun _ _ cs => Some cs) None None s s' [] []).
  unfold is_some in E.
  destruct (rmatch r None s [] _), (rmatch r None s' [] _);
    try reflexivity; (rewrite E || rewrite <- E); try reflexivity;
    try exact I; try exact H; intros ? ? ? ? ? ? _ _; reflexivity.
Qed.

Lemma caseless_word_i (x : str) : caseless_regex (word_i x).
Proof.
  induction x as [|c x IH]; simpl; [exact I|].
  split; [apply caseless_is_chr_i|exact IH].
Qed.

Ltac caseless_pattern :=
  repeat first
    [ exact I
    | apply caseless_word_i
    | apply caseless_is_chr_i
    | apply caseless_is_word
    | apply caseless_is_space
    | apply caseless_is_dot
    | apply caseless_type_name
    | split ].

(** The keywords that open and close blocks are found in either case:
    two lines whose code differs in the case of letters only are treated
    alike by [increasesIndentAfter] and by [decreasesIndentBefore]. *)
Theorem indentation_keywords_caseless (a b : CodeLine) :
  same_text (code a) (code b) ->
  increasesIndentAfter a = increasesIndentAfter b
  /\ decreasesIndentBefore a = decreasesIndentBefore b.
Proof.
  intro H. unfold increasesIndentAfter, decreasesIndentBefore.
  assert (E : forall r, caseless_regex r ->
                matches r (code a) = matches r (code b))
    by (intros r Hr; now apply matches_caseless).
  rewrite (E re_do), (E re_ifThen), (E (re_keyword "subroutine")),
    (E (re_keyword "module")), (E re_type), (E (re_keyword "interface")),
    (E re_blockData), (E (re_keyword "function")), (E re_where),
    (E re_else), (E re_decrease);
    [split; reflexivity|..];
    unfold re_do, re_ifThen, re_keyword, re_type, re_blockData, re_where,
      re_else, re_decrease, plus, star, lazy_star; simpl;
    caseless_pattern.
Qed.

Lemma indentation_keywords_caseless_witness :
  increasesIndentAfter
    (set_code (lit "IF (X .GT. 0) THEN") (CodeLine_init [] true))
  = increasesIndentAfter
      (set_code (lit "if (x .gt. 0) then") (CodeLine_init [] true))
  /\ decreasesIndentBefore
       (set_code (lit "IF (X .GT. 0) THEN") (CodeLine_init [] true))
     = decreasesIndentBefore
         (set_code (lit "if (x .gt. 0) then") (CodeLine_init [] true)).
Proof.
  apply indentation_keywords_caseless.
  repeat constructor.
Defined.

(** ** The keywords that close a block *)

Lemma is_some_orelse (A : Type) (x y : option A) :
  is_some (match x with Some m => Some m | None => y end)
  = is_some x || is_some y.
Proof. now destruct x. Qed.

Lemma begins_with_i_app (a b x : str) :
  begins_with_i (a ++ b) x
  = match begins_with_i a x with
    | Some rest => begins_with_i b rest
    | None => None
    end.
Proof.
  revert x. induction a as [|c a IH]; intro x; simpl; [reflexivity|].
  destruct x as [|d x]; [reflexivity|].
  destruct (is_chr_i c d); [apply IH|reflexivity].
Qed.

(** A literal word under [(?i)] takes the word in either case from the
    text. *)
Lemma rmatch_word_i (kw : str) :
  forall pv s cs k,
    rmatch (word_i kw) pv s cs k
    = match begins_with_i kw s with
      | Some rest => k (lastc pv (firstn (len kw) s)) rest cs
      | None => None
      end.
Proof.
  induction kw as [|a kw IH]; intros pv s cs k; simpl; [reflexivity|].
  destruct s as [|c s]; [reflexivity|].
  destruct (is_chr_i a c); [|reflexivity].
  rewrite IH. reflexivity.
Qed.

(** After a word of word characters the position is a word boundary
    exactly when no word character follows. *)
Lemma word_before_begins (kw : str) :
  kw <> [] -> forallb is_word kw = true ->
  forall pv s rest,
    begins_with_i kw s = Some rest ->
    word_before (lastc pv (firstn (len kw) s)) = true.
Proof.
  induction kw as [|a kw IH]; intros Hne Hw pv s rest H; [now elim Hne|].
  simpl in Hw. apply andb_true_iff in Hw. destruct Hw as [Ha Hw].
  destruct s as [|c s]; [discriminate|]. simpl in H.
  destruct (is_chr_i a c) eqn:Hc; [|discriminate].
  change (firstn (len (a :: kw)) (c :: s)) with (c :: firstn (len kw) s).
  change (lastc pv (c :: firstn (len kw) s))
    with (lastc (Some c) (firstn (len kw) s)).
  destruct kw as [|b kw].
  - simpl. unfold is_chr_i in Hc. apply Ascii.eqb_eq in Hc.
    now rewrite (@caseless_same is_word c a caseless_is_word Hc).
  - apply (IH ltac:(discriminate) Hw (Some c) s rest H).
Qed.

Lemma at_wb_after_word (pv : option ascii) (rest : str) :
  word_before pv = true -> at_wb pv rest = negb (word_after rest).
Proof. intro H. unfold at_wb. rewrite H. now destruct (word_after rest). Qed.

(** [ (end(if|do|where)?|else(if)?)\b ] as a list of keywords. *)
Lemma matches_re_decrease (s : str) :
  matches re_decrease s
  = existsb (fun kw => keyword_at_start kw s) closing_keywords.
Proof.
  unfold closing_keywords, existsb, keyword_at_start.
  change (lit "endif") with (lit "end" ++ lit "if").
  change (lit "enddo") with (lit "end" ++ lit "do").
  change (lit "endwhere") with (lit "end" ++ lit "where").
  change (lit "elseif") with (lit "else" ++ lit "if").
  rewrite !begins_with_i_app.
  change (matches re_decrease s) with (is_some (re_match re_decrease s)).
  unfold re_match, re_decrease. cbn [rmatch].
  rewrite is_some_orelse, !rmatch_word_i.
  assert (Hwb : forall kw pv x rest,
            kw <> [] -> forallb is_word kw = true ->
            begins_with_i kw x = Some rest ->
            at_wb (lastc pv (firstn (len kw) x)) rest
            = negb (word_after rest)).
  { intros kw pv x rest Hne Hw H. apply at_wb_after_word.
    now apply (@word_before_begins kw Hne Hw pv x rest). }
  destruct (begins_with_i (lit "end") s) as [r1|] eqn:E1;
    destruct (begins_with_i (lit "else") s) as [r2|] eqn:E2;
    cbn [rmatch]; rewrite ?is_some_orelse, ?rmatch_word_i;
    cbn [is_some orb].
  all: try (destruct (begins_with_i (lit "if") r1) as [r3|] eqn:E3;
            destruct (begins_with_i (lit "do") r1) as [r4|] eqn:E4;
            destruct (begins_with_i (lit "where") r1) as [r5|] eqn:E5).
  all: try (destruct (begins_with_i (lit "if") r2) as [r6|] eqn:E6).
  all: cbn [rmatch is_some orb]; rewrite ?is_some_orelse;
    repeat (rewrite Hwb; [|discriminate|reflexivity|eassumption]);
    cbn [is_some orb].
  all: repeat match goal with
         | |- context [negb (word_after ?r)] =>
             destruct (negb (word_after r))
         end; reflexivity.
Qed.

(** [decreasesIndentBefore] holds exactly of the lines whose code begins,
    in either case, with one of the keywords [end], [endif], [enddo],
    [endwhere], [else] and [elseif], ending there. *)
Theorem decreasesIndentBefore_keywords (self : CodeLine) :
  decreasesIndentBefore self
  = existsb (fun kw => keyword_at_start kw (code self)) closing_keywords.
Proof.
  unfold decreasesIndentBefore. rewrite <- matches_re_decrease.
  now destruct (matches re_decrease (code self)).
Qed.

(** [ else(if)?\b ] as a list of keywords. *)
Lemma matches_re_else (s : str) :
  matches re_else s
  = keyword_at_start "elseif" s || keyword_at_start "else" s.
Proof.
  unfold keyword_at_start.
  change (lit "elseif") with (lit "else" ++ lit "if").
  rewrite !begins_with_i_app.
  change (matches re_else s) with (is_some (re_match re_else s)).
  unfold re_match, re_else. cbn [rmatch].
  rewrite !rmatch_word_i.
  destruct (begins_with_i (lit "else") s) as [r2|] eqn:E2; [|reflexivity].
  cbn [rmatch]. rewrite is_some_orelse, rmatch_word_i.
  destruct (begins_with_i (lit "if") r2) as [r6|] eqn:E6;
    cbn [rmatch is_some orb];
    repeat (rewrite at_wb_after_word;
            [|eapply word_before_begins;
              [|reflexivity|eassumption]; discriminate]);
    repeat match goal with
      | |- context [negb (word_after ?r)] => destruct (negb (word_after r))
      end; reflexivity.
Qed.

Lemma keyword_at_start_nonempty (kw : string) (x : str) :
  lit kw <> [] -> keyword_at_start kw x = true -> x <> [].
Proof.
  unfold keyword_at_start. intros Hkw H ->.
  destruct (lit kw); [now elim Hkw|discriminate].
Qed.

(** A line whose code begins with the keyword [else] or [elseif] closes a
    block and opens one: [fixIndentation] writes it one level out, at level
    0 at least, and the depth after it is the depth before it, or 1 when
    that was less. *)
Theorem fixIndentation_else (indent : str) (contiIndent : Z) (cur : Z)
    (x : CodeLine) :
  keyword_at_start "else" (code x) = true
  \/ keyword_at_start "elseif" (code x) = true ->
  fst (fixIndentation_body indent contiIndent cur x) = Z.max cur 1
  /\ leftSpace (snd (fixIndentation_body indent contiIndent cur x))
     = str_mul indent
         (Z.max (cur - 1) 0
          + (if isContinuation x then contiIndent else 0))%Z
  /\ (remarks (snd (fixIndentation_body indent contiIndent cur x))
      = if (cur <? 1)%Z then remarks x ++ [negativeIndentation]
        else remarks x).
Proof.
  intro H.
  assert (Hcode : nonempty (code x) = true).
  { apply nonempty_true.
    destruct H as [H|H]; eapply keyword_at_start_nonempty; try exact H;
      discriminate. }
  assert (Hdec : matches re_decrease (code x) = true).
  { rewrite matches_re_decrease. unfold closing_keywords, existsb.
    destruct H as [-> | ->]; now rewrite ?orb_true_r. }
  assert (Helse : matches re_else (code x) = true).
  { rewrite matches_re_else. destruct H as [-> | ->]; now rewrite ?orb_true_r. }
  unfold fixIndentation_body, fixIndentation_enter, setIndentation,
    decreasesIndentBefore, increasesIndentAfter, hasCode.
  rewrite Hdec.
  destruct (Z.ltb_spec (cur - 1) 0) as [Hlt|Hge];
    destruct (Z.ltb_spec cur 1) as [Hlt1|Hge1]; try lia;
    cbn [fst snd code comment remarks leftSpace isContinuation
         set_remarks set_leftSpace];
    rewrite Hcode;
    cbn [fst snd code comment remarks leftSpace isContinuation
         set_remarks set_leftSpace orb];
    rewrite Helse, ?orb_true_r;
    cbn [fst snd code comment remarks leftSpace isContinuation
         set_remarks set_leftSpace orb].
  - replace (Z.max (cur - 1) 0) with 0%Z by lia.
    repeat split. lia.
  - replace (Z.max (cur - 1) 0) with (cur - 1)%Z by lia.
    repeat split. lia.
Qed.

Lemma fixIndentation_else_witness :
  fst (fixIndentation_body (lit "  ") 2 3
         (set_code (lit "ELSE IF (x) THEN") (CodeLine_init [] true)))
  = Z.max 3 1
  /\ leftSpace
       (snd (fixIndentation_body (lit "  ") 2 3
               (set_code (lit "ELSE IF (x) THEN") (CodeLine_init [] true))))
     = str_mul (lit "  ")
         (Z.max (3 - 1) 0
          + (if isContinuation
                  (set_code (lit "ELSE IF (x) THEN") (CodeLine_init [] true))
             then 2 else 0))%Z
  /\ remarks
       (snd (fixIndentation_body (lit "  ") 2 3
               (set_code (lit "ELSE IF (x) THEN") (CodeLine_init [] true))))
     = (if (3 <? 1)%Z
        then remarks
               (set_code (lit "ELSE IF (x) THEN") (CodeLine_init [] true))
             ++ [negativeIndentation]
        else remarks
               (set_code (lit "ELSE IF (x) THEN") (CodeLine_init [] true))).
Proof.
  apply (@fixIndentation_else (lit "  ") 2 3
           (set_code (lit "ELSE IF (x) THEN") (CodeLine_init [] true))).
  left. vm_compute. reflexivity.
Defined.

(** ** [fixDeclarationsInCode] *)

Lemma is_digit_word (c : ascii) : is_digit c = true -> is_word c = true.
Proof. unfold is_word. intros ->. now rewrite orb_true_r. Qed.

Lemma is_chr_i_star (c : ascii) : is_chr_i "*" c = Ascii.eqb c "*".
Proof. revert c. intros [[] [] [] [] [] [] [] []]; reflexivity. Qed.

Lemma space_not_word (c : ascii) : is_space c = true -> is_word c = false.
Proof.
  revert c. intros [[] [] [] [] [] [] [] []]; vm_compute; intro H;
    try discriminate; reflexivity.
Qed.

Lemma span_digits_split (x : str) :
  x = fst (span_digits x) ++ snd (span_digits x)
  /\ forallb is_digit (fst (span_digits x)) = true.
Proof.
  induction x as [|c x (IH1 & IH2)]; simpl; [now split|].
  destruct (is_digit c) eqn:Hc; [|now split].
  destruct (span_digits x) as [d rest]. simpl in *.
  rewrite Hc, <- IH1. now split.
Qed.

(** A greedy run of digits before [\b] takes all the digits there are:
    if it gave one back, a digit would follow a digit. *)
Lemma rep_greedy_digits_wb (K : kont) :
  forall s lo pv cs,
    (lo = 0 -> word_before pv = true) ->
    rep_greedy is_digit lo None pv s cs
      (fun pv' s' cs' => if at_wb pv' s' then K pv' s' cs' else None)
    = if (lo <=? len (fst (span_digits s)))
         && at_wb (lastc pv (fst (span_digits s))) (snd (span_digits s))
      then K (lastc pv (fst (span_digits s))) (snd (span_digits s)) cs
      else None.
Proof.
  induction s as [|c s IH]; intros lo pv cs Hpv.
  - simpl. destruct lo; reflexivity.
  - simpl. destruct (is_digit c) eqn:Hc; simpl.
    + rewrite (IH (pred lo) (Some c) cs
                 (fun _ => is_digit_word c Hc)).
      destruct (span_digits s) as [d rest]. simpl.
      change (len (c :: d)) with (S (len d)).
      assert (E : (pred lo <=? len d) = (lo <=? S (len d))).
      { destruct lo; simpl; [|reflexivity].
        now destruct (len d). }
      rewrite E.
      destruct ((lo <=? S (len d)) && at_wb (lastc (Some c) d) rest) eqn:E1.
      * destruct (K (lastc (Some c) d) rest cs) eqn:E2; [reflexivity|].
        destruct lo; [|reflexivity].
        unfold at_wb. simpl. rewrite (Hpv eq_refl), (is_digit_word c Hc).
        reflexivity.
      * destruct lo; [|reflexivity].
        unfold at_wb at 1. simpl.
        rewrite (Hpv eq_refl), (is_digit_word c Hc). reflexivity.
    + destruct lo; reflexivity.
Qed.

(** [ (\d+)\b ] *)
Lemma rmatch_number (n : nat) (k : kont) (s : str) (pv : option ascii)
    (cs : captures) :
  rmatch (Cat (Grp n (plus is_digit)) Wb) pv s cs k
  = if nonempty (fst (span_digits s))
       && at_wb (lastc pv (fst (span_digits s))) (snd (span_digits s))
    then k (lastc pv (fst (span_digits s))) (snd (span_digits s))
           ((n, fst (span_digits s)) :: cs)
    else None.
Proof.
  cbn [rmatch plus].
  rewrite (@rep_greedy_digits_wb
             (fun pv' s' cs' =>
                k pv' s' ((n, firstn (len s - len s') s) :: cs'))
             s 1 pv cs ltac:(discriminate)).
  destruct (span_digits_split s) as [E _].
  set (d := fst (span_digits s)) in *. set (rest := snd (span_digits s)) in *.
  replace (firstn (len s - len rest) s) with d
    by (rewrite E; symmetry; apply firstn_len_app).
  replace (1 <=? len d) with (nonempty d); [reflexivity|].
  unfold nonempty. now destruct (len d).
Qed.

Lemma begins_with_i_split (kw : str) :
  forall s rest,
    begins_with_i kw s = Some rest ->
    s = firstn (len kw) s ++ rest /\ len (firstn (len kw) s) = len kw.
Proof.
  induction kw as [|a kw IH]; intros s rest H.
  - simpl in H. injection H as ->. now split.
  - destruct s as [|c s]; [discriminate|]. simpl in H.
    destruct (is_chr_i a c); [|discriminate].
    destruct (IH s rest H) as [E1 E2].
    change (firstn (len (a :: kw)) (c :: s)) with (c :: firstn (len kw) s).
    split; [simpl; now rewrite <- E1|].
    unfold len in *. simpl. now rewrite E2.
Qed.

Lemma begins_with_i_word_after (a : ascii) (kw s rest : str) :
  is_word a = true -> begins_with_i (a :: kw) s = Some rest ->
  word_after s = true.
Proof.
  intros Ha H. destruct s as [|c s]; [discriminate|]. simpl in *.
  destruct (is_chr_i a c) eqn:Hc; [|discriminate].
  unfold is_chr_i in Hc. apply Ascii.eqb_eq in Hc.
  now rewrite (@caseless_same is_word c a caseless_is_word Hc).
Qed.

(** One step of the matcher on a pattern that goes on. *)
Lemma rmatch_wb_cat (b : regex) (pv : option ascii) (s : str)
    (cs : captures) (k : kont) :
  rmatch (Cat Wb b) pv s cs k
  = if at_wb pv s then rmatch b pv s cs k else None.
Proof. reflexivity. Qed.

Lemma rmatch_chr_cat (p : ascii -> bool) (b : regex) (pv : option ascii)
    (s : str) (cs : captures) (k : kont) :
  rmatch (Cat (Chr p) b) pv s cs k
  = match s with
    | c :: s' => if p c then rmatch b (Some c) s' cs k else None
    | [] => None
    end.
Proof. reflexivity. Qed.

Lemma rmatch_opt_chr_cat (p : ascii -> bool) (b : regex)
    (pv : option ascii) (s : str) (cs : captures) (k : kont) :
  rmatch (Cat (Opt (Chr p)) b) pv s cs k
  = match
      match s with
      | c :: s' => if p c then rmatch b (Some c) s' cs k else None
      | [] => None
      end
    with
    | Some m => Some m
    | None => rmatch b pv s cs k
    end.
Proof. reflexivity. Qed.

Lemma rmatch_word_i_cat (kw : str) (b : regex) (pv : option ascii)
    (s : str) (cs : captures) (k : kont) :
  rmatch (Cat (word_i kw) b) pv s cs k
  = match begins_with_i kw s with
    | Some rest => rmatch b (lastc pv (firstn (len kw) s)) rest cs k
    | None => None
    end.
Proof.
  change (rmatch (Cat (word_i kw) b) pv s cs k)
    with (rmatch (word_i kw) pv s cs
            (fun pv' s' cs' => rmatch b pv' s' cs' k)).
  now rewrite rmatch_word_i.
Qed.

(** The pattern of [fixDeclarationsInCode], as a scanner. *)
Lemma re_match0_realKind (s : str) :
  match real_kind s with
  | Some (d, rest) =>
      exists pre, s = pre ++ rest
                  /\ re_match0 re_realKind s = Some [(0, pre); (1, d)]
  | None => re_match0 re_realKind s = None
  end.
Proof.
  unfold real_kind, re_match0, re_realKind.
  rewrite rmatch_wb_cat, rmatch_word_i_cat.
  destruct (begins_with_i (lit "real") s) as [r1|] eqn:E1;
    [|now destruct (at_wb None s)].
  assert (Hw : at_wb None s = true).
  { unfold at_wb. simpl.
    now rewrite (@begins_with_i_word_after "r" (lit "eal") s r1 eq_refl E1). }
  rewrite Hw.
  destruct (begins_with_i_split _ _ E1) as [Es Hlen].
  set (p4 := firstn (len (lit "real")) s) in *.
  assert (Hb : word_before (lastc None p4) = true).
  { apply (@word_before_begins (lit "real") ltac:(discriminate) eq_refl
             None s r1 E1). }
  rewrite rmatch_wb_cat, (@at_wb_after_word (lastc None p4) r1 Hb).
  set (k0 := fun (_ : option ascii) (s' : str) (cs : captures) =>
               Some ((0, firstn (len s - len s') s) :: cs)).
  set (number := Cat (Grp 1 (plus is_digit)) Wb).
  (* the number, from the text [r4] on, [q] being what stands before *)
  assert (Hnum : forall (pv : option ascii) (r4 q : str),
            s = q ++ r4 ->
            match
              (let (d, rest) := span_digits r4 in
               if nonempty d && negb (word_after rest)
               then Some (d, rest) else None)
            with
            | Some (d, rest) =>
                exists pre, s = pre ++ rest
                  /\ rmatch number pv r4 [] k0 = Some [(0, pre); (1, d)]
            | None => rmatch number pv r4 [] k0 = None
            end).
  { intros pv r4 q Eq. unfold number. rewrite rmatch_number.
    destruct (span_digits_split r4) as [E4 Hd].
    destruct (span_digits r4) as [d rest]. simpl in *.
    destruct (nonempty d) eqn:Hne; [|reflexivity]. simpl.
    assert (Hbd : word_before (lastc pv d) = true).
    { clear - Hne Hd. revert pv. induction d as [|c d IH]; intro pv;
        [discriminate|].
      simpl in Hd. apply andb_true_iff in Hd. destruct Hd as [Hc Hd].
      simpl. destruct d as [|c' d].
      - simpl. now apply is_digit_word.
      - apply IH; [exact Hd|reflexivity]. }
    rewrite (@at_wb_after_word (lastc pv d) rest Hbd).
    destruct (negb (word_after rest)); [|reflexivity].
    exists (q ++ d). split; [rewrite Eq, E4; now rewrite app_assoc|].
    unfold k0. f_equal. f_equal. f_equal. rewrite Eq, E4, app_assoc.
    apply firstn_len_app. }
  set (star := Cat (Chr (is_chr_i "*")) (Cat (Opt (Chr is_space)) number)).
  (* the star, from the text [r2] on *)
  assert (Hstar : forall (pv : option ascii) (r2 q : str),
            s = q ++ r2 ->
            match
              match r2 with
              | c :: r3 =>
                  if Ascii.eqb c "*" then
                    let (d, rest) := span_digits (skip_space r3) in
                    if nonempty d && negb (word_after rest)
                    then Some (d, rest) else None
                  else None
              | [] => None
              end
            with
            | Some (d, rest) =>
                exists pre, s = pre ++ rest
                  /\ rmatch star pv r2 [] k0 = Some [(0, pre); (1, d)]
            | None => rmatch star pv r2 [] k0 = None
            end).
  { intros pv r2 q Eq. unfold star. rewrite rmatch_chr_cat.
    destruct r2 as [|c r3]; [reflexivity|].
    rewrite is_chr_i_star.
    destruct (Ascii.eqb c "*") eqn:Hc; [|reflexivity].
    rewrite rmatch_opt_chr_cat.
    destruct r3 as [|c3 r4].
    - simpl skip_space.
      exact (Hnum (Some c) [] (q ++ [c]) ltac:(now rewrite <- app_assoc)).
    - simpl skip_space. destruct (is_space c3) eqn:H3.
      + pose proof (Hnum (Some c3) r4 (q ++ [c; c3])
                      ltac:(now rewrite <- app_assoc)) as H.
        destruct (let (d, rest) := span_digits r4 in
                  if nonempty d && negb (word_after rest)
                  then Some (d, rest) else None) as [[d rest]|].
        * destruct H as (pre & Ep & E). rewrite E. now exists pre.
        * rewrite H.
          (* giving the whitespace back: no digit stands there *)
          unfold number. rewrite rmatch_number. simpl.
          assert (Hd3 : is_digit c3 = false).
          { destruct (is_digit c3) eqn:Hd3; [|reflexivity].
            apply digit_not_space in Hd3. congruence. }
          rewrite Hd3. reflexivity.
      + exact (Hnum (Some c) (c3 :: r4) (q ++ [c])
                 ltac:(now rewrite <- app_assoc)). }
  fold number. fold star.
  destruct (negb (word_after r1)) eqn:Hwa.
  - rewrite rmatch_opt_chr_cat.
    destruct r1 as [|c1 r2]; [reflexivity|].
    simpl skip_space. destruct (is_space c1) eqn:H1.
    + pose proof (Hstar (Some c1) r2 (p4 ++ [c1])
                    ltac:(now rewrite <- app_assoc)) as H.
      destruct (match r2 with
                | [] => None
                | c :: r3 => _
                end) as [[d rest]|].
      * destruct H as (pre & Ep & E). rewrite E. now exists pre.
      * rewrite H. unfold star. rewrite rmatch_chr_cat, is_chr_i_star.
        destruct (Ascii.eqb_spec c1 "*") as [->|_];
          [discriminate|reflexivity].
    + exact (Hstar (lastc None p4) (c1 :: r2) p4 Es).
  - (* a word character follows [real] *)
    apply negb_false_iff in Hwa.
    destruct r1 as [|c1 r2]; [discriminate|]. simpl in Hwa.
    simpl skip_space.
    destruct (is_space c1) eqn:H1;
      [apply space_not_word in H1; congruence|].
    destruct (Ascii.eqb_spec c1 "*") as [->|_]; [discriminate|reflexivity].
Qed.

Lemma set_code_same (self : CodeLine) : set_code (code self) self = self.
Proof. now destruct self. Qed.

Lemma slice_from_len_pre (pre rest : str) :
  slice_from (len pre) (pre ++ rest) = rest.
Proof.
  unfold slice_from, len. rewrite skipn_app, Nat.sub_diag, skipn_all.
  reflexivity.
Qed.

Lemma fixDeclarationsInCode_scan (self : CodeLine) :
  fixDeclarationsInCode self
  = match real_kind (code self) with
    | Some (d, rest) => set_code (lit "real(" ++ d ++ lit ")" ++ rest) self
    | None => self
    end.
Proof.
  unfold fixDeclarationsInCode, re_sub_start.
  pose proof (re_match0_realKind (code self)) as H.
  destruct (real_kind (code self)) as [[d rest]|].
  - destruct H as (pre & Ep & ->). cbn [group Nat.eqb].
    rewrite Ep, slice_from_len_pre.
    now rewrite <- !app_assoc.
  - rewrite H. apply set_code_same.
Qed.

(** [fixDeclarationsInCode] rewrites the code of a line exactly when it
    begins with [real] in either case, one whitespace character at most,
    [*], one whitespace character at most and a number that ends there: the
    code becomes [real(], the number, [)] and what followed the number.
    Any other line is left as it is, and so is a line rewritten once. *)
Theorem fixDeclarationsInCode_spec (self : CodeLine) :
  fixDeclarationsInCode self
  = match real_kind (code self) with
    | Some (d, rest) => set_code (lit "real(" ++ d ++ lit ")" ++ rest) self
    | None => self
    end
  /\ fixDeclarationsInCode (fixDeclarationsInCode self)
     = fixDeclarationsInCode self.
Proof.
  split; [apply fixDeclarationsInCode_scan|].
  rewrite (fixDeclarationsInCode_scan self).
  destruct (real_kind (code self)) as [[d rest]|] eqn:E.
  - rewrite fixDeclarationsInCode_scan. reflexivity.
  - rewrite fixDeclarationsInCode_scan. now rewrite E.
Qed.

(** The declaration of the source's comment, in upper case and with
    blanks. *)
Example fixDeclarationsInCode_real8 :
  code (fixDeclarationsInCode
          (set_code (lit "REAL * 8 x, y") (CodeLine_init [] true)))
  = lit "real(8) x, y".
Proof. vm_compute. reflexivity. Qed.

(** ** From the fixed layout to the free one *)

Lemma marked_nth_form (codeLines : list CodeLine) :
  forall i ci,
  nth_error (marked codeLines) i = Some ci ->
  exists x,
    nth_error codeLines i = Some x
    /\ ci = if hasCode x && pending (skipn (S i) codeLines)
            then set_isContinued true x else x.
Proof.
  induction codeLines as [|x rest IH]; intros [|i] ci Hi; simpl in *;
    try discriminate.
  - injection Hi as <-. now exists x.
  - now apply IH.
Qed.

Lemma verifyContinuation_flagged (codeLines : list CodeLine) :
  Forall (fun c => isContinuation c = true -> hasCode c = true)
    (map verifyContinuation codeLines).
Proof.
  induction codeLines as [|x rest IH]; simpl; constructor; auto.
  unfold verifyContinuation. destruct (hasCode x) eqn:E; simpl.
  - intros _. exact E.
  - discriminate.
Qed.

(** One line through the three passes; [c] is the test of
    [identifyContinuations] on it. *)
Lemma convert_after_verify (l : str) (p : CodeLine) (c : bool) :
  single_line l = true ->
  parseLine (CodeLine_init l false) = Some p ->
  (c = true -> hasCode p = true) ->
  let x := verifyContinuation p in
  let out := convertFixedToFree (if c then set_isContinued true x else x) in
  hasCode out = hasCode p
  /\ hasCode x = hasCode p
  /\ (freeContEnd out = lit "&" <-> c = true)
  /\ (freeContBeg out = lit "&" <-> isContinuation x = true).
Proof.
  intros Hl H Hc. parse_paths l false Hl H; cbv zeta.
  - destruct c; [specialize (Hc eq_refl); discriminate|].
    repeat split; try discriminate.
  - destruct c; [specialize (Hc eq_refl); discriminate|].
    repeat split; try discriminate.
  - destruct c; [specialize (Hc eq_refl); discriminate|].
    unfold convertFixedToFree, verifyContinuation. simpl.
    assert (Hne : nonempty (rstrip l) = true).
    { unfold char_at_in in Hmark. destruct (rstrip l); [discriminate|].
      reflexivity. }
    rewrite Hne.
    destruct (nonempty (lstrip (slice_from 1 (rstrip l))));
      repeat split; try discriminate.
  - assert (Hfl : fl = [] /\ fc = [])
      by (unfold regions_ok in Hok; tauto).
    destruct Hfl as [-> ->].
    unfold verifyContinuation, hasCode in *. simpl in *.
    rest_paths HX; unfold convertFixedToFree, hasCode; simpl.
    + destruct (nonempty cd) eqn:Hcd, c; simpl; rewrite ?Hcd; simpl;
        try (specialize (Hc eq_refl));
        repeat split; try discriminate; auto.
    + assert (Hne : nonempty d = true).
      { apply nonempty_true. intros ->. unfold len in Hd1. simpl in Hd1.
        lia. }
      destruct (nonempty cd) eqn:Hcd, c; simpl;
        repeat (rewrite ?Hne, ?Hcd; simpl);
        try (specialize (Hc eq_refl));
        repeat split; try discriminate; auto.
    + assert (Hne : nonempty (slice_to 6 (rstrip l)) = true).
      { apply nonempty_true. apply slice_to_nonempty; lia. }
      destruct (nonempty cd) eqn:Hcd, c; simpl;
        repeat (rewrite ?Hne, ?Hcd; simpl);
        try (specialize (Hc eq_refl));
        repeat split; try discriminate; auto.
Qed.

Lemma marked_nth_map (codeLines : list CodeLine) :
  forall i,
    nth_error (marked codeLines) i
    = option_map
        (fun x => if hasCode x && pending (skipn (S i) codeLines)
                  then set_isContinued true x else x)
        (nth_error codeLines i).
Proof.
  induction codeLines as [|x rest IH]; intros [|i]; simpl; auto.
Qed.

Lemma hasCode_verifyContinuation (p : CodeLine) :
  hasCode (verifyContinuation p) = hasCode p.
Proof. unfold verifyContinuation. now destruct (hasCode p) eqn:E. Qed.

(** Line [j] before and after the three passes. *)
Lemma fixed_to_free_view (content : list str) (codeLines : list CodeLine) :
  Forall (fun l => single_line l = true) content ->
  Forall2 (fun unparsed self => parseLine unparsed = Some self)
    (CodeFile_init content false) codeLines ->
  forall j,
    match nth_error codeLines j with
    | Some p =>
        nth_error (map verifyContinuation codeLines) j
        = Some (verifyContinuation p)
        /\ exists oj,
             nth_error (fixed_to_free codeLines) j = Some oj
             /\ hasCode oj = hasCode (verifyContinuation p)
             /\ (freeContBeg oj = lit "&"
                 <-> isContinuation (verifyContinuation p) = true)
             /\ (freeContEnd oj = lit "&"
                 <-> hasCode (verifyContinuation p) = true
                     /\ pending (skipn (S j)
                                   (map verifyContinuation codeLines))
                        = true)
    | None =>
        nth_error (map verifyContinuation codeLines) j = None
        /\ nth_error (fixed_to_free codeLines) j = None
    end.
Proof.
  intros Hl H j. unfold fixed_to_free.
  rewrite identifyContinuations_marked, !nth_error_map, marked_nth_map,
    nth_error_map.
  destruct (nth_error codeLines j) as [p|] eqn:Ep; cbn [option_map];
    [|now split].
  split; [reflexivity|].
  destruct (Forall2_nth H j Ep) as (a & Ha & Hp).
  unfold CodeFile_init in Ha. rewrite nth_error_map in Ha.
  destruct (nth_error content j) as [l|] eqn:El; [|discriminate].
  simpl in Ha. injection Ha as <-.
  rewrite Forall_forall in Hl.
  pose proof (Hl l (nth_error_In _ _ El)) as Hl1.
  set (c := hasCode (verifyContinuation p)
            && pending (skipn (S j) (map verifyContinuation codeLines))).
  assert (Hc : c = true -> hasCode p = true).
  { unfold c. rewrite hasCode_verifyContinuation. intro E.
    apply andb_true_iff in E. tauto. }
  destruct (@convert_after_verify l p c Hl1 Hp Hc) as (H1 & H2 & H3 & H4).
  cbv zeta in *.
  exists (convertFixedToFree
            (if c then set_isContinued true (verifyContinuation p)
             else verifyContinuation p)).
  split; [reflexivity|].
  rewrite H1, H2. split; [reflexivity|].
  split; [exact H4|]. rewrite H3. unfold c. rewrite andb_true_iff.
  rewrite hasCode_verifyContinuation. tauto.
Qed.

(** A file parsed in the fixed layout, after [verifyContinuation] on every
    line, [identifyContinuations] and [convertFixedToFree] on every line:
    a line ends with the ampersand of a continued line exactly when it has
    code and the nearest line with code after it begins with the ampersand
    of a continuation. *)
Theorem fixed_to_free_ampersands (content : list str)
    (codeLines : list CodeLine) (i : nat) (ci : CodeLine) :
  Forall (fun l => single_line l = true) content ->
  Forall2 (fun unparsed self => parseLine unparsed = Some self)
    (CodeFile_init content false) codeLines ->
  nth_error (fixed_to_free codeLines) i = Some ci ->
  (freeContEnd ci = lit "&"
   <-> hasCode ci = true /\ next_code_continues (fixed_to_free codeLines) i).
Proof.
  intros Hl H Hi.
  pose proof (fixed_to_free_view Hl H) as V.
  set (L1 := map verifyContinuation codeLines) in *.
  set (out := fixed_to_free codeLines) in *.
  assert (Hnext : next_code_is_continuation L1 i <-> next_code_continues out i).
  { split.
    - intros (j & xj & Hij & Hj & Hcj & Hfj & Hbefore).
      pose proof (V j) as Vj.
      destruct (nth_error codeLines j) as [p|];
        [|destruct Vj as [E _]; congruence].
      destruct Vj as (E & oj & Ho & Hoc & Hob & _).
      rewrite Hj in E. injection E as ->.
      exists j, oj. repeat split; auto; [congruence|now apply Hob|].
      intros k ck Hk Hck. pose proof (V k) as Vk.
      destruct (nth_error codeLines k) as [pk|];
        [|destruct Vk as [_ E]; congruence].
      destruct Vk as (Ek & ok & Hok & Hokc & _).
      rewrite Hck in Hok. injection Hok as <-.
      rewrite Hokc. exact (Hbefore k _ Hk Ek).
    - intros (j & oj & Hij & Hj & Hcj & Hfj & Hbefore).
      pose proof (V j) as Vj.
      destruct (nth_error codeLines j) as [p|];
        [|destruct Vj as [_ E]; congruence].
      destruct Vj as (E & oj' & Ho & Hoc & Hob & _).
      rewrite Hj in Ho. injection Ho as <-.
      exists j, (verifyContinuation p).
      repeat split; auto; [congruence|now apply Hob|].
      intros k xk Hk Hxk. pose proof (V k) as Vk.
      destruct (nth_error codeLines k) as [pk|];
        [|destruct Vk as [E' _]; congruence].
      destruct Vk as (Ek & ok & Hok & Hokc & _).
      rewrite Hxk in Ek. injection Ek as ->.
      rewrite <- Hokc. exact (Hbefore k _ Hk Hok). }
  pose proof (V i) as Vi.
  destruct (nth_error codeLines i) as [p|];
    [|destruct Vi as [_ E]; congruence].
  destruct Vi as (E & oi & Ho & Hoc & _ & Hoe).
  rewrite Hi in Ho. injection Ho as <-.
  rewrite Hoe, Hoc, <- Hnext, pending_skipn. unfold L1.
  rewrite (continuation_follows_next_code i
             (verifyContinuation_flagged codeLines)).
  tauto.
Qed.

Lemma fixed_to_free_ampersands_witness :
  exists codeLines ci,
    Forall2 (fun unparsed self => parseLine unparsed = Some self)
      (CodeFile_init
         [lit "      X = 1" ++ [nl]; lit "C note" ++ [nl];
          lit "     &  + 2" ++ [nl]] false) codeLines
    /\ nth_error (fixed_to_free codeLines) 0 = Some ci
    /\ buildFullLine ci = lit "      X = 1&" ++ [nl]
    /\ next_code_continues (fixed_to_free codeLines) 0.
Proof.
  eexists. eexists. split; [|split; [|split]].
  - repeat (constructor; [vm_compute; reflexivity|]). constructor.
  - vm_compute. reflexivity.
  - vm_compute. reflexivity.
  - refine (proj2 (proj1 (@fixed_to_free_ampersands
              [lit "      X = 1" ++ [nl]; lit "C note" ++ [nl];
               lit "     &  + 2" ++ [nl]] _ 0 _ _ _ _) _)).
    + repeat constructor.
    + repeat (constructor; [vm_compute; reflexivity|]). constructor.
    + vm_compute. reflexivity.
    + vm_compute. reflexivity.
Defined.

(** ** Passes run again *)

Lemma re_rightSpace_none (x : str) :
  ends_nonspace x -> no_nl x = true -> re_match re_rightSpace x = None.
Proof.
  intros He Hn. destruct (re_match re_rightSpace x) as [m|] eqn:E;
    [exfalso|reflexivity].
  apply re_rightSpace_some in E.
  destruct E as (a & b & e & Hx & _ & Hb & Hb1 & Heol & _).
  assert (e = []) as ->.
  { rewrite Hx, app_assoc in Hn. exact (no_nl_eol _ _ Hn Heol). }
  rewrite app_nil_r in Hx.
  destruct (@exists_last _ b) as (b0 & c & Hb0).
  { intros ->. unfold len in Hb1. simpl in Hb1. lia. }
  rewrite Hb0, app_assoc in Hx. apply He in Hx.
  rewrite Hb0, forallb_app in Hb. simpl in Hb.
  rewrite Hx, andb_false_r in Hb. discriminate.
Qed.

Lemma marker_not_hash (c : ascii) :
  char_in c ["c"; "C"; "*"; "!"]%char = true -> Ascii.eqb c "#" = false.
Proof.
  revert c. intros [[] [] [] [] [] [] [] []]; vm_compute; intro H;
    try discriminate; reflexivity.
Qed.

(** [parseLine] called on a line that is parsed already changes nothing:
    the attribute [line] is empty then, or it holds a preprocessor or
    comment line, which goes to its region again. *)
Theorem parseLine_again (l : str) (free : bool) (self : CodeLine) :
  single_line l = true ->
  parseLine (CodeLine_init l free) = Some self ->
  parseLine self = Some self.
Proof.
  intros Hl H.
  destruct (@parseLine_rightSpace l free Hl) as (rs0 & _ & Hn & _).
  pose proof (rstrip_ends l) as He.
  pose proof (re_rightSpace_none He Hn) as Hnone.
  assert (Hnil : re_match re_rightSpace [] = None) by reflexivity.
  parse_paths l free Hl H; unfold parseLine.
  - cbn [line set_line]. rewrite Hbody, Hnil. reflexivity.
  - cbn [line set_line set_preProc]. rewrite Hnone. cbv zeta.
    cbn [line set_line set_preProc]. rewrite Hbody. reflexivity.
  - cbn [line set_line set_fixedComment]. rewrite Hnone. cbv zeta.
    cbn [line set_line set_fixedComment].
    unfold char_at_in in Hmark.
    destruct (rstrip l) as [|c0 b] eqn:Eb; [discriminate|].
    change (index (c0 :: b) 0) with (Some c0) in *. cbn [bind].
    change (len (c0 :: b) =? 0) with false. cbv iota.
    rewrite (marker_not_hash c0 Hmark).
    cbn [isFreeForm set_fixedComment set_line set_rightSpace CodeLine_init
         negb].
    rewrite Hfree. cbn [negb bind]. rewrite Hmark. reflexivity.
  - cbn [line rest_result]. rewrite Hnil. reflexivity.
Qed.

Lemma parseLine_again_witness :
  exists self,
    parseLine (CodeLine_init (lit "   10 X = 'Hi!'  ! greet  " ++ [nl]) false)
    = Some self
    /\ parseLine self = Some self.
Proof.
  eexists. split; [vm_compute; reflexivity|].
  apply (@parseLine_again
           (lit "   10 X = 'Hi!'  ! greet  " ++ [nl]) false);
    vm_compute; reflexivity.
Defined.

Lemma marked_marked (codeLines : list CodeLine) :
  marked (marked codeLines) = marked codeLines.
Proof.
  induction codeLines as [|x rest IH]; simpl; [reflexivity|].
  rewrite IH, pending_marked. f_equal.
  destruct (hasCode x && pending rest) eqn:E; [|now rewrite E].
  change (hasCode (set_isContinued true x)) with (hasCode x).
  now rewrite E.
Qed.

(** [identifyContinuations] only ever sets [isContinued]: a line that has
    the flag keeps it, every other attribute is kept, and running the pass
    again changes nothing more. *)
Theorem identifyContinuations_again (codeLines : list CodeLine) :
  identifyContinuations (identifyContinuations codeLines)
  = identifyContinuations codeLines
  /\ forall i ci,
       nth_error (identifyContinuations codeLines) i = Some ci ->
       exists x,
         nth_error codeLines i = Some x
         /\ ci = set_isContinued (isContinued ci) x
         /\ (isContinued x = true -> isContinued ci = true).
Proof.
  rewrite !identifyContinuations_marked. split; [apply marked_marked|].
  intros i ci Hi. destruct (marked_nth_form codeLines i Hi) as (x & Hx & ->).
  exists x. split; [exact Hx|].
  destruct (hasCode x && pending (skipn (S i) codeLines)); simpl.
  - split; [reflexivity|auto].
  - split; [now destruct x|auto].
Qed.

(** ** Lines that open a block and lines that close one *)

(** [ kw\b ] for a keyword of letters. *)
Lemma matches_re_keyword (kw : string) (s : str) :
  lit kw <> [] -> forallb is_word (lit kw) = true ->
  matches (re_keyword kw) s = keyword_at_start kw s.
Proof.
  intros Hne Hw. unfold keyword_at_start.
  change (matches (re_keyword kw) s)
    with (is_some (re_match (re_keyword kw) s)).
  unfold re_match, re_keyword. rewrite rmatch_word_i_cat.
  destruct (begins_with_i (lit kw) s) as [rest|] eqn:E; [|reflexivity].
  cbn [rmatch].
  rewrite (@at_wb_after_word _ rest
             (@word_before_begins (lit kw) Hne Hw None s rest E)).
  now destruct (negb (word_after rest)).
Qed.

(** A text that begins with one letter does not begin with another. *)
Lemma begins_with_i_other (a b : ascii) (kw kw' s rest : str) :
  Ascii.eqb (lower a) (lower b) = false ->
  begins_with_i (a :: kw) s = Some rest ->
  begins_with_i (b :: kw') s = None.
Proof.
  intros Hab H. destruct s as [|c s]; [discriminate|]. simpl in *.
  destruct (is_chr_i a c) eqn:Ha; [|discriminate].
  unfold is_chr_i in *. apply Ascii.eqb_eq in Ha. rewrite Ha.
  now rewrite Hab.
Qed.

Lemma keyword_at_start_other (a b : ascii) (kw kw' : string) (s rest : str) :
  Ascii.eqb (lower a) (lower b) = false ->
  begins_with_i (a :: lit kw) s = Some rest ->
  keyword_at_start (String b kw') s = false.
Proof.
  intros Hab H. unfold keyword_at_start.
  change (lit (String b kw')) with (b :: lit kw').
  now rewrite (@begins_with_i_other a b (lit kw) (lit kw') s rest Hab H).
Qed.

(** A line whose code begins with one of the keywords [subroutine],
    [module], [interface] and [function] opens a block and closes none:
    [fixIndentation] writes it at the depth reached, 0 at least, and the
    depth after it is one more. *)
Theorem fixIndentation_open (indent : str) (contiIndent : Z) (cur : Z)
    (x : CodeLine) :
  existsb (fun kw => keyword_at_start kw (code x)) opening_keywords = true ->
  increasesIndentAfter x = true
  /\ decreasesIndentBefore x = false
  /\ fst (fixIndentation_body indent contiIndent cur x) = (Z.max cur 0 + 1)%Z
  /\ leftSpace (snd (fixIndentation_body indent contiIndent cur x))
     = str_mul indent
         (Z.max cur 0 + (if isContinuation x then contiIndent else 0))%Z.
Proof.
  intro H.
  assert (Hcode : nonempty (code x) = true).
  { apply nonempty_true. intro E. rewrite E in H. discriminate. }
  assert (Hopen : matches (re_keyword "subroutine") (code x)
                  || matches (re_keyword "module") (code x)
                  || matches (re_keyword "interface") (code x)
                  || matches (re_keyword "function") (code x) = true).
  { rewrite !matches_re_keyword by (discriminate || reflexivity).
    unfold opening_keywords, existsb in H.
    destruct (keyword_at_start "subroutine" (code x)),
      (keyword_at_start "module" (code x)),
      (keyword_at_start "interface" (code x)),
      (keyword_at_start "function" (code x));
      try discriminate; reflexivity. }
  assert (Hinc : increasesIndentAfter x = true).
  { unfold increasesIndentAfter.
    destruct (matches (re_keyword "subroutine") (code x)),
      (matches (re_keyword "module") (code x)),
      (matches (re_keyword "interface") (code x)),
      (matches (re_keyword "function") (code x));
      try discriminate; now rewrite ?orb_true_r. }
  assert (Hdec : matches re_decrease (code x) = false).
  { rewrite matches_re_decrease. unfold closing_keywords, existsb.
    unfold opening_keywords, existsb in H.
    assert (Hkw : forall (a : ascii) (kw : string),
              Ascii.eqb (lower a) (lower "e") = false ->
              keyword_at_start (String a kw) (code x) = true ->
              keyword_at_start "endif" (code x)
              || (keyword_at_start "enddo" (code x)
                  || (keyword_at_start "endwhere" (code x)
                      || (keyword_at_start "end" (code x)
                          || (keyword_at_start "elseif" (code x)
                              || (keyword_at_start "else" (code x)
                                  || false))))) = false).
    { intros a kw Ha Hk. unfold keyword_at_start in Hk.
      change (lit (String a kw)) with (a :: lit kw) in Hk.
      destruct (begins_with_i (a :: lit kw) (code x)) as [rest|] eqn:E;
        [|discriminate].
      now rewrite !(@keyword_at_start_other a "e" kw _ (code x) rest Ha E). }
    repeat (apply orb_true_iff in H; destruct H as [H|H]);
      try discriminate;
      eapply Hkw; try exact H; reflexivity. }
  split; [exact Hinc|].
  split; [unfold decreasesIndentBefore; now rewrite Hdec|].
  unfold increasesIndentAfter in Hinc.
  unfold fixIndentation_body, fixIndentation_enter, setIndentation,
    decreasesIndentBefore, increasesIndentAfter, hasCode.
  rewrite Hdec.
  destruct (Z.ltb_spec cur 0) as [Hlt|Hge];
    cbn [fst snd code comment remarks leftSpace isContinuation
         set_remarks set_leftSpace];
    rewrite Hcode;
    cbn [fst snd code comment remarks leftSpace isContinuation
         set_remarks set_leftSpace orb];
    rewrite Hinc.
  - replace (Z.max cur 0) with 0%Z by lia. split; reflexivity.
  - replace (Z.max cur 0) with cur by lia. split; reflexivity.
Qed.

Lemma fixIndentation_open_witness :
  increasesIndentAfter
    (set_code (lit "SUBROUTINE solve(a, b)") (CodeLine_init [] true)) = true
  /\ decreasesIndentBefore
       (set_code (lit "SUBROUTINE solve(a, b)") (CodeLine_init [] true))
     = false
  /\ fst (fixIndentation_body (lit "  ") 2 0
            (set_code (lit "SUBROUTINE solve(a, b)") (CodeLine_init [] true)))
     = (Z.max 0 0 + 1)%Z
  /\ leftSpace
       (snd (fixIndentation_body (lit "  ") 2 0
               (set_code (lit "SUBROUTINE solve(a, b)")
                  (CodeLine_init [] true))))
     = str_mul (lit "  ")
         (Z.max 0 0
          + (if isContinuation
                  (set_code (lit "SUBROUTINE solve(a, b)")
                     (CodeLine_init [] true))
             then 2 else 0))%Z.
Proof.
  apply (@fixIndentation_open (lit "  ") 2 0
           (set_code (lit "SUBROUTINE solve(a, b)") (CodeLine_init [] true))).
  vm_compute. reflexivity.
Defined.

Lemma matches_word_i_none (kw : str) (b : regex) (s : str) :
  begins_with_i kw s = None -> matches (Cat (word_i kw) b) s = false.
Proof.
  intro H. change (matches (Cat (word_i kw) b) s)
    with (is_some (re_match (Cat (word_i kw) b) s)).
  unfold re_match. now rewrite rmatch_word_i_cat, H.
Qed.

Lemma begins_with_i_words (kw : str) :
  forallb is_word kw = true ->
  forall s rest,
    begins_with_i kw s = Some rest ->
    forallb is_word (firstn (len kw) s) = true.
Proof.
  induction kw as [|a kw IH]; intros Hw s rest H; [reflexivity|].
  simpl in Hw. apply andb_true_iff in Hw. destruct Hw as [Ha Hw].
  destruct s as [|c s]; [discriminate|]. simpl in H.
  destruct (is_chr_i a c) eqn:Hc; [|discriminate].
  change (firstn (len (a :: kw)) (c :: s)) with (c :: firstn (len kw) s).
  simpl. rewrite (IH Hw s rest H), andb_true_r.
  unfold is_chr_i in Hc. apply Ascii.eqb_eq in Hc.
  now rewrite (@caseless_same is_word c a caseless_is_word Hc).
Qed.

Lemma is_chr_i_colon (c : ascii) : is_chr_i ":" c = true -> c = ":"%char.
Proof.
  revert c. intros [[] [] [] [] [] [] [] []]; vm_compute; intro H;
    try discriminate; reflexivity.
Qed.

(** The first character of a text that is no word character stands at one
    place. *)
Lemma first_nonword (a a' b b' : str) (c c' : ascii) :
  a ++ c :: b = a' ++ c' :: b' ->
  forallb is_word a = true -> is_word c = false ->
  forallb is_word a' = true -> is_word c' = false ->
  c = c'.
Proof.
  revert a'. induction a as [|d a IH]; intros [|d' a'] E Ha Hc Ha' Hc';
    simpl in *.
  - now injection E.
  - injection E as -> _. apply andb_true_iff in Ha'. destruct Ha'. congruence.
  - injection E as -> _. apply andb_true_iff in Ha. destruct Ha. congruence.
  - injection E as _ E. apply andb_true_iff in Ha, Ha'.
    apply (IH a' E); tauto.
Qed.

Lemma words_no_nonword (a b x : str) (c : ascii) :
  a ++ c :: b = x -> is_word c = false -> forallb is_word x = true -> False.
Proof.
  intros <- Hc H. rewrite forallb_app in H. simpl in H.
  rewrite Hc, andb_false_r in H. discriminate.
Qed.

(** [ (\w+:\s+)?do\b ] on a text that begins with a word other than [do],
    no colon after it. *)
Lemma matches_re_do_none (kw s rest : str) :
  forallb is_word kw = true ->
  begins_with_i kw s = Some rest ->
  word_after rest = false -> (forall r, rest <> ":"%char :: r) ->
  begins_with_i (lit "do") s = None ->
  matches re_do s = false.
Proof.
  intros Hw Hb Hrest Hcolon Hdo.
  change (matches re_do s) with (is_some (re_match re_do s)).
  unfold re_match, re_do. cbn [rmatch]. rewrite rmatch_word_i, Hdo.
  unfold plus.
  match goal with
  | |- is_some (match ?g with Some m => Some m | None => None end) = false =>
      destruct g as [m|] eqn:E; [exfalso|reflexivity]
  end.
  apply rep_greedy_some in E.
  destruct E as (a & b & Es & Ha & Ha1 & _ & Hk & _).
  destruct b as [|c b]; [discriminate|].
  destruct (is_chr_i ":" c) eqn:Hc; [|discriminate].
  apply is_chr_i_colon in Hc. subst c.
  destruct (begins_with_i_split _ _ Hb) as [Esplit _].
  pose proof (@begins_with_i_words kw Hw s rest Hb) as Hp.
  rewrite Es in Esplit at 1.
  destruct rest as [|c' r].
  - rewrite app_nil_r in Esplit.
    exact (@words_no_nonword a b _ ":"%char Esplit eq_refl Hp).
  - simpl in Hrest.
    pose proof (@first_nonword a _ b r ":"%char c' Esplit Ha eq_refl Hp
                  Hrest) as Ec.
    subst c'. now apply (Hcolon r).
Qed.

(** A line whose code begins with the keyword [end], no colon after it,
    closes a block and opens none: [fixIndentation] writes it one level
    out, at level 0 at least, and the depth after it is that level. *)
Theorem fixIndentation_end (indent : str) (contiIndent : Z) (cur : Z)
    (x : CodeLine) (rest : str) :
  begins_with_i (lit "end") (code x) = Some rest ->
  word_after rest = false ->
  (forall r, rest <> ":"%char :: r) ->
  decreasesIndentBefore x = true
  /\ increasesIndentAfter x = false
  /\ fst (fixIndentation_body indent contiIndent cur x) = Z.max (cur - 1) 0
  /\ leftSpace (snd (fixIndentation_body indent contiIndent cur x))
     = str_mul indent
         (Z.max (cur - 1) 0
          + (if isContinuation x then contiIndent else 0))%Z.
Proof.
  intros Hb Hrest Hcolon.
  assert (Hcode : nonempty (code x) = true).
  { apply nonempty_true. intro E. rewrite E in Hb. discriminate. }
  assert (Hdec : matches re_decrease (code x) = true).
  { rewrite matches_re_decrease. unfold closing_keywords, existsb.
    unfold keyword_at_start at 4. rewrite Hb, Hrest. simpl.
    now rewrite !orb_true_r. }
  assert (Hother : forall (a : ascii) (kw : str),
            Ascii.eqb (lower "e") (lower a) = false ->
            begins_with_i (a :: kw) (code x) = None).
  { intros a kw Ha.
    exact (@begins_with_i_other "e" a (lit "nd") kw (code x) rest Ha Hb). }
  assert (Helse : begins_with_i (lit "else") (code x) = None).
  { destruct (code x) as [|c0 s']; [discriminate|].
    change (lit "end") with ("e"%char :: lit "nd") in Hb.
    change (lit "else") with ("e"%char :: lit "lse").
    simpl in Hb |- *. destruct (is_chr_i "e" c0); [|reflexivity].
    exact (@begins_with_i_other "n" "l" (lit "d") (lit "se") s' rest
             eq_refl Hb). }
  assert (Hinc : increasesIndentAfter x = false).
  { unfold increasesIndentAfter.
    rewrite (@matches_re_do_none (lit "end") (code x) rest eq_refl Hb Hrest
               Hcolon (Hother "d"%char _ eq_refl)).
    unfold re_ifThen, re_keyword, re_type, re_blockData, re_where, re_else.
    rewrite !matches_word_i_none;
      [reflexivity|exact Helse|apply Hother; reflexivity..]. }
  split; [unfold decreasesIndentBefore; now rewrite Hdec|].
  split; [exact Hinc|].
  unfold increasesIndentAfter in Hinc.
  unfold fixIndentation_body, fixIndentation_enter, setIndentation,
    decreasesIndentBefore, increasesIndentAfter, hasCode.
  rewrite Hdec.
  destruct (Z.ltb_spec (cur - 1) 0) as [Hlt|Hge];
    cbn [fst snd code comment remarks leftSpace isContinuation
         set_remarks set_leftSpace];
    rewrite Hcode;
    cbn [fst snd code comment remarks leftSpace isContinuation
         set_remarks set_leftSpace orb];
    rewrite Hinc.
  - replace (Z.max (cur - 1) 0) with 0%Z by lia. split; reflexivity.
  - replace (Z.max (cur - 1) 0) with (cur - 1)%Z by lia. split; reflexivity.
Qed.

Lemma fixIndentation_end_witness :
  decreasesIndentBefore
    (set_code (lit "END SUBROUTINE solve") (CodeLine_init [] true)) = true
  /\ increasesIndentAfter
       (set_code (lit "END SUBROUTINE solve") (CodeLine_init [] true)) = false
  /\ fst (fixIndentation_body (lit "  ") 2 1
            (set_code (lit "END SUBROUTINE solve") (CodeLine_init [] true)))
     = Z.max (1 - 1) 0
  /\ leftSpace
       (snd (fixIndentation_body (lit "  ") 2 1
               (set_code (lit "END SUBROUTINE solve")
                  (CodeLine_init [] true))))
     = str_mul (lit "  ")
         (Z.max (1 - 1) 0
          + (if isContinuation
                  (set_code (lit "END SUBROUTINE solve")
                     (CodeLine_init [] true))
             then 2 else 0))%Z.
Proof.
  apply (@fixIndentation_end (lit "  ") 2 1
           (set_code (lit "END SUBROUTINE solve") (CodeLine_init [] true))
           (lit " SUBROUTINE solve")).
  - reflexivity.
  - reflexivity.
  - intros r E. discriminate E.
Defined.
